(** * SCARA plotter: kinematics, trajectory generation, command synthesis
      and the trajectory sender

    Shallow embedding of
      - [src/kinematic_part/IK3.py]        (module [IK3]),
      - [src/scara_grid_test.py]           (module [GridTest]),
      - [src/trajectory_sender_grid_3.py]  (module [Sender]).

    Python floats are modelled by the real numbers of the Standard
    Library: every arithmetic operation is exact.  Python's [int(.)] on a
    float is truncation toward zero, [round(., n)] is rounding to [n]
    decimals with ties to even, [math.atan2] is the two-argument
    arctangent with [atan2(0, 0) = 0].  Hardware writes of the sender are
    modelled by an explicit table saying which calls raise.

    Exact arithmetic and the running program differ by rounding.  Where
    a function decides by a comparison (the workspace test, the test on
    the cosine of the elbow angle) or truncates to an integer, the two can
    part on inputs within rounding distance of the point of decision: a
    point within about [1e-13] mm of the boundary of the workspace, an
    angle within about [1e-13] of a whole number of motor steps.  The
    further properties that state such an outcome therefore carry a margin
    that keeps their inputs away from these points.  Division is total
    here; the source raises [ZeroDivisionError] when it divides by [0], so
    the profilers are those of the source for [speed <> 0] only. *)

From Stdlib Require Import Reals Lra Lia ZArith List Bool QArith Qround String.
From Stdlib Require Lqa.
Import ListNotations.

(** ** Python numeric primitives over [R] *)

Module Py.

Local Open Scope R_scope.

(** The comparisons [a < b] and [a > b] as truth values, for use under
    [and] and [or]. *)
Definition ltb (a b : R) : bool := if Rlt_dec a b then true else false.
Definition gtb (a b : R) : bool := if Rgt_dec a b then true else false.

(** [math.atan2(y, x)] *)
Definition atan2 (y x : R) : R :=
  if Rlt_dec 0 x then atan (y / x)
  else if Rlt_dec x 0 then
         (if Rle_dec 0 y then atan (y / x) + PI else atan (y / x) - PI)
  else if Rlt_dec 0 y then PI / 2
  else if Rlt_dec y 0 then - (PI / 2)
  else 0.

(** [int(r)]: truncation toward zero *)
Definition int (r : R) : Z :=
  if Rle_dec 0 r then Int_part r else (- Int_part (- r))%Z.

(** [round(r)] to the nearest integer, ties to even *)
Definition round_half_even (r : R) : Z :=
  let f := Int_part r in
  if Rlt_dec (r - IZR f) (1 / 2) then f
  else if Rlt_dec (1 / 2) (r - IZR f) then (f + 1)%Z
  else if Z.even f then f else (f + 1)%Z.

(** [round(r, n)] *)
Definition round (r : R) (n : nat) : R :=
  IZR (round_half_even (r * 10 ^ n)) / 10 ^ n.

(** [math.dist(p, q)] for two-dimensional points *)
Definition dist (p q : R * R) : R :=
  sqrt ((fst p - fst q) ^ 2 + (snd p - snd q) ^ 2).

(** [math.degrees] and [math.radians] *)
Definition degrees (a : R) : R := a * 180 / PI.
Definition radians (a : R) : R := a * PI / 180.

End Py.

(** ** [src/kinematic_part/IK3.py] *)

Module IK3.

Local Open Scope R_scope.

(** *** 1. Settings and constants *)

Definition L1 : R := 155.
Definition L2 : R := 160.
Definition DT : R := 2 / 100.
Definition STEPS_PER_REV : R := 200.
Definition MICROSTEPS : R := 32.
Definition GEAR_RATIO_J1 : R := 2.
Definition GEAR_RATIO_J2 : R := 25 / 10.
Definition STEPS_PER_RAD_J1 : R :=
  (STEPS_PER_REV * MICROSTEPS * GEAR_RATIO_J1) / (2 * PI).
Definition STEPS_PER_RAD_J2 : R :=
  (STEPS_PER_REV * MICROSTEPS * GEAR_RATIO_J2) / (2 * PI).
Definition TRAVEL_SPEED : R := 50.
Definition DRAW_SPEED : R := 30.
Definition PEN_DOWN_DELAY : R := 2.

(** *** 2. Robot kinematics class *)

Record ScaraRobot : Type := mkScaraRobot { l1 : R; l2 : R }.

(** The workspace limits of an arm, as [SCARARobotController.__init__]
    derives them: [L1 + L2] and [abs(L1 - L2)]. *)
Definition max_reach (self : ScaraRobot) : R := l1 self + l2 self.
Definition min_reach (self : ScaraRobot) : R := Rabs (l1 self - l2 self).

(** The value of [c2] before the two clamping tests. *)
Definition raw_c2 (self : ScaraRobot) (x y : R) : R :=
  (x ^ 2 + y ^ 2 - l1 self ^ 2 - l2 self ^ 2) / (2 * l1 self * l2 self).

(** The value of [c2] after [if c2 > 1.0: c2 = 1.0] and
    [if c2 < -1.0: c2 = -1.0]. *)
Definition clamp (c2 : R) : R :=
  let c2 := if Rgt_dec c2 1 then 1 else c2 in
  if Rlt_dec c2 (-1) then -1 else c2.

Definition inverse_kinematics (self : ScaraRobot) (x y : R) : R * R :=
  let denom := 2 * l1 self * l2 self in
  if Req_dec_T denom 0 then (0, 0) else
  let numerator := x ^ 2 + y ^ 2 - l1 self ^ 2 - l2 self ^ 2 in
  let c2 := clamp (numerator / denom) in
  let s2 := sqrt (1 - c2 ^ 2) in
  let theta2 := Py.atan2 s2 c2 in
  let den_k := x ^ 2 + y ^ 2 in
  if Req_dec_T den_k 0 then (0, 0) else
  let term := l1 self + l2 self * c2 in
  let s1 := (- x * l2 self * s2 + y * term) / den_k in
  let c1 := (y * l2 self * s2 + x * term) / den_k in
  let theta1 := Py.atan2 s1 c1 in
  (theta1, theta2).

(** Returns [(xe, ye, xf, yf)]: the elbow and the end effector. *)
Definition forward_kinematics (self : ScaraRobot) (t1 t2 : R)
  : R * R * R * R :=
  let xe := l1 self * cos t1 in
  let ye := l1 self * sin t1 in
  let xf := xe + l2 self * cos (t1 + t2) in
  let yf := ye + l2 self * sin (t1 + t2) in
  (xe, ye, xf, yf).

(** The end effector of [forward_kinematics]. *)
Definition end_effector (self : ScaraRobot) (t : R * R) : R * R :=
  let '(_, _, xf, yf) := forward_kinematics self (fst t) (snd t) in (xf, yf).

(** *** 3. Trajectory generators *)

Definition get_quintic_scalar (t T : R) : R :=
  if Rge_dec t T then 1
  else if Rle_dec t 0 then 0
  else let tau := t / T in
       10 * tau ^ 3 - 15 * tau ^ 4 + 6 * tau ^ 5.

(** A trajectory sample [(x, y, pen)]; [pen] is the integer flag of the
    source ([0] up, [1] down). *)
Definition sample : Type := R * R * Z.

(** The two profilers.  Both compute [dist / speed] once the segment is
    at least [0.001] long: for [speed = 0] the source raises
    [ZeroDivisionError] there, so the definitions below are those of the
    source for [speed <> 0], and for a degenerate segment at any speed. *)
Definition interpolate_travel (start_p end_p : R * R) (speed dt : R)
    (pen_state : Z) : list sample :=
  let dist := Py.dist start_p end_p in
  if Rlt_dec dist (1 / 1000) then [] else
  let duration := dist / speed in
  let duration := if Rlt_dec duration dt then dt else duration in
  let num_samples := Py.int (duration / dt) in
  let num_samples := if (num_samples <? 5)%Z then 5%Z else num_samples in
  let duration := IZR num_samples * dt in
  map (fun i : nat =>
         let curr_time := INR i * dt in
         let s := get_quintic_scalar curr_time duration in
         let nx := fst start_p + (fst end_p - fst start_p) * s in
         let ny := snd start_p + (snd end_p - snd start_p) * s in
         (nx, ny, pen_state))
      (seq 0 (Z.to_nat num_samples)).

Definition interpolate_linear (start_p end_p : R * R) (speed dt : R)
    (pen_state : Z) : list sample :=
  let dist := Py.dist start_p end_p in
  if Rlt_dec dist (1 / 1000) then [] else
  let duration := dist / speed in
  if Rlt_dec duration dt then [(fst end_p, snd end_p, pen_state)] else
  let num_samples := Py.int (duration / dt) in
  map (fun i : nat =>
         let t := INR i / IZR num_samples in
         let nx := fst start_p + (fst end_p - fst start_p) * t in
         let ny := snd start_p + (snd end_p - snd start_p) * t in
         (nx, ny, pen_state))
      (seq 1 (Z.to_nat num_samples)).

(** *** 5. Main logic: trajectory generation *)

(** An entry of [target_list]: [{'x':, 'y':, 'pen':}]. *)
Record target : Type := mkTarget { tx : R; ty : R; tpen : Z }.

(** [HOME_X = 0] and [HOME_Y = L1 + L2], the link lengths being those the
    robot is built from. *)
Definition HOME_X : R := 0.
Definition HOME_Y (robot : ScaraRobot) : R := l1 robot + l2 robot.

(** The state carried by the loop over [target_list]: the trajectory
    built so far and [(current_x, current_y)]. *)
Record builder : Type :=
  mkBuilder { full_trajectory : list sample; current : R * R }.

Definition initial_builder (robot : ScaraRobot) : builder :=
  mkBuilder [(HOME_X, HOME_Y robot, 0%Z)] (HOME_X, HOME_Y robot).

(** [full_trajectory[-1][2] if full_trajectory else 0] *)
Definition last_state (traj : list sample) : Z :=
  match traj with
  | [] => 0%Z
  | _ => snd (last traj (0, 0, 0%Z))
  end.

(** One iteration of [for i, target in enumerate(target_list)]. *)
Definition process_target (b : builder) (tg : target) : builder :=
  let start_pos := current b in
  let target_pos := (tx tg, ty tg) in
  if Py.ltb (Py.dist start_pos target_pos) (1 / 1000) && (tpen tg =? 1)%Z
  then b
  else
    let '(traj, moves) :=
      if (tpen tg =? 0)%Z then
        let wait_steps := Py.int ((2 / 10) / DT) in
        let traj :=
          full_trajectory b
          ++ repeat (fst start_pos, snd start_pos, 0%Z) (Z.to_nat wait_steps) in
        let moves := interpolate_travel start_pos target_pos TRAVEL_SPEED DT 0 in
        let moves :=
          match moves with [] => [(tx tg, ty tg, 0%Z)] | _ => moves end in
        (traj, moves)
      else
        let traj :=
          if (last_state (full_trajectory b) =? 0)%Z then
            let wait_steps := Py.int (PEN_DOWN_DELAY / DT) in
            full_trajectory b
            ++ repeat (fst start_pos, snd start_pos, 1%Z) (Z.to_nat wait_steps)
          else full_trajectory b in
        (traj, interpolate_linear start_pos target_pos DRAW_SPEED DT 1)
    in
    mkBuilder (traj ++ moves) target_pos.

Definition build (robot : ScaraRobot) (target_list : list target) : builder :=
  fold_left process_target target_list (initial_builder robot).

Definition trajectory (robot : ScaraRobot) (target_list : list target)
  : list sample :=
  full_trajectory (build robot target_list).

(** *** 6. Motor command generation *)

(** A row of [commands]:
    [Time, J1_Pos, J1_Dir, J1_Delta, J1_Hz, J2_Pos, J2_Dir, J2_Delta,
     J2_Hz, Pen]. *)
Record command : Type := mkCommand {
  Time : R;
  J1_Pos : Z; J1_Dir : Z; J1_Delta : Z; J1_Hz : R;
  J2_Pos : Z; J2_Dir : Z; J2_Delta : Z; J2_Hz : R;
  Pen : Z
}.

Section Synthesizer.

(** The method [robot.inverse_kinematics] as the loop sees it: [None]
    stands for a result whose first component is Python's [None]. *)
Variable ik : R -> R -> option (R * R).

Variables OFFSET_STEPS_1 OFFSET_STEPS_2 : Z.

(** The body of [for i, (x, y, pen) in enumerate(full_trajectory)],
    from row [i] on, with [prev_steps_1] and [prev_steps_2]. *)
Fixpoint command_loop (i : nat) (prev_steps_1 prev_steps_2 : Z)
    (traj : list sample) : list command :=
  match traj with
  | [] => []
  | (x, y, pen) :: rest =>
      let '(curr_steps_1, curr_steps_2) :=
        match ik x y with
        | None => (prev_steps_1, prev_steps_2)
        | Some (t1, t2) =>
            let raw_steps_1 := Py.int (t1 * STEPS_PER_RAD_J1) in
            let raw_steps_2 := Py.int (t2 * STEPS_PER_RAD_J2) in
            (((raw_steps_1 - OFFSET_STEPS_1) * -1)%Z,
             ((raw_steps_2 - OFFSET_STEPS_2) * -1)%Z)
        end in
      let delta_1 := (curr_steps_1 - prev_steps_1)%Z in
      let delta_2 := (curr_steps_2 - prev_steps_2)%Z in
      let dir_1 := if (delta_1 >=? 0)%Z then 1%Z else 0%Z in
      let dir_2 := if (delta_2 >=? 0)%Z then 1%Z else 0%Z in
      let hz_1 := IZR (Z.abs delta_1) / DT in
      let hz_2 := IZR (Z.abs delta_2) / DT in
      mkCommand (Py.round (INR i * DT) 3)
                curr_steps_1 dir_1 (Z.abs delta_1) (Py.round hz_1 1)
                curr_steps_2 dir_2 (Z.abs delta_2) (Py.round hz_2 1)
                pen
      :: command_loop (S i) curr_steps_1 curr_steps_2 rest
  end.

End Synthesizer.

(** The whole of section 6 for a robot object whose [inverse_kinematics]
    is [ik] and whose home is [home].  The home pose is used without a
    test for [None]: there the source raises, which is [None] here. *)
Definition generate_commands (ik : R -> R -> option (R * R)) (home : R * R)
    (traj : list sample) : option (list command) :=
  match ik (fst home) (snd home) with
  | None => None
  | Some (t1_home, t2_home) =>
      let OFFSET_STEPS_1 := Py.int (t1_home * STEPS_PER_RAD_J1) in
      let OFFSET_STEPS_2 := Py.int (t2_home * STEPS_PER_RAD_J2) in
      Some (command_loop ik OFFSET_STEPS_1 OFFSET_STEPS_2 0 0 0 traj)
  end.

(** [robot.inverse_kinematics] of a [ScaraRobot]: it always returns two
    numbers. *)
Definition robot_ik (robot : ScaraRobot) (x y : R) : option (R * R) :=
  Some (inverse_kinematics robot x y).

(** [commands] as the script computes it from [target_list]. *)
Definition commands (robot : ScaraRobot) (target_list : list target)
  : option (list command) :=
  generate_commands (robot_ik robot) (HOME_X, HOME_Y robot)
                    (trajectory robot target_list).

(** The robot of the script: [robot = ScaraRobot(L1, L2)]. *)
Definition robot : ScaraRobot := mkScaraRobot L1 L2.

End IK3.

(** ** [src/scara_grid_test.py] *)

Module GridTest.

Local Open Scope R_scope.

(** The attributes set by [SCARARobotController.__init__]. *)
Definition L1 : R := 160.
Definition L2 : R := 1495 / 10.
Definition max_reach : R := L1 + L2.
Definition min_reach : R := Rabs (L1 - L2).

(** Returns [(theta1, theta2, is_valid)], angles in degrees. *)
Definition inverse_kinematics (x y : R) : R * R * bool :=
  let distance := sqrt (x ^ 2 + y ^ 2) in
  if Py.gtb distance max_reach || Py.ltb distance min_reach
  then (0, 0, false) else
  let cos_theta2 := (x ^ 2 + y ^ 2 - L1 ^ 2 - L2 ^ 2) / (2 * L1 * L2) in
  if Rgt_dec (Rabs cos_theta2) 1 then (0, 0, false) else
  let theta2 := Py.atan2 (sqrt (1 - cos_theta2 ^ 2)) cos_theta2 in
  let k1 := L1 + L2 * cos theta2 in
  let k2 := L2 * sin theta2 in
  let theta1 := Py.atan2 y x - Py.atan2 k2 k1 in
  (Py.degrees theta1, Py.degrees theta2, true).

Definition forward_kinematics (theta1_deg theta2_deg : R) : R * R :=
  let theta1 := Py.radians theta1_deg in
  let theta2 := Py.radians theta2_deg in
  let x := L1 * cos theta1 + L2 * cos (theta1 + theta2) in
  let y := L1 * sin theta1 + L2 * sin (theta1 + theta2) in
  (x, y).

(** More attributes set by [SCARARobotController.__init__]. *)
Definition steps_per_rev : R := 200 * 32.
Definition step_to_angle : R := 360 / steps_per_rev.
Definition grid_size : nat := 3.
Definition grid_spacing : R := 60.

(** One turn of the inner loop of [generate_grid_coordinates], on the
    pair [(coordinates, point_num)]. *)
Definition grid_step (center_x center_y : R)
    (st : list (R * R * Z) * Z) (ij : nat * nat) : list (R * R * Z) * Z :=
  let '(coordinates, point_num) := st in
  let '(i, j) := ij in
  let x := center_x + (INR j - 1) * grid_spacing in
  let y := center_y + (INR i - 1) * grid_spacing in
  let distance := sqrt (x ^ 2 + y ^ 2) in
  let coordinates :=
    if Rle_dec min_reach distance then
      if Rle_dec distance max_reach then coordinates ++ [(x, y, point_num)]
      else coordinates
    else coordinates in
  (coordinates, (point_num + 1)%Z).

Definition generate_grid_coordinates (center_x center_y : R)
  : list (R * R * Z) :=
  fst (fold_left (grid_step center_x center_y)
         (list_prod (seq 0 grid_size) (seq 0 grid_size)) ([], 1%Z)).

Definition angles_to_motor_values (theta1 theta2 : R) : Z * Z :=
  let steps1 := Py.int (theta1 / step_to_angle) in
  let steps2 := Py.int (theta2 / step_to_angle) in
  (steps1, steps2).

End GridTest.

(** ** [src/trajectory_sender_grid_3.py] and [src/trajectory_sender.py] *)

Module Sender.

(** A row of the command table as [csv.DictReader] yields it, its fields
    already read as numbers: the position columns are integers, the
    frequency, pen and time columns hold decimal numbers. *)
Record row : Type := mkRow {
  Time : Q;
  J1_Pos : Z; J1_Hz : Q;
  J2_Pos : Z; J2_Hz : Q;
  Pen : Q
}.

(** [int(float(s))]: truncation toward zero *)
Definition int (q : Q) : Z :=
  if Qle_bool 0 q then Qfloor q else Qceiling q.

(** The calls made on the socket. *)
Inductive call : Type :=
| write_sign_Dword (headdevice : string) (data_list : list Z)
| write_bit (headdevice : string) (data_list : list Z)
| read_bit (headdevice : string).

(** What the script prints, progress lines apart. *)
Inductive message : Type :=
| Error_at_row (i : nat)
| Stopping_execution
| M3_trigger_started_at_row (i : nat)
| Trajectory_execution_complete
| M3_trigger_disabled.

(** What the run does, in order.  A call carries the index of the row it
    was made for ([None] for the call after the loop) and whether it
    returned ([true]) or raised ([false]). *)
Inductive event : Type :=
| Call (at_row : option nat) (c : call) (returned : bool)
| Print (m : message).

(** How a run ends: the script reaches its last line, or an exception
    leaves it. *)
Inductive ending : Type := Finished | Uncaught.

Section Grid3.

(** The controller: which [write_sign_Dword] and [write_bit] of row [i]
    raise, and whether the [write_bit] after the loop raises. *)
Variable dword_raises : nat -> bool.
Variable bit_raises : nat -> bool.
Variable final_raises : bool.

(** [for i, row in enumerate(reader)] of [trajectory_sender_grid_3.py],
    from row [i] on. *)
Fixpoint stream (i : nat) (rows : list row) : list event :=
  match rows with
  | [] => []
  | r :: rest =>
      let d100_value := J1_Pos r in
      let d102_value := int (J1_Hz r) in
      let d104_value := J2_Pos r in
      let d106_value := int (J2_Hz r) in
      let on_off := int (Pen r) in
      let w1 := write_sign_Dword "D100"
                  [d100_value; d102_value; d104_value; d106_value] in
      let w2 := write_bit "M4" [on_off] in
      if dword_raises i then
        [Call (Some i) w1 false; Print (Error_at_row i);
         Print Stopping_execution]
      else if bit_raises i then
        [Call (Some i) w1 true; Call (Some i) w2 false;
         Print (Error_at_row i); Print Stopping_execution]
      else
        Call (Some i) w1 true :: Call (Some i) w2 true
        :: stream (S i) rest
  end.

(** The script from [start_time = time.time()] on. *)
Definition run (rows : list row) : list event * ending :=
  let loop := stream 0 rows in
  if final_raises then
    (loop ++ [Call None (write_bit "M4" [0%Z]) false], Uncaught)
  else
    (loop ++ [Call None (write_bit "M4" [0%Z]) true;
              Print Trajectory_execution_complete], Finished).

End Grid3.

Section Plain.

(** The controller: what [read_bit] on [M3] answers at row [i] ([None]
    when it raises), which [write_bit] and [write_sign_Dword] of row [i]
    raise, and whether the [write_bit] after the loop raises. *)
Variable m3_status : nat -> option (list Z).
Variable m3_raises : nat -> bool.
Variable dword_raises : nat -> bool.
Variable final_raises : bool.

(** [m3_status and m3_status[0] == 0] *)
Definition m3_is_off (status : list Z) : bool :=
  match status with
  | b :: _ => (b =? 0)%Z
  | [] => false
  end.

(** [for i, row in enumerate(reader)] of [trajectory_sender.py], from row
    [i] on, with the flag [m3_enabled]. *)
Fixpoint stream_plain (i : nat) (m3_enabled : bool) (rows : list row)
  : list event :=
  match rows with
  | [] => []
  | r :: rest =>
      let d100_value := J2_Pos r in
      let d102_value := int (J2_Hz r) in
      let d104_value := J1_Pos r in
      let d106_value := int (J1_Hz r) in
      let stop := [Print (Error_at_row i); Print Stopping_execution] in
      let write (enabled : bool) :=
        let w := write_sign_Dword "D100"
                   [d100_value; d102_value; d104_value; d106_value] in
        if dword_raises i then Call (Some i) w false :: stop
        else Call (Some i) w true :: stream_plain (S i) enabled rest in
      if negb (d100_value =? 0)%Z || negb (d104_value =? 0)%Z then
        match m3_status i with
        | None => Call (Some i) (read_bit "M3") false :: stop
        | Some status =>
            Call (Some i) (read_bit "M3") true ::
            (if m3_is_off status then
               if m3_raises i then
                 Call (Some i) (write_bit "M3" [1%Z]) false :: stop
               else
                 Call (Some i) (write_bit "M3" [1%Z]) true ::
                 (if m3_enabled then write true
                  else Print (M3_trigger_started_at_row i) :: write true)
             else write m3_enabled)
        end
      else write m3_enabled
  end.

(** The script from [start_time = time.time()] on. *)
Definition run_plain (rows : list row) : list event * ending :=
  let loop := stream_plain 0 false rows ++ [Print Trajectory_execution_complete] in
  if final_raises then
    (loop ++ [Call None (write_bit "M3" [0%Z]) false], Uncaught)
  else
    (loop ++ [Call None (write_bit "M3" [0%Z]) true;
              Print M3_trigger_disabled], Finished).

End Plain.

(** *** Observations on a run *)

(** The rows for which a write was issued. *)
Definition written_row (e : event) : option nat :=
  match e with
  | Call (Some i) (write_sign_Dword _ _) _ => Some i
  | Call (Some i) (write_bit _ _) _ => Some i
  | _ => None
  end.

(** The write issued after the loop, which switches the trigger or pen
    bit off. *)
Definition is_safe_state_write (e : event) : bool :=
  match e with
  | Call None (write_bit _ [0%Z]) _ => true
  | _ => false
  end.

(** The rows reported as failed. *)
Definition reported_failure (e : event) : option nat :=
  match e with
  | Print (Error_at_row i) => Some i
  | _ => None
  end.

Fixpoint collect {A B : Type} (f : A -> option B) (l : list A) : list B :=
  match l with
  | [] => []
  | a :: l' =>
      match f a with
      | Some b => b :: collect f l'
      | None => collect f l'
      end
  end.

Definition written_rows (t : list event) : list nat := collect written_row t.
Definition safe_state_writes (t : list event) : nat :=
  List.length (filter is_safe_state_write t).
Definition reported_failures (t : list event) : list nat :=
  collect reported_failure t.

End Sender.

(** ** [src/trajectory_sender_grid_3.py]: the wait for [M3] *)

Module WaitEnable.

Section Poll.

(** The controller: what the [n]-th [read_bit] on [M3] answers ([None]
    when it raises). *)
Variable m3_reads : nat -> option (list Z).

(** [m3_status and m3_status[0] == 1] *)
Definition m3_is_on (status : list Z) : bool :=
  match status with
  | b :: _ => (b =? 1)%Z
  | [] => false
  end.

(** [while True] of lines 33-42, from the [n]-th poll on, for at most
    [fuel] polls: the index of the poll that saw [M3] enabled, and the
    seconds slept before it (0.1 after a read that found it off, 0.5 after
    a read that raised). *)
Fixpoint wait_for_M3 (fuel n : nat) (slept : Q) : option (nat * Q) :=
  match fuel with
  | O => None
  | S fuel' =>
      match m3_reads n with
      | Some status =>
          if m3_is_on status then Some (n, slept)
          else wait_for_M3 fuel' (S n) (slept + (1 # 10))%Q
      | None => wait_for_M3 fuel' (S n) (slept + (5 # 10))%Q
      end
  end.

End Poll.

End WaitEnable.

(** ** [src/scara_grid_test.py]: the methods that talk to the controller *)

Module GridRun.

Local Open Scope R_scope.

Section Controller.

(** The controller: whether the [write_sign_Dword] and the [write_bit] of
    a call to [send_motor_commands] raise. *)
Variable dword_raises : bool.
Variable bit_raises : bool.

(** Returns the calls made on the socket, each with whether it returned,
    and the result of the method. *)
Definition send_motor_commands (pos1 vel1 pos2 vel2 : Z)
  : list (Sender.call * bool) * bool :=
  let w := Sender.write_sign_Dword "D100" [pos1; vel1; pos2; vel2] in
  let m := Sender.write_bit "M3" [1%Z] in
  if dword_raises then ([(w, false)], false)
  else if bit_raises then ([(w, true); (m, false)], false)
  else ([(w, true); (m, true)], true).

Definition test_grid_point (x y : R) (point_num velocity : Z)
  : list (Sender.call * bool) * bool :=
  let '(theta1, theta2, is_valid) := GridTest.inverse_kinematics x y in
  if negb is_valid then ([], false) else
  let '(steps1, steps2) := GridTest.angles_to_motor_values theta1 theta2 in
  let '(calls, success) := send_motor_commands steps1 velocity steps2 velocity in
  if success then
    let '(actual_x, actual_y) := GridTest.forward_kinematics theta1 theta2 in
    let error_x := Rabs (actual_x - x) in
    let error_y := Rabs (actual_y - y) in
    let total_error := sqrt (error_x ^ 2 + error_y ^ 2) in
    if Rle_dec total_error 5 then (calls, true)
    else if Rle_dec total_error 10 then (calls, true)
    else (calls, false)
  else (calls, false).

End Controller.

End GridRun.

(** ** [src/scara_precision_tester.py] *)

Module PrecisionTester.

Local Open Scope R_scope.

Definition L1 : R := 160.
Definition L2 : R := 1495 / 10.
Definition max_reach : R := L1 + L2.
Definition min_reach : R := Rabs (L1 - L2).
Definition steps_per_rev : R := 200 * 32.
Definition step_to_angle : R := 360 / steps_per_rev.

(** Returns [(theta1_deg, theta2_deg, is_reachable)]. *)
Definition inverse_kinematics (x y : R) : R * R * bool :=
  let distance := sqrt (x ^ 2 + y ^ 2) in
  if Py.gtb distance max_reach || Py.ltb distance min_reach
  then (0, 0, false) else
  let cos_theta2 := (x ^ 2 + y ^ 2 - L1 ^ 2 - L2 ^ 2) / (2 * L1 * L2) in
  if Rgt_dec (Rabs cos_theta2) 1 then (0, 0, false) else
  let sin_theta2 := sqrt (1 - cos_theta2 ^ 2) in
  let theta2 := Py.atan2 sin_theta2 cos_theta2 in
  let k1 := L1 + L2 * cos_theta2 in
  let k2 := L2 * sin_theta2 in
  let theta1 := Py.atan2 y x - Py.atan2 k2 k1 in
  (Py.degrees theta1, Py.degrees theta2, true).

(** Returns [[[j11, j12], [j21, j22]]]. *)
Definition calculate_jacobian (theta1_deg theta2_deg : R)
  : (R * R) * (R * R) :=
  let theta1 := Py.radians theta1_deg in
  let theta2 := Py.radians theta2_deg in
  let j11 := - L1 * sin theta1 - L2 * sin (theta1 + theta2) in
  let j12 := - L2 * sin (theta1 + theta2) in
  let j21 := L1 * cos theta1 + L2 * cos (theta1 + theta2) in
  let j22 := L2 * cos (theta1 + theta2) in
  ((j11, j12), (j21, j22)).

(** Returns [(is_singular, det)]. *)
Definition check_singularity (theta1_deg theta2_deg : R) : bool * R :=
  let jacobian := calculate_jacobian theta1_deg theta2_deg in
  let det := fst (fst jacobian) * snd (snd jacobian)
             - snd (fst jacobian) * fst (snd jacobian) in
  let singularity_threshold := 1 / 1000 in
  let is_singular := Py.ltb (Rabs det) singularity_threshold in
  (is_singular, det).

Definition angles_to_steps (theta1_deg theta2_deg : R) : Z * Z :=
  let steps1 := Py.round_half_even (theta1_deg / step_to_angle) in
  let steps2 := Py.round_half_even (theta2_deg / step_to_angle) in
  (steps1, steps2).

End PrecisionTester.

(** ** [src/generate_grid_csv.py] *)

Module GridCsv.

Local Open Scope R_scope.

Definition L1 : R := 160.
Definition L2 : R := 1495 / 10.
Definition STEPS_PER_REV : R := 6400.
Definition STEP_TO_ANGLE : R := 360 / STEPS_PER_REV.
Definition DT : R := 2 / 100.

Definition inverse_kinematics (x y : R) : R * R :=
  let cos_theta2 := (x ^ 2 + y ^ 2 - L1 ^ 2 - L2 ^ 2) / (2 * L1 * L2) in
  if Rgt_dec (Rabs cos_theta2) 1 then (0, 0) else
  let theta2 := Py.atan2 (sqrt (1 - cos_theta2 ^ 2)) cos_theta2 in
  let k1 := L1 + L2 * cos theta2 in
  let k2 := L2 * sin theta2 in
  let theta1 := Py.atan2 y x - Py.atan2 k2 k1 in
  (Py.degrees theta1, Py.degrees theta2).

(** The grid points of [generate_trajectory], in the order of its two
    loops. *)
Definition points : list (R * R) :=
  map (fun ij : nat * nat =>
         (200 + (INR (snd ij) - 1) * 60, 0 + (INR (fst ij) - 1) * 60))
      (list_prod (seq 0 3) (seq 0 3)).

Definition forward_kinematics (steps1 steps2 : Z) : R * R :=
  let theta1 := Py.radians (IZR steps1 * STEP_TO_ANGLE) in
  let theta2 := Py.radians (IZR steps2 * STEP_TO_ANGLE) in
  let x := L1 * cos theta1 + L2 * cos (theta1 + theta2) in
  let y := L1 * sin theta1 + L2 * sin (theta1 + theta2) in
  (x, y).

(** A row of [csv_data]. *)
Record row : Type := mkRow {
  Time : R; J1_Pos : Z; J1_Hz : R; J2_Pos : Z; J2_Hz : R
}.

(** The variables shared by [generate_trajectory] and [add_move]:
    [(current_x, current_y)], [csv_data] and [time_counter]. *)
Record state : Type := mkState {
  current : R * R; csv_data : list row; time_counter : R
}.

(** The body of [for s in range(steps)] in [add_move]. *)
Definition move_row (start target : R * R) (steps : Z) (st : state) (s : nat)
  : state :=
  let t := INR s / IZR steps in
  let x := fst start + (fst target - fst start) * t in
  let y := snd start + (snd target - snd start) * t in
  let '(theta1, theta2) := inverse_kinematics x y in
  let j1_steps := Py.int (theta1 / STEP_TO_ANGLE) in
  let j2_steps := Py.int (theta2 / STEP_TO_ANGLE) in
  let '(j1_hz, j2_hz) :=
    match csv_data st with
    | [] => (0, 0)
    | r0 :: _ =>
        let prev := last (csv_data st) r0 in
        (IZR (Z.abs (j1_steps - J1_Pos prev)) / DT,
         IZR (Z.abs (j2_steps - J2_Pos prev)) / DT)
    end in
  mkState (current st)
    (csv_data st ++ [mkRow (Py.round (time_counter st) 3)
                       j1_steps (Py.round j1_hz 1)
                       j2_steps (Py.round j2_hz 1)])
    (time_counter st + DT).

Definition add_move (target : R * R) (duration : R) (st : state) : state :=
  let steps := Py.int (duration / DT) in
  let start := current st in
  let st' := fold_left (move_row start target steps)
               (seq 0 (Z.to_nat steps)) st in
  mkState target (csv_data st') (time_counter st').

(** The body of the pause loop [for _ in range(10)]; [csv_data[-1]] raises
    on an empty table, which is [None] here. *)
Definition pause_row (st : option state) (_ : nat) : option state :=
  match st with
  | None => None
  | Some st =>
      match csv_data st with
      | [] => None
      | r0 :: _ =>
          let prev := last (csv_data st) r0 in
          Some (mkState (current st)
                  (csv_data st ++ [mkRow (Py.round (time_counter st) 3)
                                     (J1_Pos prev) 0 (J2_Pos prev) 0])
                  (time_counter st + DT))
      end
  end.

(** The body of [for p in points]. *)
Definition visit (st : option state) (p : R * R) : option state :=
  match st with
  | None => None
  | Some st => fold_left pause_row (seq 0 10) (Some (add_move p 1 st))
  end.

(** The table written by [generate_trajectory]. *)
Definition generate_trajectory : option (list row) :=
  let st := mkState (forward_kinematics 0 0) [] 0 in
  match fold_left visit points (Some st) with
  | None => None
  | Some st => Some (csv_data st)
  end.

End GridCsv.

(** ** [src/analyze_csv_trajectory.py] *)

Module AnalyzeCsv.

Local Open Scope R_scope.

Definition L1 : R := 160.
Definition L2 : R := 1495 / 10.
Definition STEPS_PER_REV : R := 200 * 32.
Definition STEP_TO_ANGLE : R := 360 / STEPS_PER_REV.

Definition forward_kinematics (steps1 steps2 : Z) : R * R :=
  let theta1 := Py.radians (IZR steps1 * STEP_TO_ANGLE) in
  let theta2 := Py.radians (IZR steps2 * STEP_TO_ANGLE) in
  let x := L1 * cos theta1 + L2 * cos (theta1 + theta2) in
  let y := L1 * sin theta1 + L2 * sin (theta1 + theta2) in
  (x, y).

(** [for i, row in enumerate(reader): if i % 50 == 0: ...], from row [i]
    on: the rows are given by their [(J1_Pos, J2_Pos)]. *)
Fixpoint analyse (i : nat) (rows : list (Z * Z)) : list (R * R) :=
  match rows with
  | [] => []
  | (j1, j2) :: rest =>
      if (Nat.modulo i 50 =? 0)%nat
      then forward_kinematics j1 j2 :: analyse (S i) rest
      else analyse (S i) rest
  end.

Definition points (rows : list (Z * Z)) : list (R * R) := analyse 0 rows.

End AnalyzeCsv.

(** ** [src/test_connrct_PLC.py]: its [ScaraRobot] *)

Module TestSuite.

Local Open Scope R_scope.

(** [inverse_kinematics] of this file's [ScaraRobot]; [None] stands for
    the result [(None, None)]. *)
Definition inverse_kinematics (self : IK3.ScaraRobot) (x y : R)
  : option (R * R) :=
  let denom := 2 * IK3.l1 self * IK3.l2 self in
  if Req_dec_T denom 0 then None else
  let numerator := x ^ 2 + y ^ 2 - IK3.l1 self ^ 2 - IK3.l2 self ^ 2 in
  let c2 := numerator / denom in
  let c2 := if Rgt_dec c2 1 then 1 else c2 in
  let c2 := if Rlt_dec c2 (-1) then -1 else c2 in
  let s2 := sqrt (1 - c2 ^ 2) in
  let theta2 := Py.atan2 s2 c2 in
  let den_k := x ^ 2 + y ^ 2 in
  if Req_dec_T den_k 0 then None else
  let term := IK3.l1 self + IK3.l2 self * c2 in
  let s1 := (- x * IK3.l2 self * s2 + y * term) / den_k in
  let c1 := (y * IK3.l2 self * s2 + x * term) / den_k in
  let theta1 := Py.atan2 s1 c1 in
  Some (theta1, theta2).

End TestSuite.

(** ** [src/PLC_trajectory_trysend.py] *)

Module TrySend.

(** A point of [trajectory]: a list of three register values. *)
Definition point : Type := (Z * Z * Z)%type.

(** The [write_register(address, value)] calls of
    [for i, point in enumerate(trajectory)], from point [i] on. *)
Fixpoint send_points (i : nat) (trajectory : list point) : list (Z * Z) :=
  match trajectory with
  | [] => []
  | (p0, p1, p2) :: rest =>
      let base := (200 + Z.of_nat i * 10)%Z in
      (base, p0) :: ((base + 1)%Z, p1) :: ((base + 2)%Z, p2)
      :: send_points (S i) rest
  end.

(** All register writes of the script: the points, then the count. *)
Definition register_writes (trajectory : list point) : list (Z * Z) :=
  send_points 0 trajectory ++ [(10%Z, Z.of_nat (List.length trajectory))].

End TrySend.

(** ** Vocabulary of the statements *)

(** Two points agree to within [1e-6] mm. *)
Definition within_1e_6 (p q : R * R) : Prop :=
  (Py.dist p q <= 1 / 1000000)%R.

(** The raw cosine of the elbow angle in
    [SCARARobotController.inverse_kinematics]. *)
Definition grid_cos_theta2 (x y : R) : R :=
  ((x ^ 2 + y ^ 2 - GridTest.L1 ^ 2 - GridTest.L2 ^ 2)
   / (2 * GridTest.L1 * GridTest.L2))%R.

(** The polynomial of [get_quintic_scalar]. *)
Definition quintic_poly (tau : R) : R :=
  (10 * tau ^ 3 - 15 * tau ^ 4 + 6 * tau ^ 5)%R.

(** The position of a trajectory sample. *)
Definition position (s : IK3.sample) : R * R := fst s.

(** The point at fraction [s] of the segment from [start_p] to [end_p],
    as both profilers compute it. *)
Definition lerp (start_p end_p : R * R) (s : R) : R * R :=
  (fst start_p + (fst end_p - fst start_p) * s,
   snd start_p + (snd end_p - snd start_p) * s)%R.

(** The arm of the end-to-end scenarios: [l1 = 160], [l2 = 149.5], whose
    home is [(0, 309.5)]. *)
Definition scenario_robot : IK3.ScaraRobot :=
  IK3.mkScaraRobot 160 (1495 / 10)%R.

(** The waypoint list of scenario A: [[(0, 309.5, Up)]]. *)
Definition scenario_A : list IK3.target :=
  [IK3.mkTarget 0 (3095 / 10)%R 0].

(** The step positions of a command row. *)
Definition steps (c : IK3.command) : Z * Z := (IK3.J1_Pos c, IK3.J2_Pos c).

(** The step positions the loop holds when it reaches row [i]: those of
    row [i - 1], or [start] for the first row. *)
Definition previous_steps (start : Z * Z) (cmds : list IK3.command) (i : nat)
  : Z * Z :=
  match i with
  | O => start
  | S j => nth j (map steps cmds) (0%Z, 0%Z)
  end.

(** The shape of what a sending loop does from row [i] on: calls that
    return and progress messages for row [i], a move to row [i + 1], the
    end of the table, or a call of row [i] that raises, followed by the
    error report and the end of the loop. *)
Inductive loop_trace : nat -> list Sender.event -> Prop :=
| loop_done (i : nat) : loop_trace i []
| loop_call (i : nat) (c : Sender.call) (t : list Sender.event) :
    loop_trace i t -> loop_trace i (Sender.Call (Some i) c true :: t)
| loop_started (i : nat) (t : list Sender.event) :
    loop_trace i t ->
    loop_trace i (Sender.Print (Sender.M3_trigger_started_at_row i) :: t)
| loop_next (i : nat) (t : list Sender.event) :
    loop_trace (S i) t -> loop_trace i t
| loop_abort (i : nat) (c : Sender.call) :
    loop_trace i [Sender.Call (Some i) c false;
                  Sender.Print (Sender.Error_at_row i);
                  Sender.Print Sender.Stopping_execution].

Definition is_write (c : Sender.call) : bool :=
  match c with
  | Sender.write_sign_Dword _ _ | Sender.write_bit _ _ => true
  | Sender.read_bit _ => false
  end.

(** A hardware write of row [k] raised during the run. *)
Definition write_failed_at (t : list Sender.event) (k : nat) : Prop :=
  exists c : Sender.call,
    is_write c = true /\ In (Sender.Call (Some k) c false) t.

(** What is observed of an aborted run: no write for a row beyond [k],
    one safe-state write, and row [k] as the only reported failure. *)
Definition aborted_run (t : list Sender.event) (k : nat) : Prop :=
  Forall (fun j : nat => (j <= k)%nat) (Sender.written_rows t) /\
  Sender.safe_state_writes t = 1%nat /\
  Sender.reported_failures t = [k].

(** A table of a thousand rows, and a controller whose
    [write_sign_Dword] raises at row 50. *)
Definition thousand_rows : list Sender.row :=
  repeat (Sender.mkRow 0 100 (500 # 1) (-100) (250 # 1) 1) 1000.
Definition raises_at_50 (i : nat) : bool := Nat.eqb i 50.
Definition never_raises (i : nat) : bool := false.

(** The state of [generate_trajectory] is on the tick grid: the clock
    stands at the number of rows times [DT], and row [i] carries the time
    [i * DT]. *)
Definition on_tick_grid (st : GridCsv.state) : Prop :=
  GridCsv.time_counter st
  = (INR (List.length (GridCsv.csv_data st)) * GridCsv.DT)%R /\
  forall (i : nat) (r : GridCsv.row),
    nth_error (GridCsv.csv_data st) i = Some r ->
    GridCsv.Time r = (INR i * GridCsv.DT)%R.

(** The two calls [trajectory_sender_grid_3.py] makes for row [i], both
    returning. *)
Definition row_calls (i : nat) (r : Sender.row) : list Sender.event :=
  [Sender.Call (Some i)
     (Sender.write_sign_Dword "D100"
        [Sender.J1_Pos r; Sender.int (Sender.J1_Hz r);
         Sender.J2_Pos r; Sender.int (Sender.J2_Hz r)]) true;
   Sender.Call (Some i)
     (Sender.write_bit "M4" [Sender.int (Sender.Pen r)]) true].

(** The calls for the rows [rows], numbered from [i], all returning. *)
Fixpoint sent_rows (i : nat) (rows : list Sender.row) : list Sender.event :=
  match rows with
  | [] => []
  | r :: rest => row_calls i r ++ sent_rows (S i) rest
  end.

(** The message announcing that the trigger was started. *)
Definition is_trigger_started (e : Sender.event) : bool :=
  match e with
  | Sender.Print (Sender.M3_trigger_started_at_row _) => true
  | _ => false
  end.

(** The [n]-th read of [M3] returned and found the bit on. *)
Definition m3_seen_on (m3_reads : nat -> option (list Z)) (n : nat) : bool :=
  match m3_reads n with
  | Some status => WaitEnable.m3_is_on status
  | None => false
  end.

(** A controller whose [M3] is read off twice, then raises once, then is
    read on. *)
Definition m3_on_at_third (n : nat) : option (list Z) :=
  match n with
  | 0%nat | 1%nat => Some [0%Z]
  | 2%nat => None
  | _ => Some [1%Z]
  end.

(** The angle [theta], of less than one turn, lies between [k] and
    [k + 1] motor steps of the grid-test controller, at least one
    millionth of a step away from both. *)
Definition strictly_within_step (k : Z) (theta : R) : Prop :=
  (0 <= k < 6400)%Z /\
  ((IZR k + 1 / 1000000) * GridTest.step_to_angle <= theta
   <= (IZR k + 1 - 1 / 1000000) * GridTest.step_to_angle)%R.

(** * Properties *)

Local Open Scope R_scope.

(** ** Facts on the numeric primitives *)

Lemma int_IZR (z : Z) : Py.int (IZR z) = z.
Proof.
  unfold Py.int.
  destruct (Rle_dec 0 (IZR z)) as [_ | _].
  - symmetry. apply Int_part_spec. lra.
  - rewrite <- opp_IZR.
    replace (Int_part (IZR (- z))) with (- z)%Z; [lia |].
    apply Int_part_spec. lra.
Qed.

Lemma int_eq (r : R) (z : Z) : r = IZR z -> Py.int r = z.
Proof. intros ->. apply int_IZR. Qed.

Lemma round_half_even_IZR (z : Z) : Py.round_half_even (IZR z) = z.
Proof.
  unfold Py.round_half_even.
  replace (Int_part (IZR z)) with z by (apply Int_part_spec; lra).
  destruct (Rlt_dec (IZR z - IZR z) (1 / 2)) as [_ | H]; [reflexivity | lra].
Qed.

Lemma sqrt_sq_sum (x y : R) : sqrt (x ^ 2 + y ^ 2) * sqrt (x ^ 2 + y ^ 2) = x ^ 2 + y ^ 2.
Proof. apply sqrt_sqrt. nra. Qed.

Lemma sqrt_sq_sum_pos (x y : R) : x ^ 2 + y ^ 2 <> 0 -> 0 < sqrt (x ^ 2 + y ^ 2).
Proof. intros H. apply sqrt_lt_R0. nra. Qed.

(** [sqrt (1 + (y/x)^2)] in terms of the norm of [(x, y)]. *)
Lemma sqrt_one_plus_ratio (x y : R) :
  x <> 0 ->
  sqrt (1 + Rsqr (y / x)) = sqrt (x ^ 2 + y ^ 2) / Rabs x.
Proof.
  intros Hx.
  assert (Hax : 0 < Rabs x) by (apply Rabs_pos_lt; exact Hx).
  assert (Hr : 0 <= sqrt (x ^ 2 + y ^ 2)) by apply sqrt_pos.
  apply sqrt_lem_1.
  - unfold Rsqr. nra.
  - apply Rmult_le_pos; [exact Hr | left; apply Rinv_0_lt_compat; exact Hax].
  - unfold Rsqr.
    assert (Hsq : Rabs x * Rabs x = x * x).
    { unfold Rabs. destruct (Rcase_abs x); lra. }
    pose proof (sqrt_sq_sum x y) as Hs.
    set (r := sqrt (x ^ 2 + y ^ 2)) in *.
    set (a := Rabs x) in *.
    transitivity ((r * r) / (a * a)); [field; lra |].
    rewrite Hs, Hsq. field. exact Hx.
Qed.

(** [math.atan2(y, x)] is the polar angle of [(x, y)]. *)
Lemma atan2_polar (x y : R) :
  x ^ 2 + y ^ 2 <> 0 ->
  cos (Py.atan2 y x) = x / sqrt (x ^ 2 + y ^ 2) /\
  sin (Py.atan2 y x) = y / sqrt (x ^ 2 + y ^ 2).
Proof.
  intros Hd.
  pose proof (sqrt_sq_sum_pos x y Hd) as Hr.
  unfold Py.atan2.
  destruct (Rlt_dec 0 x) as [Hx | Hx].
  - rewrite cos_atan, sin_atan, sqrt_one_plus_ratio by lra.
    rewrite Rabs_pos_eq by lra.
    split; field; split; lra.
  - destruct (Rlt_dec x 0) as [Hx' | Hx'].
    + assert (Hax : Rabs x = - x) by (apply Rabs_left; exact Hx').
      destruct (Rle_dec 0 y) as [Hy | Hy].
      * rewrite neg_cos, neg_sin, cos_atan, sin_atan, sqrt_one_plus_ratio by lra.
        rewrite Hax. split; field; split; lra.
      * unfold Rminus. rewrite cos_plus, sin_plus, cos_neg, sin_neg, cos_PI, sin_PI.
        rewrite cos_atan, sin_atan, sqrt_one_plus_ratio by lra.
        rewrite Hax. split; field; split; lra.
    + assert (x = 0) by lra. subst x.
      assert (Hy2 : sqrt (0 ^ 2 + y ^ 2) = Rabs y).
      { replace (0 ^ 2 + y ^ 2) with (Rsqr y) by (unfold Rsqr; ring). apply sqrt_Rsqr_abs. }
      rewrite Hy2 in *.
      destruct (Rlt_dec 0 y) as [Hy | Hy].
      * rewrite cos_PI2, sin_PI2, Rabs_pos_eq by lra. split; field; lra.
      * destruct (Rlt_dec y 0) as [Hy' | Hy'].
        -- rewrite cos_neg, sin_neg, cos_PI2, sin_PI2, Rabs_left by lra.
           split; field; lra.
        -- exfalso. apply Hd. assert (y = 0) by lra. subst y. ring.
Qed.

(** On the unit circle [atan2] recovers the angle of the given cosine and
    sine. *)
Lemma atan2_unit (c s : R) :
  c ^ 2 + s ^ 2 = 1 -> cos (Py.atan2 s c) = c /\ sin (Py.atan2 s c) = s.
Proof.
  intros H.
  destruct (atan2_polar c s) as [Hc Hs]; [lra |].
  rewrite H, sqrt_1 in Hc, Hs. split; lra.
Qed.

(** ** Kinematics of [IK3.py] *)

Lemma clamp_id (c : R) : -1 <= c <= 1 -> IK3.clamp c = c.
Proof.
  intros [H1 H2]. unfold IK3.clamp.
  destruct (Rgt_dec c 1) as [H | _]; [lra |].
  destruct (Rlt_dec c (-1)) as [H | _]; [lra | reflexivity].
Qed.

Lemma clamp_range (c : R) : -1 <= IK3.clamp c <= 1.
Proof.
  unfold IK3.clamp.
  destruct (Rgt_dec c 1) as [H | H].
  - destruct (Rlt_dec 1 (-1)); lra.
  - destruct (Rlt_dec c (-1)); lra.
Qed.

(** Inside the workspace the raw cosine of the elbow angle is a cosine. *)
Lemma raw_c2_range (rb : IK3.ScaraRobot) (x y : R) :
  0 < IK3.l1 rb -> 0 < IK3.l2 rb ->
  IK3.min_reach rb <= sqrt (x ^ 2 + y ^ 2) <= IK3.max_reach rb ->
  -1 <= IK3.raw_c2 rb x y <= 1.
Proof.
  unfold IK3.min_reach, IK3.max_reach, IK3.raw_c2.
  destruct rb as [a b]; cbn [IK3.l1 IK3.l2]. intros Ha Hb [Hlo Hhi].
  pose proof (sqrt_sq_sum x y) as Hs.
  pose proof (sqrt_pos (x ^ 2 + y ^ 2)) as Hr.
  set (r := sqrt (x ^ 2 + y ^ 2)) in *.
  assert (Hden : 0 < 2 * a * b) by nra.
  assert (Hup : x ^ 2 + y ^ 2 <= (a + b) * (a + b)).
  { rewrite <- Hs.
    assert (0 <= ((a + b) - r) * ((a + b) + r)); [| nra].
    apply Rmult_le_pos; lra. }
  assert (Hdn : (a - b) * (a - b) <= x ^ 2 + y ^ 2).
  { rewrite <- Hs.
    assert (0 <= (r + (a - b)) * (r - (a - b))); [| nra].
    unfold Rabs in Hlo.
    destruct (Rcase_abs (a - b)); apply Rmult_le_pos; lra. }
  assert (E : (x ^ 2 + y ^ 2 - a ^ 2 - b ^ 2) / (2 * a * b) * (2 * a * b)
              = x ^ 2 + y ^ 2 - a ^ 2 - b ^ 2) by (field; lra).
  split; apply Rmult_le_reg_r with (2 * a * b); try exact Hden; rewrite E; nra.
Qed.

(** Forward after inverse kinematics, away from the origin. *)
Lemma ik3_roundtrip (rb : IK3.ScaraRobot) (x y : R) :
  0 < IK3.l1 rb -> 0 < IK3.l2 rb ->
  x ^ 2 + y ^ 2 <> 0 ->
  IK3.min_reach rb <= sqrt (x ^ 2 + y ^ 2) <= IK3.max_reach rb ->
  IK3.end_effector rb (IK3.inverse_kinematics rb x y) = (x, y).
Proof.
  intros Ha Hb Hd Hband.
  pose proof (raw_c2_range rb x y Ha Hb Hband) as Hc.
  unfold IK3.raw_c2 in Hc.
  unfold IK3.inverse_kinematics, IK3.end_effector, IK3.forward_kinematics.
  destruct rb as [a b]; cbn [IK3.l1 IK3.l2] in *.
  destruct (Req_dec_T (2 * a * b) 0) as [E | _]; [nra |].
  destruct (Req_dec_T (x ^ 2 + y ^ 2) 0) as [E | _]; [contradiction |].
  rewrite clamp_id by exact Hc.
  set (d := x ^ 2 + y ^ 2) in *.
  set (c2 := (d - a ^ 2 - b ^ 2) / (2 * a * b)) in *.
  assert (Hc2 : 2 * a * b * c2 = d - a ^ 2 - b ^ 2) by (unfold c2; field; lra).
  assert (Hs2 : sqrt (1 - c2 ^ 2) * sqrt (1 - c2 ^ 2) = 1 - c2 ^ 2)
    by (apply sqrt_sqrt; nra).
  set (s2 := sqrt (1 - c2 ^ 2)) in *.
  set (term := a + b * c2).
  assert (K : term * term + b * b * (s2 * s2) = d) by (unfold term; rewrite Hs2; nra).
  destruct (atan2_unit c2 s2) as [Hcos2 Hsin2]; [nra |].
  set (s1 := (- x * b * s2 + y * term) / d).
  set (c1 := (y * b * s2 + x * term) / d).
  assert (Hunit : c1 ^ 2 + s1 ^ 2 = 1).
  { transitivity ((term * term + b * b * (s2 * s2)) * (x ^ 2 + y ^ 2) / (d * d)).
    - unfold c1, s1. field. exact Hd.
    - rewrite K. unfold d. field. exact Hd. }
  destruct (atan2_unit c1 s1 Hunit) as [Hcos1 Hsin1].
  cbn [fst snd]. rewrite cos_plus, sin_plus, Hcos1, Hsin1, Hcos2, Hsin2.
  f_equal.
  - transitivity (x * (term * term + b * b * (s2 * s2)) / d).
    + unfold c1, s1, term. field. exact Hd.
    + rewrite K. field. exact Hd.
  - transitivity (y * (term * term + b * b * (s2 * s2)) / d).
    + unfold c1, s1, term. field. exact Hd.
    + rewrite K. field. exact Hd.
Qed.

(** ** Kinematics of [scara_grid_test.py] *)

Lemma radians_degrees (a : R) : Py.radians (Py.degrees a) = a.
Proof. unfold Py.radians, Py.degrees. field. apply PI_neq0. Qed.

(** The elbow-up formulas of [SCARARobotController.inverse_kinematics],
    for any two link lengths. *)
Lemma elbow_up_roundtrip (a b x y : R) :
  0 < a -> 0 < b -> x ^ 2 + y ^ 2 <> 0 ->
  let c := (x ^ 2 + y ^ 2 - a ^ 2 - b ^ 2) / (2 * a * b) in
  -1 <= c <= 1 ->
  let theta2 := Py.atan2 (sqrt (1 - c ^ 2)) c in
  let k1 := a + b * cos theta2 in
  let k2 := b * sin theta2 in
  let theta1 := Py.atan2 y x - Py.atan2 k2 k1 in
  a * cos theta1 + b * cos (theta1 + theta2) = x /\
  a * sin theta1 + b * sin (theta1 + theta2) = y.
Proof.
  intros Ha Hb Hd c Hc theta2 k1 k2 theta1.
  set (d := x ^ 2 + y ^ 2) in *.
  assert (Hc2 : 2 * a * b * c = d - a ^ 2 - b ^ 2) by (unfold c; field; lra).
  assert (Hs2 : sqrt (1 - c ^ 2) * sqrt (1 - c ^ 2) = 1 - c ^ 2)
    by (apply sqrt_sqrt; nra).
  destruct (atan2_unit c (sqrt (1 - c ^ 2))) as [Hcos2 Hsin2]; [nra |].
  fold theta2 in Hcos2, Hsin2.
  assert (K : k1 ^ 2 + k2 ^ 2 = d).
  { unfold k1, k2. rewrite Hcos2, Hsin2. nra. }
  pose proof (sqrt_sq_sum x y) as Hr.
  pose proof (sqrt_sq_sum_pos x y Hd) as Hrpos.
  destruct (atan2_polar x y Hd) as [Hcphi Hsphi].
  destruct (atan2_polar k1 k2) as [Hcpsi Hspsi]; [rewrite K; exact Hd |].
  rewrite K in Hcpsi, Hspsi.
  fold d in Hr, Hrpos, Hcphi, Hsphi.
  set (r := sqrt d) in *.
  assert (Hc1 : cos theta1 = (x * k1 + y * k2) / d).
  { unfold theta1. rewrite cos_minus, Hcphi, Hsphi, Hcpsi, Hspsi.
    rewrite <- Hr. field. lra. }
  assert (Hs1 : sin theta1 = (y * k1 - x * k2) / d).
  { unfold theta1. rewrite sin_minus, Hcphi, Hsphi, Hcpsi, Hspsi.
    rewrite <- Hr. field. lra. }
  rewrite cos_plus, sin_plus, Hc1, Hs1.
  split.
  - transitivity (x * (k1 ^ 2 + k2 ^ 2) / d); [unfold k1, k2; field; exact Hd |].
    rewrite K. field. exact Hd.
  - transitivity (y * (k1 ^ 2 + k2 ^ 2) / d); [unfold k1, k2; field; exact Hd |].
    rewrite K. field. exact Hd.
Qed.

Lemma grid_in_reach_nonzero (x y : R) :
  GridTest.min_reach <= sqrt (x ^ 2 + y ^ 2) -> x ^ 2 + y ^ 2 <> 0.
Proof.
  unfold GridTest.min_reach, GridTest.L1, GridTest.L2. intros H E.
  rewrite E, sqrt_0 in H.
  rewrite Rabs_pos_eq in H; lra.
Qed.

Lemma grid_roundtrip (x y : R) :
  GridTest.min_reach <= sqrt (x ^ 2 + y ^ 2) <= GridTest.max_reach ->
  snd (GridTest.inverse_kinematics x y) = true /\
  GridTest.forward_kinematics
    (fst (fst (GridTest.inverse_kinematics x y)))
    (snd (fst (GridTest.inverse_kinematics x y))) = (x, y).
Proof.
  intros Hband.
  pose proof (grid_in_reach_nonzero x y (proj1 Hband)) as Hd.
  assert (Hc : -1 <= (x ^ 2 + y ^ 2 - GridTest.L1 ^ 2 - GridTest.L2 ^ 2)
                     / (2 * GridTest.L1 * GridTest.L2) <= 1).
  { apply (raw_c2_range (IK3.mkScaraRobot GridTest.L1 GridTest.L2) x y);
      cbn [IK3.l1 IK3.l2]; try (unfold GridTest.L1, GridTest.L2; lra).
    exact Hband. }
  unfold GridTest.inverse_kinematics, Py.gtb, Py.ltb.
  destruct (Rgt_dec (sqrt (x ^ 2 + y ^ 2)) GridTest.max_reach) as [H | _]; [lra |].
  destruct (Rlt_dec (sqrt (x ^ 2 + y ^ 2)) GridTest.min_reach) as [H | _]; [lra |].
  cbn [orb].
  destruct (Rgt_dec (Rabs ((x ^ 2 + y ^ 2 - GridTest.L1 ^ 2 - GridTest.L2 ^ 2)
                           / (2 * GridTest.L1 * GridTest.L2))) 1) as [H | _].
  { exfalso. apply Rabs_le in Hc. lra. }
  cbn [fst snd]. split; [reflexivity |].
  unfold GridTest.forward_kinematics. rewrite !radians_degrees.
  destruct (elbow_up_roundtrip GridTest.L1 GridTest.L2 x y) as [Hx Hy];
    try (unfold GridTest.L1, GridTest.L2; lra); try assumption.
  cbv zeta in Hx, Hy. rewrite Hx, Hy. reflexivity.
Qed.

Lemma within_refl (p : R * R) : within_1e_6 p p.
Proof.
  unfold within_1e_6, Py.dist.
  replace ((fst p - fst p) ^ 2 + (snd p - snd p) ^ 2) with 0 by ring.
  rewrite sqrt_0. lra.
Qed.

Lemma pair_neq_origin (x y : R) : (x, y) <> (0, 0) -> x ^ 2 + y ^ 2 <> 0.
Proof.
  intros H E. apply H.
  assert (x = 0) by nra. assert (y = 0) by nra. subst. reflexivity.
Qed.

Lemma sqrt_sq_of_pos (a : R) : 0 <= a -> sqrt (a ^ 2 + 0 ^ 2) = a.
Proof.
  intros H. replace (a ^ 2 + 0 ^ 2) with (a ^ 2) by ring. apply sqrt_pow2, H.
Qed.

(** The pose [IK3.py] computes for the point [(400, 0)], which lies beyond
    the reach [315] of the script's robot. *)
Lemma ik3_at_400_0 : IK3.inverse_kinematics IK3.robot 400 0 = (0, 0).
Proof.
  unfold IK3.inverse_kinematics, IK3.robot, IK3.L1, IK3.L2. cbn [IK3.l1 IK3.l2].
  destruct (Req_dec_T (2 * 155 * 160) 0) as [E | _]; [lra |].
  destruct (Req_dec_T (400 ^ 2 + 0 ^ 2) 0) as [E | _]; [lra |].
  assert (Hc : IK3.clamp ((400 ^ 2 + 0 ^ 2 - 155 ^ 2 - 160 ^ 2) / (2 * 155 * 160)) = 1).
  { unfold IK3.clamp.
    destruct (Rgt_dec ((400 ^ 2 + 0 ^ 2 - 155 ^ 2 - 160 ^ 2) / (2 * 155 * 160)) 1)
      as [_ | H]; [| lra].
    destruct (Rlt_dec 1 (-1)); [lra | reflexivity]. }
  rewrite Hc.
  replace (1 - 1 ^ 2) with 0 by ring. rewrite sqrt_0.
  assert (Ha : forall c, 0 < c -> Py.atan2 0 c = 0).
  { intros c Hpos. unfold Py.atan2.
    destruct (Rlt_dec 0 c) as [_ | H]; [| lra].
    replace (0 / c) with 0 by (field; lra). apply atan_0. }
  rewrite (Ha 1) by lra.
  replace ((- (400) * 160 * 0 + 0 * (155 + 160 * 1)) / (400 ^ 2 + 0 ^ 2)) with 0
    by (field; lra).
  rewrite Ha by lra. reflexivity.
Qed.

(** ** Claims on the kinematics *)

(** C1.  For the arms the repository builds, the robot
    [ScaraRobot(155, 160)] of [IK3.py] and the grid-test controller with
    [L1 = 160] and [L2 = 149.5], and for every point [(x, y)] whose
    distance from the origin lies between [min_reach] and [max_reach]
    inclusive: the forward kinematics of the pose that inverse kinematics
    returns is within 1e-6 mm of [(x, y)], and
    [SCARARobotController.inverse_kinematics], the one that carries a
    validity flag, reports the point valid. *)
Theorem ik_fk_roundtrip (x y : R) :
  (IK3.min_reach IK3.robot <= sqrt (x ^ 2 + y ^ 2) <= IK3.max_reach IK3.robot ->
   within_1e_6
     (IK3.end_effector IK3.robot (IK3.inverse_kinematics IK3.robot x y))
     (x, y))
  /\
  (GridTest.min_reach <= sqrt (x ^ 2 + y ^ 2) <= GridTest.max_reach ->
   let '(theta1, theta2, is_valid) := GridTest.inverse_kinematics x y in
   is_valid = true /\
   within_1e_6 (GridTest.forward_kinematics theta1 theta2) (x, y)).
Proof.
  split.
  - intros Hband.
    assert (Hd : x ^ 2 + y ^ 2 <> 0).
    { intros E. rewrite E, sqrt_0 in Hband.
      unfold IK3.min_reach, IK3.robot, IK3.L1, IK3.L2 in Hband.
      cbn [IK3.l1 IK3.l2] in Hband. rewrite Rabs_left in Hband; lra. }
    rewrite ik3_roundtrip; [apply within_refl | | | exact Hd | exact Hband];
      cbn [IK3.robot IK3.l1 IK3.l2]; unfold IK3.L1, IK3.L2; lra.
  - intros Hg. destruct (grid_roundtrip x y Hg) as [Hv Hfk].
    destruct (GridTest.inverse_kinematics x y) as [[theta1 theta2] is_valid].
    cbn [fst snd] in Hv, Hfk.
    split; [exact Hv |].
    rewrite Hfk. apply within_refl.
Qed.

(** The round trip at [(200, 0)], a point of both workspaces. *)
Lemma ik_fk_roundtrip_witness :
  within_1e_6
    (IK3.end_effector IK3.robot (IK3.inverse_kinematics IK3.robot 200 0))
    (200, 0)
  /\ snd (GridTest.inverse_kinematics 200 0) = true.
Proof.
  assert (Hs : sqrt (200 ^ 2 + 0 ^ 2) = 200) by (apply sqrt_sq_of_pos; lra).
  assert (H4 : IK3.min_reach IK3.robot <= sqrt (200 ^ 2 + 0 ^ 2)
               <= IK3.max_reach IK3.robot).
  { rewrite Hs. unfold IK3.min_reach, IK3.max_reach, IK3.robot, IK3.L1, IK3.L2.
    cbn [IK3.l1 IK3.l2]. rewrite Rabs_left; lra. }
  assert (H5 : GridTest.min_reach <= sqrt (200 ^ 2 + 0 ^ 2) <= GridTest.max_reach).
  { rewrite Hs. unfold GridTest.min_reach, GridTest.max_reach, GridTest.L1, GridTest.L2.
    rewrite Rabs_pos_eq; lra. }
  destruct (ik_fk_roundtrip 200 0) as [Hrt Hg].
  split; [exact (Hrt H4) |].
  specialize (Hg H5).
  destruct (GridTest.inverse_kinematics 200 0) as [[theta1 theta2] is_valid].
  exact (proj1 Hg).
Defined.

(** The grid-test controller rejects every point outside its workspace,
    with any margin [eps >= 0]. *)
Lemma grid_rejects_out_of_reach (x y eps : R) :
  0 <= eps ->
  sqrt (x ^ 2 + y ^ 2) > GridTest.max_reach + eps \/
  sqrt (x ^ 2 + y ^ 2) < GridTest.min_reach - eps ->
  GridTest.inverse_kinematics x y = (0, 0, false).
Proof.
  intros He H. unfold GridTest.inverse_kinematics, Py.gtb, Py.ltb.
  destruct (Rgt_dec (sqrt (x ^ 2 + y ^ 2)) GridTest.max_reach) as [_ | H1];
    [reflexivity |].
  destruct (Rlt_dec (sqrt (x ^ 2 + y ^ 2)) GridTest.min_reach) as [_ | H2];
    [reflexivity |].
  exfalso. destruct H; lra.
Qed.

(** C2 (the code at the failing input).  The point [(400, 0)] lies beyond
    the reach [315] of the script's robot by [85] mm, and
    [ScaraRobot.inverse_kinematics] does not reject it: it returns the
    pose [(0, 0)], which is not [None], so the test [t1 is None] of the
    command loop does not see an unreachable point; the grid-test
    controller rejects the same point. *)
Theorem ik3_accepts_out_of_reach :
  sqrt (400 ^ 2 + 0 ^ 2) > IK3.max_reach IK3.robot + 1 /\
  IK3.inverse_kinematics IK3.robot 400 0 = (0, 0) /\
  IK3.robot_ik IK3.robot 400 0 = Some (0, 0) /\
  GridTest.inverse_kinematics 400 0 = (0, 0, false).
Proof.
  assert (Hs : sqrt (400 ^ 2 + 0 ^ 2) = 400) by (apply sqrt_sq_of_pos; lra).
  split.
  { rewrite Hs. unfold IK3.max_reach, IK3.robot, IK3.L1, IK3.L2.
    cbn [IK3.l1 IK3.l2]. lra. }
  split; [exact ik3_at_400_0 |].
  split; [unfold IK3.robot_ik; rewrite ik3_at_400_0; reflexivity |].
  apply (grid_rejects_out_of_reach 400 0 1); [lra |].
  left. rewrite Hs. unfold GridTest.max_reach, GridTest.L1, GridTest.L2. lra.
Qed.

(** The elbow angle returned by [ScaraRobot.inverse_kinematics] has the
    clamped cosine. *)
Lemma ik3_elbow_cosine (rb : IK3.ScaraRobot) (x y : R) :
  IK3.l1 rb <> 0 -> IK3.l2 rb <> 0 -> (x, y) <> (0, 0) ->
  cos (snd (IK3.inverse_kinematics rb x y)) = IK3.clamp (IK3.raw_c2 rb x y).
Proof.
  intros Ha Hb Hxy.
  pose proof (pair_neq_origin x y Hxy) as Hd.
  unfold IK3.inverse_kinematics, IK3.raw_c2.
  destruct (Req_dec_T (2 * IK3.l1 rb * IK3.l2 rb) 0) as [E | _].
  { exfalso. assert (IK3.l1 rb * IK3.l2 rb = 0) by lra.
    destruct (Rmult_integral _ _ H); contradiction. }
  destruct (Req_dec_T (x ^ 2 + y ^ 2) 0) as [E | _]; [contradiction |].
  cbn [snd].
  set (c := IK3.clamp _).
  pose proof (clamp_range ((x ^ 2 + y ^ 2 - IK3.l1 rb ^ 2 - IK3.l2 rb ^ 2)
                           / (2 * IK3.l1 rb * IK3.l2 rb))) as Hc.
  fold c in Hc.
  assert (Hs : sqrt (1 - c ^ 2) * sqrt (1 - c ^ 2) = 1 - c ^ 2)
    by (apply sqrt_sqrt; nra).
  apply (atan2_unit c (sqrt (1 - c ^ 2))). nra.
Qed.

(** [SCARARobotController.inverse_kinematics] has no clamp: an input
    whose raw [cos theta2] has magnitude above 1, by any amount, is
    reported invalid. *)
Lemma grid_rejects_cosine_overshoot (x y : R) :
  Rabs (grid_cos_theta2 x y) > 1 ->
  GridTest.inverse_kinematics x y = (0, 0, false).
Proof.
  intros H. unfold GridTest.inverse_kinematics.
  destruct (Py.gtb (sqrt (x ^ 2 + y ^ 2)) GridTest.max_reach
            || Py.ltb (sqrt (x ^ 2 + y ^ 2)) GridTest.min_reach);
    [reflexivity |].
  fold (grid_cos_theta2 x y).
  destruct (Rgt_dec (Rabs (grid_cos_theta2 x y)) 1) as [_ | N];
    [reflexivity | contradiction].
Qed.

Lemma atan2_0_pos (c : R) : 0 < c -> Py.atan2 0 c = 0.
Proof.
  intros Hpos. unfold Py.atan2.
  destruct (Rlt_dec 0 c) as [_ | H]; [| lra].
  replace (0 / c) with 0 by (field; lra). apply atan_0.
Qed.

Lemma atan2_0_neg (c : R) : c < 0 -> Py.atan2 0 c = PI.
Proof.
  intros Hneg. unfold Py.atan2.
  destruct (Rlt_dec 0 c) as [H | _]; [lra |].
  destruct (Rlt_dec c 0) as [_ | H]; [| lra].
  destruct (Rle_dec 0 0) as [_ | H]; [| lra].
  replace (0 / c) with 0 by (field; lra). rewrite atan_0. ring.
Qed.

(** C4 (the code on an overshoot beyond the tolerance).  For every arm
    with positive link lengths and every point other than the origin
    whose raw [cos theta2] exceeds 1 in magnitude by more than [1e-9],
    [ScaraRobot.inverse_kinematics] does not treat the point as
    unreachable: it clamps the cosine to [1] or [-1] all the same and
    returns the pose of the fully stretched ([theta2 = 0]) or fully folded
    ([theta2 = pi]) arm, so that the command loop receives a pose and not
    [None]. *)
Theorem overshoot_clamped_not_rejected (rb : IK3.ScaraRobot) (x y : R) :
  0 < IK3.l1 rb -> 0 < IK3.l2 rb -> (x, y) <> (0, 0) ->
  1 + 1 / 1000000000 < Rabs (IK3.raw_c2 rb x y) ->
  Rabs (IK3.clamp (IK3.raw_c2 rb x y)) = 1 /\
  cos (snd (IK3.inverse_kinematics rb x y)) = IK3.clamp (IK3.raw_c2 rb x y) /\
  (snd (IK3.inverse_kinematics rb x y) = 0 \/
   snd (IK3.inverse_kinematics rb x y) = PI) /\
  IK3.robot_ik rb x y = Some (IK3.inverse_kinematics rb x y).
Proof.
  intros Ha Hb Hxy Hov.
  pose proof (pair_neq_origin x y Hxy) as Hd.
  assert (Hcl : (1 < IK3.raw_c2 rb x y /\ IK3.clamp (IK3.raw_c2 rb x y) = 1) \/
                (IK3.raw_c2 rb x y < -1 /\ IK3.clamp (IK3.raw_c2 rb x y) = -1)).
  { unfold IK3.clamp. unfold Rabs in Hov.
    destruct (Rcase_abs (IK3.raw_c2 rb x y)) as [Hneg | Hpos].
    - right. split; [lra |].
      destruct (Rgt_dec (IK3.raw_c2 rb x y) 1) as [N | _]; [lra |].
      destruct (Rlt_dec (IK3.raw_c2 rb x y) (-1)) as [_ | N];
        [reflexivity | lra].
    - left. split; [lra |].
      destruct (Rgt_dec (IK3.raw_c2 rb x y) 1) as [_ | N]; [| lra].
      destruct (Rlt_dec 1 (-1)); [lra | reflexivity]. }
  split.
  { destruct Hcl as [[_ E] | [_ E]]; rewrite E.
    - apply Rabs_R1.
    - unfold Rabs. destruct (Rcase_abs (-1)); lra. }
  split; [apply ik3_elbow_cosine; try assumption; lra |].
  split; [| reflexivity].
  unfold IK3.inverse_kinematics.
  destruct (Req_dec_T (2 * IK3.l1 rb * IK3.l2 rb) 0) as [E | _]; [nra |].
  destruct (Req_dec_T (x ^ 2 + y ^ 2) 0) as [E | _]; [contradiction |].
  cbn [snd]. fold (IK3.raw_c2 rb x y).
  destruct Hcl as [[_ E] | [_ E]]; rewrite E.
  - left. replace (1 - 1 ^ 2) with 0 by ring. rewrite sqrt_0.
    apply atan2_0_pos. lra.
  - right. replace (1 - (-1) ^ 2) with 0 by ring. rewrite sqrt_0.
    apply atan2_0_neg. lra.
Qed.

(** The script's robot at [(316, 0)], 1 mm beyond its reach of 315 mm:
    the raw cosine is [50231 / 49600], about [1.0127]. *)
Lemma overshoot_clamped_not_rejected_witness :
  IK3.raw_c2 IK3.robot 316 0 = 50231 / 49600 /\
  Rabs (IK3.clamp (IK3.raw_c2 IK3.robot 316 0)) = 1 /\
  IK3.robot_ik IK3.robot 316 0 = Some (IK3.inverse_kinematics IK3.robot 316 0).
Proof.
  assert (Hraw : IK3.raw_c2 IK3.robot 316 0 = 50231 / 49600).
  { unfold IK3.raw_c2, IK3.robot, IK3.L1, IK3.L2. cbn [IK3.l1 IK3.l2]. field. }
  assert (H1 : 0 < IK3.l1 IK3.robot) by (cbn; unfold IK3.L1; lra).
  assert (H2 : 0 < IK3.l2 IK3.robot) by (cbn; unfold IK3.L2; lra).
  assert (H3 : (316, 0) <> (0, 0)).
  { intros E. injection E as E. lra. }
  assert (H4 : 1 + 1 / 1000000000 < Rabs (IK3.raw_c2 IK3.robot 316 0)).
  { rewrite Hraw, Rabs_pos_eq; lra. }
  destruct (overshoot_clamped_not_rejected IK3.robot 316 0 H1 H2 H3 H4)
    as [Hc [_ [_ Hr]]].
  split; [exact Hraw |]. split; [exact Hc | exact Hr].
Defined.

(** ** The quintic time scaling *)

(** The polynomial is strictly increasing: its increment over [[a, b]] is
    a sum of squares times [b - a]. *)
Lemma quintic_poly_increasing (a b : R) :
  a < b -> quintic_poly a < quintic_poly b.
Proof.
  intros Hab.
  set (h := (b - a) / 2).
  set (m := (a + b) / 2).
  assert (Hh : 0 < h) by (unfold h; lra).
  assert (E : quintic_poly b - quintic_poly a =
              60 * h * ((m * (1 - m) - h ^ 2 / 3) ^ 2 + 4 * h ^ 4 / 45
                        + (1 - 2 * m) ^ 2 * h ^ 2 / 3)).
  { unfold quintic_poly, h, m. field. }
  assert (H1 : 0 <= (m * (1 - m) - h ^ 2 / 3) ^ 2) by apply pow2_ge_0.
  assert (H2 : 0 < h ^ 4) by (apply pow_lt; exact Hh).
  assert (H3 : 0 <= (1 - 2 * m) ^ 2 * h ^ 2)
    by (apply Rmult_le_pos; apply pow2_ge_0).
  assert (0 < 60 * h * ((m * (1 - m) - h ^ 2 / 3) ^ 2 + 4 * h ^ 4 / 45
                        + (1 - 2 * m) ^ 2 * h ^ 2 / 3)).
  { apply Rmult_lt_0_compat; lra. }
  lra.
Qed.

Lemma quintic_poly_0 : quintic_poly 0 = 0.
Proof. unfold quintic_poly. ring. Qed.

Lemma quintic_poly_1 : quintic_poly 1 = 1.
Proof. unfold quintic_poly. ring. Qed.

Lemma quintic_poly_sym (u : R) : 1 - quintic_poly (1 - u) = quintic_poly u.
Proof. unfold quintic_poly. ring. Qed.

(** On [[0, 1]] the polynomial lies between [0] and [10 * tau ^ 3]. *)
Lemma quintic_poly_cubic_bound (tau : R) :
  0 <= tau <= 1 -> 0 <= quintic_poly tau <= 10 * tau ^ 3.
Proof.
  intros [H0 H1].
  assert (E : quintic_poly tau = tau ^ 3 * (10 - 15 * tau + 6 * tau ^ 2))
    by (unfold quintic_poly; ring).
  assert (Hc : 0 <= tau ^ 3) by (apply pow_le; exact H0).
  assert (Hq : 0 <= 10 - 15 * tau + 6 * tau ^ 2 <= 10) by nra.
  rewrite E. split.
  - apply Rmult_le_pos; lra.
  - rewrite (Rmult_comm 10). apply Rmult_le_compat_l; lra.
Qed.

(** Between [0] and [T] the scalar is the polynomial of [t / T]. *)
Lemma quintic_scalar_poly (t T : R) :
  0 < T -> 0 <= t <= T ->
  IK3.get_quintic_scalar t T = quintic_poly (t / T).
Proof.
  intros HT [H0 H1]. unfold IK3.get_quintic_scalar.
  destruct (Rge_dec t T) as [Hge | Hlt].
  - assert (t = T) by lra. subst t.
    replace (T / T) with 1 by (field; lra). symmetry. apply quintic_poly_1.
  - destruct (Rle_dec t 0) as [Hle | Hgt].
    + assert (t = 0) by lra. subst t.
      replace (0 / T) with 0 by (field; lra). symmetry. apply quintic_poly_0.
    + reflexivity.
Qed.

Lemma quintic_scalar_before (t T : R) :
  0 < T -> t <= 0 -> IK3.get_quintic_scalar t T = 0.
Proof.
  intros HT Ht. unfold IK3.get_quintic_scalar.
  destruct (Rge_dec t T) as [Hge | _]; [lra |].
  destruct (Rle_dec t 0) as [_ | N]; [reflexivity | lra].
Qed.

Lemma quintic_scalar_after (t T : R) :
  T <= t -> IK3.get_quintic_scalar t T = 1.
Proof.
  intros Ht. unfold IK3.get_quintic_scalar.
  destruct (Rge_dec t T) as [_ | N]; [reflexivity | lra].
Qed.

Lemma quintic_scalar_increasing (T t1 t2 : R) :
  0 < T -> 0 <= t1 -> t1 < t2 -> t2 <= T ->
  IK3.get_quintic_scalar t1 T < IK3.get_quintic_scalar t2 T.
Proof.
  intros HT H0 H12 H2.
  rewrite !quintic_scalar_poly by lra.
  apply quintic_poly_increasing.
  unfold Rdiv. apply Rmult_lt_compat_r; [apply Rinv_0_lt_compat; exact HT | exact H12].
Qed.

(** The difference quotient of the polynomial at [0]. *)
Lemma quintic_poly_quotient_bound (T h eps : R) :
  0 < T -> 0 < eps -> 0 < h -> h < T -> h < eps * T ^ 2 / 10 ->
  0 <= quintic_poly (h / T) / h < eps.
Proof.
  intros HT He Hh HhT Hhe.
  assert (Htau : 0 <= h / T <= 1).
  { split.
    - apply Rmult_le_pos; [lra | left; apply Rinv_0_lt_compat; exact HT].
    - apply Rmult_le_reg_r with T; [exact HT |].
      unfold Rdiv. rewrite Rmult_assoc, Rinv_l by lra. lra. }
  destruct (quintic_poly_cubic_bound (h / T) Htau) as [Hlo Hhi].
  assert (Hinv : 0 < / h) by (apply Rinv_0_lt_compat; exact Hh).
  split.
  - apply Rmult_le_pos; lra.
  - apply Rle_lt_trans with (10 * (h / T) ^ 3 / h).
    + unfold Rdiv at 1 3. apply Rmult_le_compat_r; lra.
    + replace (10 * (h / T) ^ 3 / h) with ((10 * h / T ^ 2) * (h / T))
        by (field; lra).
      assert (Hq : 0 <= 10 * h / T ^ 2 < eps).
      { assert (HT2 : 0 < T ^ 2) by (apply pow_lt; exact HT).
        split.
        - apply Rmult_le_pos; [lra | left; apply Rinv_0_lt_compat; exact HT2].
        - apply Rmult_lt_reg_r with (T ^ 2); [exact HT2 |].
          unfold Rdiv. rewrite Rmult_assoc, Rinv_l by lra. lra. }
      apply Rle_lt_trans with (10 * h / T ^ 2 * 1); [| lra].
      apply Rmult_le_compat_l; lra.
Qed.

Lemma quintic_delta_pos (T eps : R) :
  0 < T -> 0 < eps -> 0 < Rmin T (eps * T ^ 2 / 10).
Proof.
  intros HT He. apply Rmin_pos; [exact HT |].
  assert (0 < T ^ 2) by (apply pow_lt; exact HT).
  apply Rmult_lt_0_compat; [apply Rmult_lt_0_compat; assumption | lra].
Qed.

Lemma quintic_derivative_at_0 (T : R) :
  0 < T -> derivable_pt_lim (fun t => IK3.get_quintic_scalar t T) 0 0.
Proof.
  intros HT eps He.
  exists (mkposreal _ (quintic_delta_pos T eps HT He)).
  intros h Hh Hd. cbn [pos] in Hd.
  rewrite Rplus_0_l, Rminus_0_r.
  rewrite (quintic_scalar_before 0 T HT) by lra.
  rewrite Rminus_0_r.
  destruct (Rlt_dec h 0) as [Hneg | Hpos].
  - rewrite quintic_scalar_before by lra.
    unfold Rdiv. rewrite Rmult_0_l, Rabs_R0. exact He.
  - assert (Hh0 : 0 < h) by lra.
    rewrite Rabs_pos_eq in Hd by lra.
    pose proof (Rmin_l T (eps * T ^ 2 / 10)).
    pose proof (Rmin_r T (eps * T ^ 2 / 10)).
    rewrite quintic_scalar_poly by lra.
    destruct (quintic_poly_quotient_bound T h eps) as [Hlo Hhi]; try lra.
    rewrite Rabs_pos_eq; lra.
Qed.

Lemma quintic_derivative_at_T (T : R) :
  0 < T -> derivable_pt_lim (fun t => IK3.get_quintic_scalar t T) T 0.
Proof.
  intros HT eps He.
  exists (mkposreal _ (quintic_delta_pos T eps HT He)).
  intros h Hh Hd. cbn [pos] in Hd.
  rewrite Rminus_0_r.
  rewrite (quintic_scalar_after T T) by lra.
  destruct (Rlt_dec 0 h) as [Hpos | Hneg].
  - rewrite quintic_scalar_after by lra.
    replace ((1 - 1) / h) with 0 by (field; lra).
    rewrite Rabs_R0. exact He.
  - assert (Hk : 0 < - h) by lra.
    rewrite Rabs_left in Hd by lra.
    pose proof (Rmin_l T (eps * T ^ 2 / 10)).
    pose proof (Rmin_r T (eps * T ^ 2 / 10)).
    rewrite quintic_scalar_poly by lra.
    replace ((T + h) / T) with (1 - (- h) / T) by (field; lra).
    replace ((quintic_poly (1 - - h / T) - 1) / h)
      with ((1 - quintic_poly (1 - - h / T)) / - h) by (field; lra).
    rewrite quintic_poly_sym.
    destruct (quintic_poly_quotient_bound T (- h) eps) as [Hlo Hhi]; try lra.
    rewrite Rabs_pos_eq; lra.
Qed.

(** C7.  For a duration [T > 0] the quintic scalar is [0] at [t = 0] and
    [1] at [t = T], strictly increasing between [0] and [T], and its first
    derivative is [0] at [t = 0] and at [t = T]. *)
Theorem quintic_scalar_profile (T : R) :
  0 < T ->
  IK3.get_quintic_scalar 0 T = 0 /\
  IK3.get_quintic_scalar T T = 1 /\
  (forall t1 t2, 0 < t1 -> t1 < t2 -> t2 < T ->
     IK3.get_quintic_scalar t1 T < IK3.get_quintic_scalar t2 T) /\
  derivable_pt_lim (fun t => IK3.get_quintic_scalar t T) 0 0 /\
  derivable_pt_lim (fun t => IK3.get_quintic_scalar t T) T 0.
Proof.
  intros HT.
  split; [apply quintic_scalar_before; lra |].
  split; [apply quintic_scalar_after; lra |].
  split.
  - intros t1 t2 H1 H12 H2. apply quintic_scalar_increasing; lra.
  - split; [apply quintic_derivative_at_0 | apply quintic_derivative_at_T];
      exact HT.
Qed.

(** The profile of a two-second move. *)
Lemma quintic_scalar_profile_witness :
  IK3.get_quintic_scalar 0 2 = 0 /\ IK3.get_quintic_scalar 2 2 = 1.
Proof.
  assert (H : 0 < 2) by lra.
  destruct (quintic_scalar_profile 2 H) as [H0 [H1 _]].
  split; assumption.
Defined.

(** ** The motion profilers *)

Lemma dist_self (p : R * R) : Py.dist p p = 0.
Proof.
  unfold Py.dist.
  replace ((fst p - fst p) ^ 2 + (snd p - snd p) ^ 2) with 0 by ring.
  apply sqrt_0.
Qed.

Lemma travel_degenerate (start_p end_p : R * R) (speed dt : R) (pen_state : Z) :
  Py.dist start_p end_p < 1 / 1000 ->
  IK3.interpolate_travel start_p end_p speed dt pen_state = [].
Proof.
  intros H. unfold IK3.interpolate_travel.
  destruct (Rlt_dec (Py.dist start_p end_p) (1 / 1000)) as [_ | N];
    [reflexivity | contradiction].
Qed.

Lemma linear_degenerate (start_p end_p : R * R) (speed dt : R) (pen_state : Z) :
  Py.dist start_p end_p < 1 / 1000 ->
  IK3.interpolate_linear start_p end_p speed dt pen_state = [].
Proof.
  intros H. unfold IK3.interpolate_linear.
  destruct (Rlt_dec (Py.dist start_p end_p) (1 / 1000)) as [_ | N];
    [reflexivity | contradiction].
Qed.

(** C8.  When the start and the end of a segment are less than [0.001] mm
    apart, the travel profiler and the draw profiler both return the empty
    list. *)
Theorem degenerate_segment_empty (start_p end_p : R * R) (speed dt : R)
    (pen_state : Z) :
  Py.dist start_p end_p < 1 / 1000 ->
  IK3.interpolate_travel start_p end_p speed dt pen_state = [] /\
  IK3.interpolate_linear start_p end_p speed dt pen_state = [].
Proof.
  intros H. split; [apply travel_degenerate | apply linear_degenerate]; exact H.
Qed.

(** A segment of length zero at the travel and draw speeds of the
    script. *)
Lemma degenerate_segment_empty_witness :
  IK3.interpolate_travel (0, 315) (0, 315) IK3.TRAVEL_SPEED IK3.DT 0 = [] /\
  IK3.interpolate_linear (0, 315) (0, 315) IK3.DRAW_SPEED IK3.DT 1 = [].
Proof.
  assert (H : Py.dist (0, 315) (0, 315) < 1 / 1000)
    by (rewrite dist_self; lra).
  split.
  - exact (proj1 (degenerate_segment_empty (0, 315) (0, 315)
                    IK3.TRAVEL_SPEED IK3.DT 0 H)).
  - exact (proj2 (degenerate_segment_empty (0, 315) (0, 315)
                    IK3.DRAW_SPEED IK3.DT 1 H)).
Defined.

Lemma INR_to_nat (z : Z) : (0 <= z)%Z -> INR (Z.to_nat z) = IZR z.
Proof. intros H. rewrite INR_IZR_INZ, Z2Nat.id by exact H. reflexivity. Qed.

Lemma int_ge_1 (r : R) : 1 <= r -> (1 <= Py.int r)%Z.
Proof.
  intros H. unfold Py.int.
  destruct (Rle_dec 0 r) as [_ | N]; [| lra].
  destruct (base_Int_part r) as [_ Hb].
  assert (Hlt : IZR 0 < IZR (Int_part r)) by lra.
  apply lt_IZR in Hlt. lia.
Qed.

(** The samples of a travel segment: [n >= 5] samples at the scaled times
    [i * dt], [i = 0 .. n - 1], of a move lasting [n * dt]. *)
Lemma travel_samples (start_p end_p : R * R) (speed dt : R) (pen_state : Z) :
  ~ Py.dist start_p end_p < 1 / 1000 ->
  exists n : nat,
    (5 <= n)%nat /\
    IK3.interpolate_travel start_p end_p speed dt pen_state =
    map (fun i : nat =>
           (lerp start_p end_p
              (IK3.get_quintic_scalar (INR i * dt) (INR n * dt)), pen_state))
        (seq 0 n).
Proof.
  intros Hd. unfold IK3.interpolate_travel.
  destruct (Rlt_dec (Py.dist start_p end_p) (1 / 1000)) as [Y | _];
    [contradiction |].
  set (duration := if Rlt_dec (Py.dist start_p end_p / speed) dt
                   then dt else Py.dist start_p end_p / speed).
  set (z := if (Py.int (duration / dt) <? 5)%Z then 5%Z
            else Py.int (duration / dt)).
  assert (Hz : (5 <= z)%Z).
  { unfold z. destruct (Z.ltb_spec (Py.int (duration / dt)) 5); lia. }
  exists (Z.to_nat z). split; [lia |].
  rewrite INR_to_nat by lia. reflexivity.
Qed.

(** Every scaled time of a travel segment comes before its end. *)
Lemma travel_scalar_lt_1 (dt : R) (n i : nat) :
  0 < dt -> (i < n)%nat ->
  IK3.get_quintic_scalar (INR i * dt) (INR n * dt) < 1.
Proof.
  intros Hdt Hi.
  assert (Hin : INR i < INR n) by (apply lt_INR; exact Hi).
  assert (H0 : 0 <= INR i) by apply pos_INR.
  assert (HT : 0 < INR n * dt) by (apply Rmult_lt_0_compat; lra).
  apply Rlt_le_trans
    with (IK3.get_quintic_scalar (INR n * dt) (INR n * dt));
    [| rewrite quintic_scalar_after; lra].
  apply quintic_scalar_increasing; try lra.
  - apply Rmult_le_pos; lra.
  - apply Rmult_lt_compat_r; lra.
Qed.

(** A point strictly before the end of a segment of positive length is
    not its end point. *)
Lemma lerp_short_of_end (start_p end_p : R * R) (s : R) :
  ~ Py.dist start_p end_p < 1 / 1000 -> s < 1 ->
  lerp start_p end_p s <> end_p.
Proof.
  intros Hd Hs E. apply Hd.
  destruct start_p as [sx sy], end_p as [ex ey].
  unfold lerp in E. cbn [fst snd] in E. injection E as Ex Ey.
  assert (ex = sx) by nra. assert (ey = sy) by nra. subst.
  rewrite dist_self. lra.
Qed.

(** The samples of a draw segment: [n >= 1] samples at the fractions
    [i / n], [i = 1 .. n]. *)
Lemma linear_samples (start_p end_p : R * R) (speed dt : R) (pen_state : Z) :
  0 < dt ->
  ~ Py.dist start_p end_p < 1 / 1000 ->
  exists n : nat,
    (1 <= n)%nat /\
    IK3.interpolate_linear start_p end_p speed dt pen_state =
    map (fun i : nat => (lerp start_p end_p (INR i / INR n), pen_state))
        (seq 1 n).
Proof.
  intros Hdt Hd. unfold IK3.interpolate_linear.
  destruct (Rlt_dec (Py.dist start_p end_p) (1 / 1000)) as [Y | _];
    [contradiction |].
  destruct (Rlt_dec (Py.dist start_p end_p / speed) dt) as [Hshort | Hlong].
  - exists 1%nat. split; [lia |]. cbn [seq map]. unfold lerp.
    replace (INR 1 / INR 1) with 1 by (cbn; field).
    repeat f_equal; ring.
  - set (q := Py.dist start_p end_p / speed / dt).
    assert (Hq : 1 <= q).
    { unfold q. apply Rmult_le_reg_r with dt; [exact Hdt |].
      unfold Rdiv at 1. rewrite Rmult_assoc, Rinv_l by lra. lra. }
    pose proof (int_ge_1 q Hq) as Hn.
    exists (Z.to_nat (Py.int q)). split; [lia |].
    rewrite INR_to_nat by lia. reflexivity.
Qed.

Lemma last_map_seq {A : Type} (f : nat -> A) (a n : nat) (d : A) :
  (1 <= n)%nat -> last (map f (seq a n)) d = f (a + n - 1)%nat.
Proof.
  intros Hn. destruct n as [| n]; [lia |].
  rewrite seq_S, map_app. cbn [map]. rewrite last_last.
  f_equal. lia.
Qed.

Lemma lerp_end (start_p end_p : R * R) : lerp start_p end_p 1 = end_p.
Proof.
  destruct start_p, end_p. unfold lerp. cbn [fst snd]. f_equal; ring.
Qed.

Lemma last_app_nonempty {A : Type} (l1 l2 : list A) (d : A) :
  l2 <> [] -> last (l1 ++ l2) d = last l2 d.
Proof.
  intros H. induction l1 as [| a l1 IH]; [reflexivity |].
  cbn [app]. destruct (l1 ++ l2) eqn:E.
  - destruct l1; [cbn in E; contradiction | discriminate].
  - cbn [last]. exact IH.
Qed.

(** The last sample of a travel segment lies short of the end point. *)
Lemma travel_last_short (start_p end_p : R * R) (speed dt : R) (pen_state : Z)
    (d : IK3.sample) :
  0 < dt -> ~ Py.dist start_p end_p < 1 / 1000 ->
  IK3.interpolate_travel start_p end_p speed dt pen_state <> [] /\
  position (last (IK3.interpolate_travel start_p end_p speed dt pen_state) d)
  <> end_p.
Proof.
  intros Hdt Hd.
  destruct (travel_samples start_p end_p speed dt pen_state Hd) as [n [Hn E]].
  rewrite E. split.
  - destruct n; [lia |]. discriminate.
  - rewrite last_map_seq by lia. unfold position. cbn [fst].
    apply lerp_short_of_end; [exact Hd |].
    apply travel_scalar_lt_1; [exact Hdt | lia].
Qed.

(** The last sample of a draw segment is the end point. *)
Lemma linear_last_end (start_p end_p : R * R) (speed dt : R) (pen_state : Z)
    (d : IK3.sample) :
  0 < dt -> ~ Py.dist start_p end_p < 1 / 1000 ->
  last (IK3.interpolate_linear start_p end_p speed dt pen_state) d
  = (end_p, pen_state).
Proof.
  intros Hdt Hd.
  destruct (linear_samples start_p end_p speed dt pen_state Hdt Hd) as [n [Hn E]].
  rewrite E, last_map_seq by lia.
  replace (1 + n - 1)%nat with n by lia.
  replace (INR n / INR n) with 1.
  - rewrite lerp_end. reflexivity.
  - assert (0 < INR n) by (apply lt_0_INR; lia). field. lra.
Qed.

Lemma DT_pos : 0 < IK3.DT.
Proof. unfold IK3.DT. lra. Qed.

(** A target further than [0.001] mm from the current position is not
    skipped: the current position becomes the target. *)
Lemma process_target_advances (b : IK3.builder) (tg : IK3.target) :
  ~ Py.dist (IK3.current b) (IK3.tx tg, IK3.ty tg) < 1 / 1000 ->
  IK3.current (IK3.process_target b tg) = (IK3.tx tg, IK3.ty tg).
Proof.
  intros Hd. unfold IK3.process_target, Py.ltb.
  destruct (Rlt_dec (Py.dist (IK3.current b) (IK3.tx tg, IK3.ty tg)) (1 / 1000))
    as [Y | _]; [contradiction |].
  cbn [andb]. destruct (IK3.tpen tg =? 0)%Z; reflexivity.
Qed.

(** After a travel segment the trajectory built so far ends with the
    samples of the travel profiler. *)
Lemma process_target_travel (b : IK3.builder) (tg : IK3.target) :
  ~ Py.dist (IK3.current b) (IK3.tx tg, IK3.ty tg) < 1 / 1000 ->
  IK3.tpen tg = 0%Z ->
  exists dwell,
    IK3.full_trajectory (IK3.process_target b tg) =
    (IK3.full_trajectory b ++ dwell)
    ++ IK3.interpolate_travel (IK3.current b) (IK3.tx tg, IK3.ty tg)
         IK3.TRAVEL_SPEED IK3.DT 0.
Proof.
  intros Hd Hpen. unfold IK3.process_target, Py.ltb.
  destruct (Rlt_dec (Py.dist (IK3.current b) (IK3.tx tg, IK3.ty tg)) (1 / 1000))
    as [Y | _]; [contradiction |].
  cbn [andb]. rewrite Hpen. cbn [Z.eqb].
  destruct (travel_last_short (IK3.current b) (IK3.tx tg, IK3.ty tg)
              IK3.TRAVEL_SPEED IK3.DT 0 (0, 0, 0%Z) DT_pos Hd) as [Hne _].
  destruct (IK3.interpolate_travel (IK3.current b) (IK3.tx tg, IK3.ty tg)
              IK3.TRAVEL_SPEED IK3.DT 0) as [| m ms] eqn:E; [contradiction |].
  cbn [IK3.full_trajectory]. eexists. reflexivity.
Qed.

(** C10.  For a segment at least [0.001] mm long, sampled every [dt > 0]:
    the travel profiler emits [n >= 5] samples at the scaled times
    [i * dt], [i = 0 .. n - 1], each with scaling factor below 1, and its
    last sample is not the end point; the draw profiler emits [n >= 1]
    samples at the fractions [i / n], [i = 1 .. n], and its last sample is
    the end point; the trajectory builder sets its current position to the
    target, so that after a travel segment the last emitted sample differs
    from the position the next segment starts from. *)
Theorem segment_end_points (b : IK3.builder) (tg : IK3.target)
    (speed dt : R) (pen_state : Z) (d : IK3.sample) :
  let start_p := IK3.current b in
  let end_p := (IK3.tx tg, IK3.ty tg) in
  0 < dt -> 0 < speed ->
  ~ Py.dist start_p end_p < 1 / 1000 ->
  (exists n : nat,
     (5 <= n)%nat /\
     IK3.interpolate_travel start_p end_p speed dt pen_state =
     map (fun i : nat =>
            (lerp start_p end_p
               (IK3.get_quintic_scalar (INR i * dt) (INR n * dt)), pen_state))
         (seq 0 n) /\
     (forall i : nat, (i < n)%nat ->
        IK3.get_quintic_scalar (INR i * dt) (INR n * dt) < 1) /\
     position (last (IK3.interpolate_travel start_p end_p speed dt pen_state) d)
     <> end_p)
  /\
  (exists n : nat,
     (1 <= n)%nat /\
     IK3.interpolate_linear start_p end_p speed dt pen_state =
     map (fun i : nat => (lerp start_p end_p (INR i / INR n), pen_state))
         (seq 1 n) /\
     last (IK3.interpolate_linear start_p end_p speed dt pen_state) d
     = (end_p, pen_state))
  /\
  IK3.current (IK3.process_target b tg) = end_p
  /\
  (IK3.tpen tg = 0%Z ->
   position (last (IK3.full_trajectory (IK3.process_target b tg)) d)
   <> IK3.current (IK3.process_target b tg)).
Proof.
  intros start_p end_p Hdt Hspeed Hd.
  split; [| split; [| split]].
  - destruct (travel_samples start_p end_p speed dt pen_state Hd) as [n [Hn E]].
    exists n. split; [exact Hn |]. split; [exact E |]. split.
    + intros i Hi. apply travel_scalar_lt_1; assumption.
    + apply travel_last_short; assumption.
  - destruct (linear_samples start_p end_p speed dt pen_state Hdt Hd)
      as [n [Hn E]].
    exists n. split; [exact Hn |]. split; [exact E |].
    apply linear_last_end; assumption.
  - apply process_target_advances. exact Hd.
  - intros Hpen.
    rewrite process_target_advances by exact Hd.
    destruct (process_target_travel b tg Hd Hpen) as [dwell E].
    destruct (travel_last_short start_p end_p IK3.TRAVEL_SPEED IK3.DT 0 d
                DT_pos Hd) as [Hne Hlast].
    rewrite E, last_app_nonempty by exact Hne. exact Hlast.
Qed.

(** A travel segment from the home of the script's robot straight down
    by 100 mm. *)
Lemma segment_end_points_witness :
  IK3.current
    (IK3.process_target (IK3.initial_builder IK3.robot) (IK3.mkTarget 0 215 0))
  = (0, 215).
Proof.
  assert (Hdt : 0 < IK3.DT) by exact DT_pos.
  assert (Hs : 0 < IK3.TRAVEL_SPEED) by (unfold IK3.TRAVEL_SPEED; lra).
  assert (Hd : ~ Py.dist (IK3.current (IK3.initial_builder IK3.robot))
                   (IK3.tx (IK3.mkTarget 0 215 0), IK3.ty (IK3.mkTarget 0 215 0))
                 < 1 / 1000).
  { unfold Py.dist, IK3.initial_builder, IK3.HOME_X, IK3.HOME_Y, IK3.robot,
      IK3.L1, IK3.L2.
    cbn [IK3.current IK3.tx IK3.ty IK3.l1 IK3.l2 fst snd].
    replace ((0 - 0) ^ 2 + (155 + 160 - 215) ^ 2) with (100 ^ 2) by ring.
    rewrite sqrt_pow2; lra. }
  exact (proj1 (proj2 (proj2
           (segment_end_points (IK3.initial_builder IK3.robot)
              (IK3.mkTarget 0 215 0) IK3.TRAVEL_SPEED IK3.DT 0 (0, 0, 0%Z)
              Hdt Hs Hd)))).
Defined.

(** ** The trajectory builder on a waypoint at home *)

Lemma pen_lift_wait_steps : Py.int (2 / 10 / IK3.DT) = 10%Z.
Proof. apply int_eq. unfold IK3.DT. field. Qed.

(** A pen-up waypoint at the current position: ten dwell samples and one
    sample at the waypoint are appended. *)
Lemma process_target_at_current (b : IK3.builder) (x y : R) :
  IK3.current b = (x, y) ->
  IK3.process_target b (IK3.mkTarget x y 0) =
  IK3.mkBuilder
    (IK3.full_trajectory b ++ repeat (x, y, 0%Z) 10 ++ [(x, y, 0%Z)]) (x, y).
Proof.
  intros Hc. unfold IK3.process_target. rewrite Hc.
  cbn [IK3.tx IK3.ty IK3.tpen Z.eqb andb fst snd].
  rewrite andb_false_r.
  rewrite pen_lift_wait_steps.
  rewrite travel_degenerate by (rewrite dist_self; lra).
  rewrite <- app_assoc. reflexivity.
Qed.

Lemma scenario_home : IK3.HOME_Y scenario_robot = 3095 / 10.
Proof. unfold IK3.HOME_Y, scenario_robot. cbn [IK3.l1 IK3.l2]. field. Qed.

Lemma scenario_A_trajectory :
  IK3.trajectory scenario_robot scenario_A = repeat (0, 3095 / 10, 0%Z) 12.
Proof.
  unfold IK3.trajectory, IK3.build, scenario_A. cbn [fold_left].
  rewrite process_target_at_current.
  - unfold IK3.initial_builder. cbn [IK3.full_trajectory].
    rewrite scenario_home. unfold IK3.HOME_X. reflexivity.
  - unfold IK3.initial_builder. cbn [IK3.current].
    rewrite scenario_home. reflexivity.
Qed.

(** ** The command synthesizer *)

(** Samples at the home position give rows at step position [0] with step
    delta [0]. *)
Lemma command_loop_at_home (ik : R -> R -> option (R * R)) (hx hy t1 t2 : R)
    (pen : Z) (n i : nat) :
  ik hx hy = Some (t1, t2) ->
  Forall (fun c => IK3.J1_Pos c = 0%Z /\ IK3.J2_Pos c = 0%Z /\
                   IK3.J1_Delta c = 0%Z /\ IK3.J2_Delta c = 0%Z)
    (IK3.command_loop ik
       (Py.int (t1 * IK3.STEPS_PER_RAD_J1)) (Py.int (t2 * IK3.STEPS_PER_RAD_J2))
       i 0 0 (repeat (hx, hy, pen) n)).
Proof.
  intros Hik. revert i. induction n as [| n IH]; intros i.
  - constructor.
  - cbn [repeat IK3.command_loop]. rewrite Hik.
    replace ((Py.int (t1 * IK3.STEPS_PER_RAD_J1)
              - Py.int (t1 * IK3.STEPS_PER_RAD_J1)) * -1)%Z with 0%Z by lia.
    replace ((Py.int (t2 * IK3.STEPS_PER_RAD_J2)
              - Py.int (t2 * IK3.STEPS_PER_RAD_J2)) * -1)%Z with 0%Z by lia.
    constructor.
    + cbn. repeat split; reflexivity.
    + apply IH.
Qed.

Lemma command_loop_length (ik : R -> R -> option (R * R)) (o1 o2 : Z)
    (traj : list IK3.sample) :
  forall (i : nat) (p1 p2 : Z),
    List.length (IK3.command_loop ik o1 o2 i p1 p2 traj) = List.length traj.
Proof.
  induction traj as [| [[x y] pen] rest IH]; intros i p1 p2.
  - reflexivity.
  - cbn [IK3.command_loop]. destruct (ik x y) as [[t1 t2] |];
      cbn [List.length]; rewrite IH; reflexivity.
Qed.

(** C5 (as amended).  For the waypoint list [[(0, 309.5, Up)]] with home
    [(0, 309.5)] the full trajectory has exactly 12 samples, all at the
    home position with the pen up (the initial sample, the ten samples of
    the 0.2 s pen-lift dwell and one sample at the waypoint), so there is
    no motion; one command row is generated per sample, and every row has
    [J1_Delta = 0] and [J2_Delta = 0] at step position [0]. *)
Theorem scenario_A_no_motion :
  IK3.trajectory scenario_robot scenario_A = repeat (0, 3095 / 10, 0%Z) 12 /\
  exists cmds : list IK3.command,
    IK3.commands scenario_robot scenario_A = Some cmds /\
    List.length cmds = 12%nat /\
    Forall (fun c => IK3.J1_Pos c = 0%Z /\ IK3.J2_Pos c = 0%Z /\
                     IK3.J1_Delta c = 0%Z /\ IK3.J2_Delta c = 0%Z) cmds.
Proof.
  split; [exact scenario_A_trajectory |].
  unfold IK3.commands, IK3.generate_commands.
  rewrite scenario_A_trajectory. cbn [fst snd].
  rewrite scenario_home. unfold IK3.HOME_X.
  unfold IK3.robot_ik at 1.
  destruct (IK3.inverse_kinematics scenario_robot 0 (3095 / 10))
    as [t1_home t2_home] eqn:Hik.
  eexists. split; [reflexivity |]. split.
  - rewrite command_loop_length. reflexivity.
  - apply command_loop_at_home. unfold IK3.robot_ik. rewrite Hik. reflexivity.
Qed.

(** C5 as stated fails: the trajectory of scenario A has 12 samples, not
    one. *)
Lemma scenario_A_not_one_sample :
  List.length (IK3.trajectory scenario_robot scenario_A) = 12%nat /\
  List.length (IK3.trajectory scenario_robot scenario_A) <> 1%nat.
Proof.
  rewrite scenario_A_trajectory. cbn [repeat List.length]. split; [reflexivity | lia].
Qed.

Lemma round_time (i : nat) : Py.round (INR i * IK3.DT) 3 = INR i * IK3.DT.
Proof.
  unfold Py.round, IK3.DT.
  replace (INR i * (2 / 100) * 10 ^ 3) with (IZR (20 * Z.of_nat i)).
  - rewrite round_half_even_IZR, mult_IZR, <- INR_IZR_INZ. field.
  - rewrite mult_IZR, <- INR_IZR_INZ. field.
Qed.

(** Row [k] of the loop started at index [i0] carries the time
    [(i0 + k) * DT]. *)
Lemma command_loop_time (ik : R -> R -> option (R * R)) (o1 o2 : Z)
    (traj : list IK3.sample) :
  forall (i0 : nat) (p1 p2 : Z) (k : nat) (c : IK3.command),
    nth_error (IK3.command_loop ik o1 o2 i0 p1 p2 traj) k = Some c ->
    IK3.Time c = INR (i0 + k) * IK3.DT.
Proof.
  induction traj as [| [[x y] pen] rest IH]; intros i0 p1 p2 k c H.
  - destruct k; discriminate.
  - cbn [IK3.command_loop] in H.
    destruct (ik x y) as [[t1 t2] |]; destruct k as [| k]; cbn [nth_error] in H.
    + injection H as <-. cbn [IK3.Time]. rewrite Nat.add_0_r. apply round_time.
    + apply IH in H. rewrite H. f_equal. f_equal. lia.
    + injection H as <-. cbn [IK3.Time]. rewrite Nat.add_0_r. apply round_time.
    + apply IH in H. rewrite H. f_equal. f_equal. lia.
Qed.

(** The script always produces a command table, one row per sample. *)
Lemma commands_total (rb : IK3.ScaraRobot) (target_list : list IK3.target) :
  exists cmds : list IK3.command,
    IK3.commands rb target_list = Some cmds /\
    List.length cmds = List.length (IK3.trajectory rb target_list) /\
    forall (k : nat) (c : IK3.command),
      nth_error cmds k = Some c -> IK3.Time c = INR k * IK3.DT.
Proof.
  unfold IK3.commands, IK3.generate_commands. unfold IK3.robot_ik at 1.
  destruct (IK3.inverse_kinematics rb _ _) as [t1_home t2_home].
  eexists. split; [reflexivity |]. split.
  - apply command_loop_length.
  - intros k c H. apply command_loop_time in H. exact H.
Qed.

(** The trajectory is never empty: it starts as the home sample and the
    loop over the waypoints only appends. *)
Lemma process_target_length (b : IK3.builder) (tg : IK3.target) :
  (List.length (IK3.full_trajectory b)
   <= List.length (IK3.full_trajectory (IK3.process_target b tg)))%nat.
Proof.
  unfold IK3.process_target.
  destruct (Py.ltb _ _ && _); [lia |].
  destruct (IK3.tpen tg =? 0)%Z; cbn [IK3.full_trajectory].
  - rewrite !length_app. lia.
  - destruct (IK3.last_state (IK3.full_trajectory b) =? 0)%Z;
      rewrite !length_app; lia.
Qed.

Lemma trajectory_nonempty (rb : IK3.ScaraRobot) (target_list : list IK3.target) :
  (1 <= List.length (IK3.trajectory rb target_list))%nat.
Proof.
  unfold IK3.trajectory, IK3.build.
  assert (H : (1 <= List.length (IK3.full_trajectory (IK3.initial_builder rb)))%nat)
    by (cbn; lia).
  revert H. generalize (IK3.initial_builder rb).
  induction target_list as [| tg rest IH]; intros b H; cbn [fold_left].
  - exact H.
  - apply IH. pose proof (process_target_length b tg). lia.
Qed.

(** ** Claims on the command table *)

(** C9.  The script always generates a command table; the table has one
    row per trajectory sample and is never empty; its Time column starts
    at [0], row [i] carries exactly [i * DT], and each row after the first
    exceeds the row before it by exactly [DT = 0.02] s, so that the column
    is strictly increasing. *)
Theorem time_column_steps_by_DT (rb : IK3.ScaraRobot)
    (target_list : list IK3.target) :
  exists cmds : list IK3.command,
    IK3.commands rb target_list = Some cmds /\
    List.length cmds = List.length (IK3.trajectory rb target_list) /\
    (exists c0 rest, cmds = c0 :: rest /\ IK3.Time c0 = 0) /\
    (forall i : nat, (i < List.length cmds)%nat ->
       exists c, nth_error cmds i = Some c /\ IK3.Time c = INR i * IK3.DT) /\
    (forall i : nat, (S i < List.length cmds)%nat ->
       exists c c',
         nth_error cmds i = Some c /\ nth_error cmds (S i) = Some c' /\
         IK3.Time c' - IK3.Time c = IK3.DT /\ IK3.Time c < IK3.Time c').
Proof.
  destruct (commands_total rb target_list) as [cmds [E [Hlen Ht]]].
  pose proof (trajectory_nonempty rb target_list) as Hne.
  assert (Hrow : forall i : nat, (i < List.length cmds)%nat ->
            exists c, nth_error cmds i = Some c /\ IK3.Time c = INR i * IK3.DT).
  { intros i Hi. destruct (nth_error cmds i) as [c |] eqn:Hc.
    - exists c. split; [reflexivity | exact (Ht i c Hc)].
    - apply nth_error_None in Hc. lia. }
  exists cmds. split; [exact E |]. split; [exact Hlen |]. split; [| split].
  - destruct cmds as [| c0 rest]; [cbn in Hlen; lia |].
    exists c0, rest. split; [reflexivity |].
    rewrite (Ht 0%nat c0 eq_refl). cbn [INR]. ring.
  - exact Hrow.
  - intros i Hi.
    destruct (Hrow i) as [c [Hc Hct]]; [lia |].
    destruct (Hrow (S i) Hi) as [c' [Hc' Hct']].
    exists c, c'. split; [exact Hc |]. split; [exact Hc' |].
    rewrite Hct, Hct', S_INR.
    pose proof DT_pos. split; [ring | nra].
Qed.

(** The table of scenario A has twelve rows; its first two rows. *)
Lemma time_column_steps_by_DT_witness :
  exists (cmds : list IK3.command) (c c' : IK3.command),
    IK3.commands scenario_robot scenario_A = Some cmds /\
    List.length cmds = 12%nat /\
    nth_error cmds 0 = Some c /\ nth_error cmds 1 = Some c' /\
    IK3.Time c = 0 /\ IK3.Time c' - IK3.Time c = IK3.DT.
Proof.
  destruct (time_column_steps_by_DT scenario_robot scenario_A)
    as [cmds [E [Hlen [[c0 [rest [Hc0 Ht0]]] [_ Hd]]]]].
  rewrite scenario_A_trajectory in Hlen. cbn [repeat List.length] in Hlen.
  assert (H1 : (1 < List.length cmds)%nat) by (rewrite Hlen; lia).
  destruct (Hd 0%nat H1) as [c [c' [Hc [Hc' [Hdt _]]]]].
  exists cmds, c, c'.
  split; [exact E |]. split; [exact Hlen |]. split; [exact Hc |].
  split; [exact Hc' |]. split; [| exact Hdt].
  rewrite Hc0 in Hc. cbn [nth_error] in Hc. injection Hc as <-. exact Ht0.
Defined.

(** A sample whose inverse kinematics is [None] gives a row that holds the
    step positions the loop had on reaching it. *)
Lemma command_loop_hold (ik : R -> R -> option (R * R)) (o1 o2 : Z)
    (traj : list IK3.sample) :
  forall (i0 : nat) (p1 p2 : Z) (k : nat) (x y : R) (pen : Z),
    nth_error traj k = Some (x, y, pen) ->
    ik x y = None ->
    exists c : IK3.command,
      nth_error (IK3.command_loop ik o1 o2 i0 p1 p2 traj) k = Some c /\
      steps c = previous_steps (p1, p2)
                  (IK3.command_loop ik o1 o2 i0 p1 p2 traj) k /\
      IK3.J1_Delta c = 0%Z /\ IK3.J2_Delta c = 0%Z /\ IK3.Pen c = pen.
Proof.
  induction traj as [| [[x0 y0] pen0] rest IH]; intros i0 p1 p2 k x y pen Hk Hik.
  - destruct k; discriminate.
  - destruct k as [| k].
    + cbn [nth_error] in Hk. injection Hk as -> -> ->.
      cbn [IK3.command_loop]. rewrite Hik.
      eexists. split; [reflexivity |].
      cbn [previous_steps steps IK3.J1_Pos IK3.J2_Pos IK3.J1_Delta IK3.J2_Delta
             IK3.Pen].
      rewrite !Z.sub_diag. repeat split; reflexivity.
    + cbn [nth_error] in Hk.
      cbn [IK3.command_loop].
      destruct (ik x0 y0) as [[t1 t2] |].
      * destruct (IH (S i0)
                    ((Py.int (t1 * IK3.STEPS_PER_RAD_J1) - o1) * -1)%Z
                    ((Py.int (t2 * IK3.STEPS_PER_RAD_J2) - o2) * -1)%Z
                    k x y pen Hk Hik) as [c [Hc [Hs Hrest]]].
        exists c. split; [exact Hc |]. split; [| exact Hrest].
        rewrite Hs. destruct k; reflexivity.
      * destruct (IH (S i0) p1 p2 k x y pen Hk Hik) as [c [Hc [Hs Hrest]]].
        exists c. split; [exact Hc |]. split; [| exact Hrest].
        rewrite Hs. destruct k; reflexivity.
Qed.

(** ** The script's robot on an out-of-reach sample *)

Lemma ik3_at_home : IK3.inverse_kinematics IK3.robot 0 315 = (PI / 2, 0).
Proof.
  unfold IK3.inverse_kinematics, IK3.robot, IK3.L1, IK3.L2. cbn [IK3.l1 IK3.l2].
  destruct (Req_dec_T (2 * 155 * 160) 0) as [E | _]; [lra |].
  destruct (Req_dec_T (0 ^ 2 + 315 ^ 2) 0) as [E | _]; [lra |].
  replace ((0 ^ 2 + 315 ^ 2 - 155 ^ 2 - 160 ^ 2) / (2 * 155 * 160)) with 1
    by (field; lra).
  rewrite clamp_id by lra.
  replace (1 - 1 ^ 2) with 0 by ring. rewrite sqrt_0.
  replace ((- 0 * 160 * 0 + 315 * (155 + 160 * 1)) / (0 ^ 2 + 315 ^ 2)) with 1
    by (field; lra).
  replace ((315 * 160 * 0 + 0 * (155 + 160 * 1)) / (0 ^ 2 + 315 ^ 2)) with 0
    by (field; lra).
  f_equal.
  - unfold Py.atan2.
    destruct (Rlt_dec 0 0) as [Y | _]; [lra |].
    destruct (Rlt_dec 0 1) as [_ | N]; [reflexivity | lra].
  - unfold Py.atan2.
    destruct (Rlt_dec 0 1) as [_ | N]; [| lra].
    replace (0 / 1) with 0 by field. apply atan_0.
Qed.

(** With the robot of the script, a sample beyond the reach is not held:
    after the home sample (row 0, at step position 0 on both joints) the
    sample [(400, 0)] sends joint 1 to step 3200. *)
Lemma out_of_reach_sample_moves_arm :
  exists c0 c1 : IK3.command,
    IK3.generate_commands (IK3.robot_ik IK3.robot) (0, 315)
      [(0, 315, 0%Z); (400, 0, 0%Z)] = Some [c0; c1] /\
    steps c0 = (0%Z, 0%Z) /\ steps c1 = (3200%Z, 0%Z) /\
    IK3.J1_Delta c1 = 3200%Z.
Proof.
  assert (H1 : Py.int (PI / 2 * IK3.STEPS_PER_RAD_J1) = 3200%Z).
  { apply int_eq. unfold IK3.STEPS_PER_RAD_J1, IK3.STEPS_PER_REV,
      IK3.MICROSTEPS, IK3.GEAR_RATIO_J1. field. apply PI_neq0. }
  assert (H2 : forall k, Py.int (0 * k) = 0%Z).
  { intros k. apply int_eq. ring. }
  unfold IK3.generate_commands, IK3.robot_ik. cbn [fst snd].
  rewrite ik3_at_home. cbn [IK3.command_loop].
  rewrite ik3_at_home, ik3_at_400_0, H1, !H2.
  eexists. eexists. split; [reflexivity |].
  cbn. repeat split; reflexivity.
Qed.

(** The pose [ScaraRobot.inverse_kinematics] returns for the home
    [(0, l1 + l2)] and for a point [(a, 0)] at or beyond the reach. *)
Lemma ik3_home_pose (rb : IK3.ScaraRobot) :
  0 < IK3.l1 rb -> 0 < IK3.l2 rb ->
  IK3.inverse_kinematics rb IK3.HOME_X (IK3.HOME_Y rb) = (PI / 2, 0).
Proof.
  intros Ha Hb. unfold IK3.inverse_kinematics, IK3.HOME_X, IK3.HOME_Y.
  destruct rb as [a b]; cbn [IK3.l1 IK3.l2] in *.
  destruct (Req_dec_T (2 * a * b) 0) as [E | _]; [nra |].
  destruct (Req_dec_T (0 ^ 2 + (a + b) ^ 2) 0) as [E | _]; [nra |].
  replace ((0 ^ 2 + (a + b) ^ 2 - a ^ 2 - b ^ 2) / (2 * a * b)) with 1
    by (field; nra).
  rewrite clamp_id by lra.
  replace (1 - 1 ^ 2) with 0 by ring. rewrite sqrt_0.
  replace ((- 0 * b * 0 + (a + b) * (a + b * 1)) / (0 ^ 2 + (a + b) ^ 2))
    with 1 by (field; nra).
  replace (((a + b) * b * 0 + 0 * (a + b * 1)) / (0 ^ 2 + (a + b) ^ 2))
    with 0 by (field; nra).
  f_equal.
  - unfold Py.atan2.
    destruct (Rlt_dec 0 0) as [Y | _]; [lra |].
    destruct (Rlt_dec 0 1) as [_ | N]; [reflexivity | lra].
  - apply atan2_0_pos. lra.
Qed.

Lemma ik3_beyond_reach_on_axis (rb : IK3.ScaraRobot) (a : R) :
  0 < IK3.l1 rb -> 0 < IK3.l2 rb -> IK3.max_reach rb < a ->
  IK3.inverse_kinematics rb a 0 = (0, 0).
Proof.
  unfold IK3.max_reach. intros Hl1 Hl2 Hfar. unfold IK3.inverse_kinematics.
  destruct rb as [p q]; cbn [IK3.l1 IK3.l2] in *.
  destruct (Req_dec_T (2 * p * q) 0) as [E | _]; [nra |].
  destruct (Req_dec_T (a ^ 2 + 0 ^ 2) 0) as [E | _]; [nra |].
  assert (Hc : IK3.clamp ((a ^ 2 + 0 ^ 2 - p ^ 2 - q ^ 2) / (2 * p * q)) = 1).
  { unfold IK3.clamp.
    destruct (Rgt_dec ((a ^ 2 + 0 ^ 2 - p ^ 2 - q ^ 2) / (2 * p * q)) 1)
      as [_ | N].
    - destruct (Rlt_dec 1 (-1)); [lra | reflexivity].
    - exfalso. apply N.
      apply Rmult_lt_reg_r with (2 * p * q); [nra |].
      replace ((a ^ 2 + 0 ^ 2 - p ^ 2 - q ^ 2) / (2 * p * q) * (2 * p * q))
        with (a ^ 2 + 0 ^ 2 - p ^ 2 - q ^ 2) by (field; nra).
      nra. }
  rewrite Hc. replace (1 - 1 ^ 2) with 0 by ring. rewrite sqrt_0.
  rewrite (atan2_0_pos 1) by lra.
  replace ((- a * q * 0 + 0 * (p + q * 1)) / (a ^ 2 + 0 ^ 2)) with 0
    by (field; nra).
  rewrite atan2_0_pos; [reflexivity |].
  replace ((0 * q * 0 + a * (p + q * 1)) / (a ^ 2 + 0 ^ 2)) with ((p + q) / a)
    by (field; nra).
  apply Rdiv_lt_0_compat; lra.
Qed.

(** C3 (the code on a sample beyond the reach).  For every arm with
    positive link lengths and every sample [(a, 0)] beyond its reach, the
    command loop of [IK3.py], run on the home sample followed by that
    sample, does not hold the position: [robot.inverse_kinematics]
    returns a pose, the branch [if t1 is None] is not taken, and the row
    of the sample sends joint 1 from step 0 to step 3200. *)
Theorem unreachable_sample_not_held (rb : IK3.ScaraRobot) (a : R) :
  0 < IK3.l1 rb -> 0 < IK3.l2 rb -> IK3.max_reach rb < a ->
  IK3.max_reach rb < sqrt (a ^ 2 + 0 ^ 2) /\
  exists c0 c1 : IK3.command,
    IK3.generate_commands (IK3.robot_ik rb) (IK3.HOME_X, IK3.HOME_Y rb)
      [(IK3.HOME_X, IK3.HOME_Y rb, 0%Z); (a, 0, 0%Z)] = Some [c0; c1] /\
    steps c0 = (0%Z, 0%Z) /\ steps c1 = (3200%Z, 0%Z) /\
    steps c1 <> previous_steps (0%Z, 0%Z) [c0; c1] 1 /\
    IK3.J1_Delta c1 = 3200%Z.
Proof.
  intros Hl1 Hl2 Hfar.
  assert (Hpos : 0 <= a).
  { unfold IK3.max_reach in Hfar. lra. }
  split; [rewrite sqrt_sq_of_pos by exact Hpos; exact Hfar |].
  assert (H1 : Py.int (PI / 2 * IK3.STEPS_PER_RAD_J1) = 3200%Z).
  { apply int_eq. unfold IK3.STEPS_PER_RAD_J1, IK3.STEPS_PER_REV,
      IK3.MICROSTEPS, IK3.GEAR_RATIO_J1. field. apply PI_neq0. }
  assert (H2 : forall k, Py.int (0 * k) = 0%Z).
  { intros k. apply int_eq. ring. }
  unfold IK3.generate_commands, IK3.robot_ik. cbn [fst snd].
  rewrite (ik3_home_pose rb Hl1 Hl2). cbn [IK3.command_loop].
  rewrite (ik3_home_pose rb Hl1 Hl2), (ik3_beyond_reach_on_axis rb a Hl1 Hl2 Hfar),
    H1, !H2.
  eexists. eexists. split; [reflexivity |].
  cbn. repeat split; try reflexivity. discriminate.
Qed.

(** The sample [(400, 0)] after the home sample, for the script's own
    robot [ScaraRobot(155, 160)], whose home is [(0, 315)], and for the arm
    of scenario C, [l1 = 160] and [l2 = 149.5], whose home is
    [(0, 309.5)]. *)
Lemma unreachable_sample_not_held_witness :
  (exists c0 c1 : IK3.command,
     IK3.generate_commands (IK3.robot_ik IK3.robot) (0, 155 + 160)
       [(0, 155 + 160, 0%Z); (400, 0, 0%Z)] = Some [c0; c1] /\
     steps c1 = (3200%Z, 0%Z) /\
     steps c1 <> previous_steps (0%Z, 0%Z) [c0; c1] 1) /\
  (exists c0 c1 : IK3.command,
     IK3.generate_commands (IK3.robot_ik scenario_robot) (0, 3095 / 10)
       [(0, 3095 / 10, 0%Z); (400, 0, 0%Z)] = Some [c0; c1] /\
     steps c1 = (3200%Z, 0%Z) /\
     steps c1 <> previous_steps (0%Z, 0%Z) [c0; c1] 1).
Proof.
  split.
  - assert (H1 : 0 < IK3.l1 IK3.robot) by (cbn; unfold IK3.L1; lra).
    assert (H2 : 0 < IK3.l2 IK3.robot) by (cbn; unfold IK3.L2; lra).
    assert (H3 : IK3.max_reach IK3.robot < 400).
    { unfold IK3.max_reach, IK3.robot, IK3.L1, IK3.L2. cbn [IK3.l1 IK3.l2]. lra. }
    destruct (unreachable_sample_not_held IK3.robot 400 H1 H2 H3)
      as [_ [c0 [c1 [E [_ [Hs [Hn _]]]]]]].
    unfold IK3.HOME_X, IK3.HOME_Y, IK3.robot, IK3.L1, IK3.L2 in E.
    cbn [IK3.l1 IK3.l2] in E.
    exists c0, c1. split; [exact E |]. split; [exact Hs | exact Hn].
  - assert (H1 : 0 < IK3.l1 scenario_robot) by (cbn; lra).
    assert (H2 : 0 < IK3.l2 scenario_robot) by (cbn; lra).
    assert (H3 : IK3.max_reach scenario_robot < 400).
    { unfold IK3.max_reach, scenario_robot. cbn [IK3.l1 IK3.l2]. lra. }
    destruct (unreachable_sample_not_held scenario_robot 400 H1 H2 H3)
      as [_ [c0 [c1 [E [_ [Hs [Hn _]]]]]]].
    unfold IK3.HOME_X in E. rewrite scenario_home in E.
    exists c0, c1. split; [exact E |]. split; [exact Hs | exact Hn].
Defined.

(** ** The trajectory senders *)

Lemma collect_app {A B : Type} (f : A -> option B) (l1 l2 : list A) :
  Sender.collect f (l1 ++ l2) = Sender.collect f l1 ++ Sender.collect f l2.
Proof.
  induction l1 as [| a l1 IH]; [reflexivity |].
  cbn [app Sender.collect]. destruct (f a); rewrite IH; reflexivity.
Qed.

Lemma loop_trace_rows (i : nat) (t : list Sender.event) :
  loop_trace i t ->
  forall k c b, In (Sender.Call (Some k) c b) t -> (i <= k)%nat.
Proof.
  induction 1 as [i | i c0 t Ht IH | i t Ht IH | i t Ht IH | i c0];
    intros k c b Hin.
  - destruct Hin.
  - destruct Hin as [E | Hin]; [injection E as -> _ _; lia | eauto].
  - destruct Hin as [E | Hin]; [discriminate | eauto].
  - apply IH in Hin. lia.
  - destruct Hin as [E | [E | [E | []]]]; try discriminate.
    injection E as -> _. lia.
Qed.

Lemma loop_trace_no_safe_state (i : nat) (t : list Sender.event) :
  loop_trace i t -> filter Sender.is_safe_state_write t = [].
Proof.
  induction 1 as [i | i c0 t Ht IH | i t Ht IH | i t Ht IH | i c0];
    cbn [filter Sender.is_safe_state_write]; auto.
Qed.

Lemma loop_trace_ok_call (i : nat) (c0 : Sender.call) (t : list Sender.event) :
  Sender.written_rows (Sender.Call (Some i) c0 true :: t)
  = (if is_write c0 then [i] else []) ++ Sender.written_rows t.
Proof. destruct c0; reflexivity. Qed.

Lemma loop_trace_abort (i : nat) (t : list Sender.event) :
  loop_trace i t ->
  forall k c, In (Sender.Call (Some k) c false) t ->
    Forall (fun j : nat => (j <= k)%nat) (Sender.written_rows t) /\
    Sender.reported_failures t = [k].
Proof.
  induction 1 as [i | i c0 t Ht IH | i t Ht IH | i t Ht IH | i c0];
    intros k c Hin.
  - destruct Hin.
  - destruct Hin as [E | Hin]; [discriminate |].
    destruct (IH k c Hin) as [Hw Hr].
    pose proof (loop_trace_rows i t Ht k c false Hin) as Hik.
    split; [| exact Hr].
    rewrite loop_trace_ok_call. apply Forall_app. split; [| exact Hw].
    destruct (is_write c0); constructor; [exact Hik | constructor].
  - destruct Hin as [E | Hin]; [discriminate |].
    exact (IH k c Hin).
  - exact (IH k c Hin).
  - destruct Hin as [E | [E | [E | []]]]; try discriminate.
    injection E as -> _. split; [| reflexivity].
    destruct c0; repeat constructor.
Qed.

(** The loop of [trajectory_sender_grid_3.py] has that shape. *)
Lemma stream_loop_trace (dword_raises bit_raises : nat -> bool)
    (rows : list Sender.row) :
  forall i, loop_trace i (Sender.stream dword_raises bit_raises i rows).
Proof.
  induction rows as [| r rest IH]; intros i; cbn [Sender.stream].
  - apply loop_done.
  - destruct (dword_raises i); [apply loop_abort |].
    destruct (bit_raises i).
    + apply loop_call, loop_abort.
    + apply loop_call, loop_call, loop_next, IH.
Qed.

(** The loop of [trajectory_sender.py] has that shape. *)
Lemma stream_plain_loop_trace (m3_status : nat -> option (list Z))
    (m3_raises dword_raises : nat -> bool) (rows : list Sender.row) :
  forall i en,
    loop_trace i
      (Sender.stream_plain m3_status m3_raises dword_raises i en rows).
Proof.
  induction rows as [| r rest IH]; intros i en; cbn [Sender.stream_plain].
  - apply loop_done.
  - assert (Hw : forall enabled,
      loop_trace i
        (if dword_raises i
         then [Sender.Call (Some i)
                 (Sender.write_sign_Dword "D100"
                    [Sender.J2_Pos r; Sender.int (Sender.J2_Hz r);
                     Sender.J1_Pos r; Sender.int (Sender.J1_Hz r)]) false;
               Sender.Print (Sender.Error_at_row i);
               Sender.Print Sender.Stopping_execution]
         else Sender.Call (Some i)
                (Sender.write_sign_Dword "D100"
                   [Sender.J2_Pos r; Sender.int (Sender.J2_Hz r);
                    Sender.J1_Pos r; Sender.int (Sender.J1_Hz r)]) true
              :: Sender.stream_plain m3_status m3_raises dword_raises
                   (S i) enabled rest)).
    { intros enabled. destruct (dword_raises i); [apply loop_abort |].
      apply loop_call, loop_next, IH. }
    destruct (negb (Sender.J2_Pos r =? 0)%Z || negb (Sender.J1_Pos r =? 0)%Z);
      [| apply Hw].
    destruct (m3_status i) as [status |]; [| apply loop_abort].
    apply loop_call.
    destruct (Sender.m3_is_off status); [| apply Hw].
    destruct (m3_raises i); [apply loop_abort |].
    apply loop_call.
    destruct en; [apply Hw | apply loop_started, Hw].
Qed.

(** A loop that aborted at row [k], followed by the write after the loop
    and the closing messages, is an aborted run. *)
Lemma aborted_run_after_loop (t tail : list Sender.event) (k : nat) :
  loop_trace 0 t ->
  (exists c, In (Sender.Call (Some k) c false) t) ->
  Sender.written_rows tail = [] ->
  Sender.safe_state_writes tail = 1%nat ->
  Sender.reported_failures tail = [] ->
  aborted_run (t ++ tail) k.
Proof.
  intros Ht [c Hin] Hw Hs Hr.
  destruct (loop_trace_abort 0 t Ht k c Hin) as [Hrows Hrep].
  unfold aborted_run, Sender.written_rows, Sender.safe_state_writes,
    Sender.reported_failures in *.
  rewrite !collect_app, filter_app, length_app, Hw, Hr, Hs, Hrep.
  rewrite (loop_trace_no_safe_state 0 t Ht).
  split; [rewrite app_nil_r; exact Hrows |]. split; reflexivity.
Qed.

Lemma failed_call_in_loop (t tail : list Sender.event) (k : nat) :
  (forall c, ~ In (Sender.Call (Some k) c false) tail) ->
  write_failed_at (t ++ tail) k ->
  exists c, In (Sender.Call (Some k) c false) t.
Proof.
  intros Htail [c [_ Hin]]. apply in_app_or in Hin.
  destruct Hin as [Hin | Hin]; [eauto | destruct (Htail c Hin)].
Qed.

(** C6.  In both senders, when a hardware write of row [k] raises, the run
    issues no write for a row of index greater than [k], issues exactly
    one safe-state write (the [write_bit] with value [0] after the loop),
    and reports exactly one failure, with the row index [k]. *)
Theorem write_failure_aborts_run
    (dword_raises bit_raises : nat -> bool) (final_raises : bool)
    (m3_status : nat -> option (list Z)) (m3_raises plain_raises : nat -> bool)
    (plain_final_raises : bool) (rows : list Sender.row) (k : nat) :
  (write_failed_at
     (fst (Sender.run dword_raises bit_raises final_raises rows)) k ->
   aborted_run (fst (Sender.run dword_raises bit_raises final_raises rows)) k)
  /\
  (write_failed_at
     (fst (Sender.run_plain m3_status m3_raises plain_raises
             plain_final_raises rows)) k ->
   aborted_run
     (fst (Sender.run_plain m3_status m3_raises plain_raises
             plain_final_raises rows)) k).
Proof.
  split; intros H.
  - unfold Sender.run in *.
    destruct final_raises; cbn [fst] in *;
      (apply aborted_run_after_loop;
       [ apply stream_loop_trace
       | apply failed_call_in_loop with (2 := H);
         intros c Hin; cbn [In] in Hin;
         repeat (destruct Hin as [Hin | Hin]; try discriminate); destruct Hin
       | reflexivity | reflexivity | reflexivity ]).
  - unfold Sender.run_plain in *.
    destruct plain_final_raises; cbn [fst] in *; rewrite <- app_assoc in *;
      (apply aborted_run_after_loop;
       [ apply stream_plain_loop_trace
       | apply failed_call_in_loop with (2 := H);
         intros c Hin; cbn [In app] in Hin;
         repeat (destruct Hin as [Hin | Hin]; try discriminate); destruct Hin
       | reflexivity | reflexivity | reflexivity ]).
Qed.

(** The write of row 50 of a table of a thousand rows raises. *)
Lemma write_failure_aborts_run_witness :
  aborted_run
    (fst (Sender.run raises_at_50 never_raises false thousand_rows)) 50.
Proof.
  assert (H : write_failed_at
                (fst (Sender.run raises_at_50 never_raises false thousand_rows))
                50).
  { exists (Sender.write_sign_Dword "D100" [100; 500; -100; 250]%Z).
    split; [reflexivity |].
    vm_compute. repeat (first [left; reflexivity | right]). }
  exact (proj1 (write_failure_aborts_run raises_at_50 never_raises false
                  (fun _ => None) never_raises never_raises false
                  thousand_rows 50) H).
Defined.

(** * Further properties of the code *)

(** ** The profilers *)

(** X1.  For a duration [T > 0] the quintic scalar stays between [0] and
    [1] for every time [t], also before the start and after the end of the
    move, and it never decreases with [t]. *)
Theorem quintic_scalar_bounded_monotone (T t1 t2 : R) :
  0 < T -> t1 <= t2 ->
  0 <= IK3.get_quintic_scalar t1 T <= 1 /\
  IK3.get_quintic_scalar t1 T <= IK3.get_quintic_scalar t2 T.
Proof.
  intros HT H12.
  assert (Hrange : forall t, 0 <= IK3.get_quintic_scalar t T <= 1).
  { intros t.
    destruct (Rle_dec t 0) as [Hle | Hgt].
    - rewrite quintic_scalar_before by assumption. lra.
    - destruct (Rle_dec T t) as [Hge | Hlt].
      + rewrite quintic_scalar_after by assumption. lra.
      + pose proof (quintic_scalar_increasing T 0 t HT) as Hlo.
        pose proof (quintic_scalar_increasing T t T HT) as Hhi.
        rewrite (quintic_scalar_before 0 T) in Hlo by lra.
        rewrite (quintic_scalar_after T T) in Hhi by lra.
        split; left; [apply Hlo | apply Hhi]; lra. }
  split; [apply Hrange |].
  destruct (Rle_dec t1 0) as [Hle | Hgt].
  - rewrite (quintic_scalar_before t1) by assumption. apply Hrange.
  - destruct (Rle_dec T t2) as [Hge | Hlt].
    + rewrite (quintic_scalar_after t2) by assumption. apply Hrange.
    + destruct (Req_dec_T t1 t2) as [-> | Hne]; [lra |].
      left. apply quintic_scalar_increasing; lra.
Qed.

(** The scalar of a one-second move at a quarter and at three quarters of
    a second. *)
Lemma quintic_scalar_bounded_monotone_witness :
  IK3.get_quintic_scalar (1 / 4) 1 <= IK3.get_quintic_scalar (3 / 4) 1.
Proof.
  assert (H1 : 0 < 1) by lra.
  assert (H2 : 1 / 4 <= 3 / 4) by lra.
  exact (proj2 (quintic_scalar_bounded_monotone 1 (1 / 4) (3 / 4) H1 H2)).
Defined.

Lemma lerp_start (start_p end_p : R * R) : lerp start_p end_p 0 = start_p.
Proof.
  destruct start_p, end_p. unfold lerp. cbn [fst snd]. f_equal; ring.
Qed.

(** X2.  A travel segment at least [0.001] mm long, travelled at a speed
    [speed > 0] and sampled every [dt > 0]: there are at least five
    samples, the first sample is the start point itself, and the scaling
    factors of the samples strictly increase, so the samples advance along
    the segment without ever stepping back or repeating a point. *)
Theorem travel_starts_at_start_and_advances (start_p end_p : R * R)
    (speed dt : R) (pen_state : Z) :
  0 < speed -> 0 < dt ->
  ~ Py.dist start_p end_p < 1 / 1000 ->
  exists (n : nat) (s : nat -> R),
    (5 <= n)%nat /\
    IK3.interpolate_travel start_p end_p speed dt pen_state =
    map (fun i : nat => (lerp start_p end_p (s i), pen_state)) (seq 0 n) /\
    nth_error (IK3.interpolate_travel start_p end_p speed dt pen_state) 0
    = Some (start_p, pen_state) /\
    s 0%nat = 0 /\
    (forall i j : nat, (i < j)%nat -> (j < n)%nat ->
       s i < s j /\ lerp start_p end_p (s i) <> lerp start_p end_p (s j)).
Proof.
  intros _ Hdt Hd.
  destruct (travel_samples start_p end_p speed dt pen_state Hd) as [n [Hn E]].
  exists n, (fun i => IK3.get_quintic_scalar (INR i * dt) (INR n * dt)).
  assert (HT : 0 < INR n * dt).
  { apply Rmult_lt_0_compat; [apply lt_0_INR; lia | exact Hdt]. }
  assert (H0 : IK3.get_quintic_scalar (INR 0 * dt) (INR n * dt) = 0).
  { apply quintic_scalar_before; [exact HT |]. cbn [INR]. lra. }
  split; [exact Hn |]. split; [exact E |]. split; [| split].
  - rewrite E. destruct n as [| n]; [lia |].
    cbn [seq map nth_error]. rewrite H0, lerp_start. reflexivity.
  - exact H0.
  - intros i j Hij Hj.
    assert (Hs : IK3.get_quintic_scalar (INR i * dt) (INR n * dt)
                 < IK3.get_quintic_scalar (INR j * dt) (INR n * dt)).
    { assert (INR i < INR j) by (apply lt_INR; exact Hij).
      assert (INR j < INR n) by (apply lt_INR; exact Hj).
      pose proof (pos_INR i).
      apply quintic_scalar_increasing; try exact HT.
      - apply Rmult_le_pos; lra.
      - apply Rmult_lt_compat_r; lra.
      - left. apply Rmult_lt_compat_r; lra. }
    split; [exact Hs |].
    intros Heq. apply Hd.
    destruct start_p as [sx sy], end_p as [ex ey].
    unfold lerp in Heq. cbn [fst snd] in Heq. injection Heq as Ex Ey.
    assert (ex = sx) by nra. assert (ey = sy) by nra. subst.
    rewrite dist_self. lra.
Qed.

(** A travel from the home of the script's robot straight down by
    100 mm. *)
Lemma travel_starts_at_start_and_advances_witness :
  nth_error (IK3.interpolate_travel (0, 315) (0, 215) IK3.TRAVEL_SPEED IK3.DT 0) 0
  = Some ((0, 315), 0%Z).
Proof.
  assert (Hd : ~ Py.dist (0, 315) (0, 215) < 1 / 1000).
  { unfold Py.dist. cbn [fst snd].
    replace ((0 - 0) ^ 2 + (315 - 215) ^ 2) with (100 ^ 2) by ring.
    rewrite sqrt_pow2; lra. }
  assert (Hv : 0 < IK3.TRAVEL_SPEED) by (unfold IK3.TRAVEL_SPEED; lra).
  destruct (travel_starts_at_start_and_advances (0, 315) (0, 215)
              IK3.TRAVEL_SPEED IK3.DT 0 Hv DT_pos Hd) as [n [s [_ [_ [H _]]]]].
  exact H.
Defined.

Lemma int_floor_bounds (r : R) :
  0 <= r -> IZR (Py.int r) <= r < IZR (Py.int r) + 1.
Proof.
  intros H. unfold Py.int.
  destruct (Rle_dec 0 r) as [_ | N]; [| contradiction].
  destruct (base_Int_part r) as [H1 H2]. lra.
Qed.

Lemma dist_lerp (start_p end_p : R * R) (a b : R) :
  Py.dist (lerp start_p end_p a) (lerp start_p end_p b)
  = Py.dist start_p end_p * Rabs (a - b).
Proof.
  destruct start_p as [sx sy], end_p as [ex ey].
  unfold Py.dist, lerp. cbn [fst snd].
  replace ((sx + (ex - sx) * a - (sx + (ex - sx) * b)) ^ 2
           + (sy + (ey - sy) * a - (sy + (ey - sy) * b)) ^ 2)
    with (((sx - ex) ^ 2 + (sy - ey) ^ 2) * Rsqr (a - b))
    by (unfold Rsqr; ring).
  assert (Hpos : 0 <= (sx - ex) ^ 2 + (sy - ey) ^ 2).
  { pose proof (pow2_ge_0 (sx - ex)). pose proof (pow2_ge_0 (sy - ey)). lra. }
  rewrite sqrt_mult_alt by exact Hpos.
  rewrite sqrt_Rsqr_abs. reflexivity.
Qed.

(** X3.  A draw segment that is not collapsed to a single sample
    ([dist / speed >= dt]): its [n] samples are evenly spaced, each tick
    moves the pen by [dist / n], and that step is at least [speed * dt]
    and less than twice [speed * dt]: the pen is never slower than the
    requested speed and never twice as fast. *)
Theorem linear_step_between_speed_and_twice (start_p end_p : R * R)
    (speed dt : R) (pen_state : Z) :
  0 < dt -> 0 < speed ->
  ~ Py.dist start_p end_p < 1 / 1000 ->
  dt <= Py.dist start_p end_p / speed ->
  exists n : nat,
    (1 <= n)%nat /\
    IK3.interpolate_linear start_p end_p speed dt pen_state =
    map (fun i : nat => (lerp start_p end_p (INR i / INR n), pen_state))
        (seq 1 n) /\
    (forall i : nat,
       Py.dist (lerp start_p end_p (INR i / INR n))
               (lerp start_p end_p (INR (S i) / INR n))
       = Py.dist start_p end_p / INR n) /\
    speed * dt <= Py.dist start_p end_p / INR n < 2 * (speed * dt).
Proof.
  intros Hdt Hspeed Hd Hlong.
  set (D := Py.dist start_p end_p) in *.
  set (q := D / speed / dt).
  assert (Hq : 1 <= q).
  { unfold q. apply Rmult_le_reg_r with dt; [exact Hdt |].
    unfold Rdiv at 1. rewrite Rmult_assoc, Rinv_l by lra. lra. }
  assert (HD : D = q * (speed * dt)) by (unfold q; field; lra).
  pose proof (int_ge_1 q Hq) as Hn.
  destruct (int_floor_bounds q) as [Hlo Hhi]; [lra |].
  exists (Z.to_nat (Py.int q)).
  assert (HnR : INR (Z.to_nat (Py.int q)) = IZR (Py.int q))
    by (apply INR_to_nat; lia).
  assert (Hn1 : 1 <= IZR (Py.int q)) by (apply IZR_le; exact Hn).
  split; [lia |]. split; [| split].
  - unfold IK3.interpolate_linear. fold D.
    destruct (Rlt_dec D (1 / 1000)) as [Y | _]; [contradiction |].
    destruct (Rlt_dec (D / speed) dt) as [Y | _]; [lra |].
    fold q. rewrite HnR. reflexivity.
  - intros i. rewrite dist_lerp. fold D. rewrite HnR, S_INR.
    replace (INR i / IZR (Py.int q) - (INR i + 1) / IZR (Py.int q))
      with (- (1 / IZR (Py.int q))) by (field; lra).
    rewrite Rabs_Ropp, Rabs_pos_eq.
    + field. lra.
    + apply Rmult_le_pos; [lra | left; apply Rinv_0_lt_compat; lra].
  - rewrite HnR, HD.
    assert (Hsd : 0 < speed * dt) by (apply Rmult_lt_0_compat; assumption).
    assert (Hinv : 0 < / IZR (Py.int q)) by (apply Rinv_0_lt_compat; lra).
    assert (E : q * (speed * dt) / IZR (Py.int q) * IZR (Py.int q)
                = q * (speed * dt)) by (field; lra).
    split.
    + apply Rmult_le_reg_r with (IZR (Py.int q)); [lra |]. rewrite E. nra.
    + apply Rmult_lt_reg_r with (IZR (Py.int q)); [lra |]. rewrite E. nra.
Qed.

(** The 100 mm stroke from [(0, 315)] to [(0, 215)] at the draw speed of
    the script. *)
Lemma linear_step_between_speed_and_twice_witness :
  exists n : nat,
    IK3.DRAW_SPEED * IK3.DT <= Py.dist (0, 315) (0, 215) / INR n
    < 2 * (IK3.DRAW_SPEED * IK3.DT).
Proof.
  assert (HD : Py.dist (0, 315) (0, 215) = 100).
  { unfold Py.dist. cbn [fst snd].
    replace ((0 - 0) ^ 2 + (315 - 215) ^ 2) with (100 ^ 2) by ring.
    rewrite sqrt_pow2; lra. }
  assert (Hs : 0 < IK3.DRAW_SPEED) by (unfold IK3.DRAW_SPEED; lra).
  assert (Hd : ~ Py.dist (0, 315) (0, 215) < 1 / 1000) by (rewrite HD; lra).
  assert (Hl : IK3.DT <= Py.dist (0, 315) (0, 215) / IK3.DRAW_SPEED).
  { rewrite HD. unfold IK3.DT, IK3.DRAW_SPEED. lra. }
  destruct (linear_step_between_speed_and_twice (0, 315) (0, 215)
              IK3.DRAW_SPEED IK3.DT 1 DT_pos Hs Hd Hl) as [n [_ [_ [_ H]]]].
  exists n. exact H.
Defined.

(** ** The trajectory builder *)

Lemma travel_pen (start_p end_p : R * R) (speed dt : R) (pen_state : Z) :
  Forall (fun s : IK3.sample => snd s = pen_state)
    (IK3.interpolate_travel start_p end_p speed dt pen_state).
Proof.
  unfold IK3.interpolate_travel.
  destruct (Rlt_dec _ _); [constructor |].
  apply Forall_forall. intros s Hin. apply in_map_iff in Hin.
  destruct Hin as [i [<- _]]. reflexivity.
Qed.

Lemma linear_pen (start_p end_p : R * R) (speed dt : R) (pen_state : Z) :
  Forall (fun s : IK3.sample => snd s = pen_state)
    (IK3.interpolate_linear start_p end_p speed dt pen_state).
Proof.
  unfold IK3.interpolate_linear.
  destruct (Rlt_dec _ _); [constructor |].
  destruct (Rlt_dec _ _); [repeat constructor |].
  apply Forall_forall. intros s Hin. apply in_map_iff in Hin.
  destruct Hin as [i [<- _]]. reflexivity.
Qed.

Lemma Forall_repeat {A : Type} (P : A -> Prop) (a : A) (n : nat) :
  P a -> Forall P (repeat a n).
Proof. intros H. induction n; cbn [repeat]; constructor; assumption. Qed.

(** A waypoint only appends samples, each with pen flag [0] or [1]. *)
Lemma process_target_appends (b : IK3.builder) (tg : IK3.target) :
  exists added : list IK3.sample,
    IK3.full_trajectory (IK3.process_target b tg)
    = IK3.full_trajectory b ++ added /\
    Forall (fun s : IK3.sample => snd s = 0%Z \/ snd s = 1%Z) added.
Proof.
  unfold IK3.process_target.
  destruct (Py.ltb _ _ && _).
  { exists []. rewrite app_nil_r. split; [reflexivity | constructor]. }
  destruct (IK3.tpen tg =? 0)%Z.
  - pose proof (travel_pen (IK3.current b) (IK3.tx tg, IK3.ty tg)
                  IK3.TRAVEL_SPEED IK3.DT 0) as Hp.
    destruct (IK3.interpolate_travel _ _ _ _ _) as [| m ms];
      cbn [IK3.full_trajectory]; rewrite <- app_assoc;
      eexists; (split; [reflexivity |]);
      apply Forall_app; (split; [apply Forall_repeat; left; reflexivity |]).
    + repeat constructor.
    + eapply Forall_impl; [| exact Hp]. intros s ->. left. reflexivity.
  - pose proof (linear_pen (IK3.current b) (IK3.tx tg, IK3.ty tg)
                  IK3.DRAW_SPEED IK3.DT 1) as Hp.
    assert (Hp' : Forall (fun s : IK3.sample => snd s = 0%Z \/ snd s = 1%Z)
                    (IK3.interpolate_linear (IK3.current b)
                       (IK3.tx tg, IK3.ty tg) IK3.DRAW_SPEED IK3.DT 1)).
    { eapply Forall_impl; [| exact Hp]. intros s ->. right. reflexivity. }
    destruct (IK3.last_state (IK3.full_trajectory b) =? 0)%Z;
      cbn [IK3.full_trajectory].
    + rewrite <- app_assoc. eexists. split; [reflexivity |].
      apply Forall_app. split; [apply Forall_repeat; right; reflexivity |].
      exact Hp'.
    + eexists. split; [reflexivity | exact Hp'].
Qed.

Lemma fold_process_appends (tl : list IK3.target) :
  forall b : IK3.builder,
  exists added : list IK3.sample,
    IK3.full_trajectory (fold_left IK3.process_target tl b)
    = IK3.full_trajectory b ++ added /\
    Forall (fun s : IK3.sample => snd s = 0%Z \/ snd s = 1%Z) added.
Proof.
  induction tl as [| tg tl IH]; intros b; cbn [fold_left].
  - exists []. rewrite app_nil_r. split; [reflexivity | constructor].
  - destruct (process_target_appends b tg) as [a1 [E1 F1]].
    destruct (IH (IK3.process_target b tg)) as [a2 [E2 F2]].
    exists (a1 ++ a2). split.
    + rewrite E2, E1, app_assoc. reflexivity.
    + apply Forall_app. split; assumption.
Qed.

(** X4.  Whatever the waypoints (also with pen values other than [0] and
    [1]): the trajectory starts with the home sample, pen up; every sample
    carries pen flag [0] or [1]; and appending waypoints to the list only
    appends samples, the samples generated so far are unchanged. *)
Theorem trajectory_grows_from_home (rb : IK3.ScaraRobot)
    (target_list more : list IK3.target) :
  (exists rest : list IK3.sample,
     IK3.trajectory rb target_list
     = (IK3.HOME_X, IK3.HOME_Y rb, 0%Z) :: rest) /\
  Forall (fun s : IK3.sample => snd s = 0%Z \/ snd s = 1%Z)
    (IK3.trajectory rb target_list) /\
  (exists added : list IK3.sample,
     IK3.trajectory rb (target_list ++ more)
     = IK3.trajectory rb target_list ++ added).
Proof.
  unfold IK3.trajectory, IK3.build.
  destruct (fold_process_appends target_list (IK3.initial_builder rb))
    as [a [E F]].
  split; [| split].
  - rewrite E. cbn [IK3.initial_builder IK3.full_trajectory app].
    eexists. reflexivity.
  - rewrite E. cbn [IK3.initial_builder IK3.full_trajectory app].
    constructor; [left; reflexivity | exact F].
  - rewrite fold_left_app.
    destruct (fold_process_appends more
                (fold_left IK3.process_target target_list
                   (IK3.initial_builder rb))) as [a' [E' _]].
    exists a'. exact E'.
Qed.

(** ** The command table *)

Lemma round_hz (a : Z) : Py.round (IZR a / IK3.DT) 1 = 50 * IZR a.
Proof.
  unfold Py.round, IK3.DT.
  replace (IZR a / (2 / 100) * 10 ^ 1) with (IZR (500 * a))
    by (rewrite mult_IZR; field).
  rewrite round_half_even_IZR, mult_IZR. field.
Qed.

(** The columns of row [k] of the loop, in terms of the step positions
    held on reaching it. *)
Lemma command_loop_columns (ik : R -> R -> option (R * R)) (o1 o2 : Z)
    (traj : list IK3.sample) :
  forall (i0 : nat) (p1 p2 : Z) (k : nat) (c : IK3.command),
    nth_error (IK3.command_loop ik o1 o2 i0 p1 p2 traj) k = Some c ->
    let prev := previous_steps (p1, p2)
                  (IK3.command_loop ik o1 o2 i0 p1 p2 traj) k in
    IK3.J1_Delta c = Z.abs (IK3.J1_Pos c - fst prev) /\
    IK3.J2_Delta c = Z.abs (IK3.J2_Pos c - snd prev) /\
    IK3.J1_Dir c = (if (fst prev <=? IK3.J1_Pos c)%Z then 1 else 0)%Z /\
    IK3.J2_Dir c = (if (snd prev <=? IK3.J2_Pos c)%Z then 1 else 0)%Z /\
    IK3.J1_Hz c = 50 * IZR (IK3.J1_Delta c) /\
    IK3.J2_Hz c = 50 * IZR (IK3.J2_Delta c).
Proof.
  induction traj as [| [[x y] pen] rest IH]; intros i0 p1 p2 k c H.
  - destruct k; discriminate.
  - cbn [IK3.command_loop] in *.
    set (curr := match ik x y with
                 | Some (t1, t2) =>
                     (((Py.int (t1 * IK3.STEPS_PER_RAD_J1) - o1) * -1)%Z,
                      ((Py.int (t2 * IK3.STEPS_PER_RAD_J2) - o2) * -1)%Z)
                 | None => (p1, p2)
                 end) in *.
    destruct curr as [c1 c2] eqn:Ecurr.
    destruct k as [| k].
    + cbn [nth_error] in H. injection H as <-.
      cbn [previous_steps fst snd IK3.J1_Pos IK3.J2_Pos IK3.J1_Delta
             IK3.J2_Delta IK3.J1_Dir IK3.J2_Dir IK3.J1_Hz IK3.J2_Hz].
      rewrite !round_hz.
      repeat split; try reflexivity.
      * destruct (Z.geb_spec (c1 - p1) 0), (Z.leb_spec p1 c1); (reflexivity || lia).
      * destruct (Z.geb_spec (c2 - p2) 0), (Z.leb_spec p2 c2); (reflexivity || lia).
    + cbn [nth_error] in H.
      specialize (IH (S i0) c1 c2 k c H).
      destruct k; exact IH.
Qed.

Lemma command_loop_pen (ik : R -> R -> option (R * R)) (o1 o2 : Z)
    (traj : list IK3.sample) :
  forall (i0 : nat) (p1 p2 : Z),
    map IK3.Pen (IK3.command_loop ik o1 o2 i0 p1 p2 traj) = map snd traj.
Proof.
  induction traj as [| [[x y] pen] rest IH]; intros i0 p1 p2.
  - reflexivity.
  - cbn [IK3.command_loop].
    destruct (ik x y) as [[t1 t2] |]; cbn [map IK3.Pen snd]; rewrite IH;
      reflexivity.
Qed.

(** X5.  In every command table, for every row: the step delta of a joint
    is the absolute difference between its step position and the one of
    the previous row ([0] before the first row), its direction bit is [1]
    exactly when the position did not decrease, and its frequency is
    exactly [50] times the delta (the delta divided by the tick of 0.02 s);
    and the Pen column is the pen column of the trajectory. *)
Theorem command_columns_consistent (ik : R -> R -> option (R * R))
    (home : R * R) (traj : list IK3.sample) (cmds : list IK3.command) :
  IK3.generate_commands ik home traj = Some cmds ->
  map IK3.Pen cmds = map snd traj /\
  forall (i : nat) (c : IK3.command),
    nth_error cmds i = Some c ->
    let prev := previous_steps (0%Z, 0%Z) cmds i in
    IK3.J1_Delta c = Z.abs (IK3.J1_Pos c - fst prev) /\
    IK3.J2_Delta c = Z.abs (IK3.J2_Pos c - snd prev) /\
    IK3.J1_Dir c = (if (fst prev <=? IK3.J1_Pos c)%Z then 1 else 0)%Z /\
    IK3.J2_Dir c = (if (snd prev <=? IK3.J2_Pos c)%Z then 1 else 0)%Z /\
    IK3.J1_Hz c = 50 * IZR (IK3.J1_Delta c) /\
    IK3.J2_Hz c = 50 * IZR (IK3.J2_Delta c).
Proof.
  unfold IK3.generate_commands.
  destruct (ik (fst home) (snd home)) as [[t1_home t2_home] |];
    [| discriminate].
  intros E. injection E as <-. split.
  - apply command_loop_pen.
  - intros i c H. exact (command_loop_columns _ _ _ _ _ _ _ _ _ H).
Qed.

(** The table of the script's robot for the home sample followed by the
    sample [(400, 0)]. *)
Lemma command_columns_consistent_witness :
  exists cmds : list IK3.command,
    IK3.generate_commands (IK3.robot_ik IK3.robot) (0, 315)
      [(0, 315, 0%Z); (400, 0, 0%Z)] = Some cmds /\
    map IK3.Pen cmds = [0%Z; 0%Z].
Proof.
  destruct out_of_reach_sample_moves_arm as [c0 [c1 [E _]]].
  exists [c0; c1]. split; [exact E |].
  exact (proj1 (command_columns_consistent _ _ _ _ E)).
Defined.

(** X6.  Whatever the robot and the waypoints, the script's command table
    is not empty and opens with the arm at rest at home: time [0], step
    position [0] on both joints, deltas and frequencies [0], both
    direction bits [1], pen up. *)
Theorem first_command_row_at_home (rb : IK3.ScaraRobot)
    (target_list : list IK3.target) :
  exists (c : IK3.command) (rest : list IK3.command),
    IK3.commands rb target_list = Some (c :: rest) /\
    IK3.Time c = 0 /\ steps c = (0%Z, 0%Z) /\
    IK3.J1_Delta c = 0%Z /\ IK3.J2_Delta c = 0%Z /\
    IK3.J1_Dir c = 1%Z /\ IK3.J2_Dir c = 1%Z /\
    IK3.J1_Hz c = 0 /\ IK3.J2_Hz c = 0 /\ IK3.Pen c = 0%Z.
Proof.
  unfold IK3.commands, IK3.generate_commands. cbn [fst snd].
  unfold IK3.trajectory, IK3.build.
  destruct (fold_process_appends target_list (IK3.initial_builder rb))
    as [a [E _]].
  rewrite E. cbn [IK3.initial_builder IK3.full_trajectory app].
  unfold IK3.robot_ik at 1.
  destruct (IK3.inverse_kinematics rb IK3.HOME_X (IK3.HOME_Y rb))
    as [t1_home t2_home] eqn:Hik.
  cbn [IK3.command_loop]. unfold IK3.robot_ik at 1. rewrite Hik.
  rewrite !Z.sub_diag. cbn [Z.mul Z.sub Z.opp Z.add Z.abs Z.geb Z.compare].
  eexists. eexists. split; [reflexivity |].
  cbn [IK3.Time IK3.J1_Pos IK3.J2_Pos IK3.J1_Delta IK3.J2_Delta IK3.J1_Dir
         IK3.J2_Dir IK3.J1_Hz IK3.J2_Hz IK3.Pen steps].
  rewrite (round_time 0), (round_hz 0).
  repeat split; try reflexivity; cbn [INR]; ring.
Qed.

(** ** More on the kinematics *)

(** With a sine that is not negative, [atan2] answers in the upper half
    turn. *)
Lemma atan2_upper (s c : R) : 0 <= s -> 0 <= Py.atan2 s c <= PI.
Proof.
  intros Hs. unfold Py.atan2.
  pose proof PI_RGT_0 as Hpi.
  destruct (Rlt_dec 0 c) as [Hc | Hc].
  - pose proof (atan_bound (s / c)) as Hb.
    assert (0 <= s / c).
    { apply Rmult_le_pos; [exact Hs | left; apply Rinv_0_lt_compat; exact Hc]. }
    assert (0 <= atan (s / c)).
    { destruct (Req_dec_T (s / c) 0) as [-> | N]; [rewrite atan_0; lra |].
      rewrite <- atan_0. left. apply atan_increasing. lra. }
    lra.
  - destruct (Rlt_dec c 0) as [Hc' | Hc'].
    + destruct (Rle_dec 0 s) as [_ | N]; [| contradiction].
      pose proof (atan_bound (s / c)) as Hb.
      assert (s / c <= 0).
      { assert (0 <= s * / - c).
        { apply Rmult_le_pos; [exact Hs |].
          left. apply Rinv_0_lt_compat. lra. }
        replace (s / c) with (- (s * / - c)) by (field; lra). lra. }
      assert (atan (s / c) <= 0).
      { destruct (Req_dec_T (s / c) 0) as [-> | N]; [rewrite atan_0; lra |].
        rewrite <- atan_0. left. apply atan_increasing. lra. }
      lra.
    + destruct (Rlt_dec 0 s); [lra |].
      destruct (Rlt_dec s 0); lra.
Qed.

(** X7.  [ScaraRobot.inverse_kinematics] only produces elbow angles in the
    upper half turn: for every arm and every point, [0 <= theta2 <= pi];
    the same holds in degrees for the grid-test controller. *)
Theorem elbow_angle_in_upper_half_turn (rb : IK3.ScaraRobot) (x y : R) :
  0 <= snd (IK3.inverse_kinematics rb x y) <= PI /\
  0 <= snd (fst (GridTest.inverse_kinematics x y)) <= 180.
Proof.
  pose proof PI_RGT_0 as Hpi.
  split.
  - unfold IK3.inverse_kinematics.
    destruct (Req_dec_T _ _); [cbn [snd]; lra |].
    destruct (Req_dec_T _ _); [cbn [snd]; lra |].
    cbn [snd]. apply atan2_upper, sqrt_pos.
  - unfold GridTest.inverse_kinematics.
    destruct (_ || _); [cbn [fst snd]; lra |].
    destruct (Rgt_dec _ _); [cbn [fst snd]; lra |].
    cbn [fst snd].
    match goal with
    | |- 0 <= Py.degrees (Py.atan2 ?s ?c) <= 180 =>
        pose proof (atan2_upper s c (sqrt_pos _)) as [Hlo Hhi];
        set (a := Py.atan2 s c) in *
    end.
    unfold Py.degrees. split.
    + apply Rmult_le_pos; [lra | left; apply Rinv_0_lt_compat; exact Hpi].
    + apply Rmult_le_reg_r with PI; [exact Hpi |].
      unfold Rdiv. rewrite Rmult_assoc, Rinv_l by lra. lra.
Qed.

(** X8.  A point beyond the reach of the arm is answered by
    [ScaraRobot.inverse_kinematics] with the fully stretched arm
    ([theta2 = 0]) pointing at it: the forward kinematics of the returned
    pose is the point of the workspace boundary on the ray to [(x, y)]. *)
Theorem beyond_reach_stretches_toward_target (rb : IK3.ScaraRobot) (x y : R) :
  0 < IK3.l1 rb -> 0 < IK3.l2 rb ->
  IK3.max_reach rb < sqrt (x ^ 2 + y ^ 2) ->
  snd (IK3.inverse_kinematics rb x y) = 0 /\
  IK3.end_effector rb (IK3.inverse_kinematics rb x y)
  = (IK3.max_reach rb * x / sqrt (x ^ 2 + y ^ 2),
     IK3.max_reach rb * y / sqrt (x ^ 2 + y ^ 2)).
Proof.
  unfold IK3.max_reach. intros Ha Hb Hfar.
  pose proof (sqrt_sq_sum x y) as Hs.
  pose proof (sqrt_pos (x ^ 2 + y ^ 2)) as Hr0.
  assert (Hd : x ^ 2 + y ^ 2 <> 0).
  { intros E. rewrite E, sqrt_0 in Hfar. lra. }
  unfold IK3.inverse_kinematics, IK3.end_effector, IK3.forward_kinematics.
  destruct rb as [a b]; cbn [IK3.l1 IK3.l2] in *.
  destruct (Req_dec_T (2 * a * b) 0) as [E | _]; [nra |].
  destruct (Req_dec_T (x ^ 2 + y ^ 2) 0) as [E | _]; [contradiction |].
  set (r := sqrt (x ^ 2 + y ^ 2)) in *.
  assert (Hbig : (a + b) * (a + b) < x ^ 2 + y ^ 2) by (rewrite <- Hs; nra).
  assert (Hc : IK3.clamp ((x ^ 2 + y ^ 2 - a ^ 2 - b ^ 2) / (2 * a * b)) = 1).
  { unfold IK3.clamp.
    destruct (Rgt_dec ((x ^ 2 + y ^ 2 - a ^ 2 - b ^ 2) / (2 * a * b)) 1)
      as [_ | N].
    - destruct (Rlt_dec 1 (-1)); [lra | reflexivity].
    - exfalso. apply N.
      apply Rmult_lt_reg_r with (2 * a * b); [nra |].
      replace ((x ^ 2 + y ^ 2 - a ^ 2 - b ^ 2) / (2 * a * b) * (2 * a * b))
        with (x ^ 2 + y ^ 2 - a ^ 2 - b ^ 2) by (field; nra).
      nra. }
  rewrite Hc.
  replace (1 - 1 ^ 2) with 0 by ring. rewrite sqrt_0.
  assert (H2 : Py.atan2 0 1 = 0).
  { unfold Py.atan2. destruct (Rlt_dec 0 1) as [_ | N]; [| lra].
    replace (0 / 1) with 0 by field. apply atan_0. }
  rewrite H2. cbn [fst snd]. split; [reflexivity |].
  set (s1 := (- x * b * 0 + y * (a + b * 1)) / (x ^ 2 + y ^ 2)).
  set (c1 := (y * b * 0 + x * (a + b * 1)) / (x ^ 2 + y ^ 2)).
  assert (Hs1 : s1 = (a + b) / r * (y / r)).
  { unfold s1. rewrite <- Hs. field. lra. }
  assert (Hc1 : c1 = (a + b) / r * (x / r)).
  { unfold c1. rewrite <- Hs. field. lra. }
  assert (Hk : 0 < (a + b) / r).
  { apply Rmult_lt_0_compat; [lra | apply Rinv_0_lt_compat; lra]. }
  assert (Hnorm : c1 ^ 2 + s1 ^ 2 = ((a + b) / r) ^ 2).
  { rewrite Hs1, Hc1.
    transitivity (((a + b) / r) ^ 2 * ((x ^ 2 + y ^ 2) / (r * r)));
      [field; lra |].
    rewrite Hs. field. lra. }
  destruct (atan2_polar c1 s1) as [Hcos Hsin].
  { rewrite Hnorm. apply pow_nonzero. lra. }
  rewrite Hnorm, sqrt_pow2 in Hcos, Hsin by lra.
  rewrite Rplus_0_r, Hcos, Hsin, Hc1, Hs1.
  f_equal; field; lra.
Qed.

(** The point [(400, 0)] for the script's robot, whose reach is 315. *)
Lemma beyond_reach_stretches_toward_target_witness :
  IK3.end_effector IK3.robot (IK3.inverse_kinematics IK3.robot 400 0)
  = (IK3.max_reach IK3.robot * 400 / sqrt (400 ^ 2 + 0 ^ 2),
     IK3.max_reach IK3.robot * 0 / sqrt (400 ^ 2 + 0 ^ 2)).
Proof.
  assert (H1 : 0 < IK3.l1 IK3.robot) by (cbn; unfold IK3.L1; lra).
  assert (H2 : 0 < IK3.l2 IK3.robot) by (cbn; unfold IK3.L2; lra).
  assert (H3 : IK3.max_reach IK3.robot < sqrt (400 ^ 2 + 0 ^ 2)).
  { rewrite sqrt_sq_of_pos by lra.
    unfold IK3.max_reach, IK3.robot, IK3.L1, IK3.L2. cbn [IK3.l1 IK3.l2]. lra. }
  exact (proj2 (beyond_reach_stretches_toward_target IK3.robot 400 0 H1 H2 H3)).
Defined.

(** The squared distance of the end of a two-link arm from its base. *)
Lemma two_link_norm (a b t1 t2 : R) :
  (a * cos t1 + b * cos (t1 + t2)) ^ 2 + (a * sin t1 + b * sin (t1 + t2)) ^ 2
  = a ^ 2 + b ^ 2 + 2 * a * b * cos t2.
Proof.
  rewrite cos_plus, sin_plus.
  pose proof (sin2_cos2 t1) as H1. pose proof (sin2_cos2 t2) as H2.
  unfold Rsqr in H1, H2.
  set (S1 := sin t1) in *. set (C1 := cos t1) in *.
  set (S2 := sin t2) in *. set (C2 := cos t2) in *.
  transitivity (a ^ 2 * (S1 * S1 + C1 * C1)
                + b ^ 2 * ((S1 * S1 + C1 * C1) * (S2 * S2 + C2 * C2))
                + 2 * a * b * C2 * (S1 * S1 + C1 * C1)); [ring |].
  rewrite H1, H2. ring.
Qed.

Lemma two_link_in_annulus (a b t1 t2 : R) :
  0 <= a -> 0 <= b ->
  Rabs (a - b)
  <= sqrt ((a * cos t1 + b * cos (t1 + t2)) ^ 2
           + (a * sin t1 + b * sin (t1 + t2)) ^ 2)
  <= a + b.
Proof.
  intros Ha Hb. rewrite two_link_norm.
  pose proof (COS_bound t2) as [Hlo Hhi].
  assert (Hab : 0 <= a * b) by (apply Rmult_le_pos; assumption).
  split.
  - rewrite <- sqrt_Rsqr_abs. apply sqrt_le_1_alt. unfold Rsqr. nra.
  - rewrite <- (sqrt_pow2 (a + b)) by lra. apply sqrt_le_1_alt. nra.
Qed.

(** X9.  Forward kinematics always lands in the workspace: for every pair
    of joint angles the end effector is between [min_reach] and
    [max_reach] from the base, for [ScaraRobot] and for the grid-test
    controller.  And when the elbow is not within rounding of the
    stretched or the folded pose ([|cos theta2| <= 1 - 1e-6], that is, at
    least 0.09 degree away), the grid-test controller accepts the point
    its own forward kinematics produces, and the pose it answers leads
    back to that point within 1e-6 mm.  In exact arithmetic the bound on
    the elbow is not needed; it keeps the point off the boundary of the
    workspace, where the tests of the running program are decided by
    rounding. *)
Theorem forward_kinematics_lands_in_workspace (rb : IK3.ScaraRobot)
    (t1 t2 : R) :
  0 <= IK3.l1 rb -> 0 <= IK3.l2 rb ->
  (let p := IK3.end_effector rb (t1, t2) in
   IK3.min_reach rb <= sqrt (fst p ^ 2 + snd p ^ 2) <= IK3.max_reach rb) /\
  (let p := GridTest.forward_kinematics t1 t2 in
   GridTest.min_reach <= sqrt (fst p ^ 2 + snd p ^ 2) <= GridTest.max_reach /\
   (Rabs (cos (Py.radians t2)) <= 1 - 1 / 1000000 ->
    let '(theta1, theta2, is_valid) :=
      GridTest.inverse_kinematics (fst p) (snd p) in
    is_valid = true /\
    within_1e_6 (GridTest.forward_kinematics theta1 theta2) p)).
Proof.
  intros Ha Hb. split.
  - unfold IK3.end_effector, IK3.forward_kinematics, IK3.min_reach,
      IK3.max_reach. cbn [fst snd].
    apply two_link_in_annulus; assumption.
  - cbv zeta.
    assert (Hband : GridTest.min_reach
                    <= sqrt (fst (GridTest.forward_kinematics t1 t2) ^ 2
                             + snd (GridTest.forward_kinematics t1 t2) ^ 2)
                    <= GridTest.max_reach).
    { unfold GridTest.forward_kinematics, GridTest.min_reach,
        GridTest.max_reach. cbn [fst snd].
      apply two_link_in_annulus; unfold GridTest.L1, GridTest.L2; lra. }
    split; [exact Hband |]. intros _.
    destruct (grid_roundtrip _ _ Hband) as [Hv Hfk].
    destruct (GridTest.inverse_kinematics _ _) as [[theta1 theta2] is_valid].
    cbn [fst snd] in Hv, Hfk.
    split; [exact Hv |].
    rewrite Hfk. destruct (GridTest.forward_kinematics t1 t2).
    apply within_refl.
Qed.

(** The joint values [(0, 90)]: radians for the script's robot, degrees
    for the grid-test controller, whose elbow is then at a right angle. *)
Lemma forward_kinematics_lands_in_workspace_witness :
  (let p := IK3.end_effector IK3.robot (0, 90) in
   IK3.min_reach IK3.robot <= sqrt (fst p ^ 2 + snd p ^ 2)
   <= IK3.max_reach IK3.robot) /\
  (let p := GridTest.forward_kinematics 0 90 in
   snd (GridTest.inverse_kinematics (fst p) (snd p)) = true).
Proof.
  assert (H1 : 0 <= IK3.l1 IK3.robot) by (cbn; unfold IK3.L1; lra).
  assert (H2 : 0 <= IK3.l2 IK3.robot) by (cbn; unfold IK3.L2; lra).
  assert (H3 : Rabs (cos (Py.radians 90)) <= 1 - 1 / 1000000).
  { replace (Py.radians 90) with (PI / 2) by (unfold Py.radians; field).
    rewrite cos_PI2, Rabs_R0. lra. }
  destruct (forward_kinematics_lands_in_workspace IK3.robot 0 90 H1 H2)
    as [Hik [_ Hg]].
  split; [exact Hik |].
  cbv zeta in *. specialize (Hg H3).
  destruct (GridTest.inverse_kinematics _ _) as [[theta1 theta2] is_valid].
  exact (proj1 Hg).
Defined.

(** Outside the workspace the raw cosine of the elbow angle is no
    cosine. *)
Lemma raw_c2_outside (a b x y : R) :
  0 < a -> 0 < b ->
  a + b < sqrt (x ^ 2 + y ^ 2) \/ sqrt (x ^ 2 + y ^ 2) < Rabs (a - b) ->
  1 < Rabs ((x ^ 2 + y ^ 2 - a ^ 2 - b ^ 2) / (2 * a * b)).
Proof.
  intros Ha Hb H.
  pose proof (sqrt_sq_sum x y) as Hs.
  pose proof (sqrt_pos (x ^ 2 + y ^ 2)) as Hr.
  set (r := sqrt (x ^ 2 + y ^ 2)) in *.
  assert (Hden : 0 < 2 * a * b) by nra.
  assert (E : (x ^ 2 + y ^ 2 - a ^ 2 - b ^ 2) / (2 * a * b) * (2 * a * b)
              = x ^ 2 + y ^ 2 - a ^ 2 - b ^ 2) by (field; lra).
  destruct H as [Hfar | Hnear].
  - assert (Hc : 1 < (x ^ 2 + y ^ 2 - a ^ 2 - b ^ 2) / (2 * a * b)).
    { apply Rmult_lt_reg_r with (2 * a * b); [exact Hden |].
      rewrite E, <- Hs. nra. }
    rewrite Rabs_pos_eq; lra.
  - assert (Hc : (x ^ 2 + y ^ 2 - a ^ 2 - b ^ 2) / (2 * a * b) < -1).
    { apply Rmult_lt_reg_r with (2 * a * b); [exact Hden |].
      rewrite E, <- Hs.
      assert (0 < (Rabs (a - b) - r) * (Rabs (a - b) + r)).
      { apply Rmult_lt_0_compat; [lra |].
        pose proof (Rabs_pos (a - b)). lra. }
      assert (Rabs (a - b) * Rabs (a - b) = (a - b) * (a - b)).
      { unfold Rabs. destruct (Rcase_abs (a - b)); ring. }
      nra. }
    rewrite Rabs_left; lra.
Qed.

(** X10.  The three elbow-up implementations.
    [SCARAPrecisionTester.inverse_kinematics] and
    [SCARARobotController.inverse_kinematics] take the same decision on
    every point and their angles agree (to within 1e-6 degree: they are
    equal in exact arithmetic, the two sources computing [theta1] from
    [cos theta2] in two ways).  [inverse_kinematics] of
    [generate_grid_csv.py] has no workspace test and no validity flag: on
    every point the controller accepts it returns the controller's two
    angles, and on every point at least 1e-6 mm outside the workspace it
    returns [(0, 0)], as the other two do.  Nothing is said of the points
    within 1e-6 mm outside the boundary, where its cosine test and the
    workspace test of the other two are decided by rounding. *)
Theorem elbow_up_implementations_agree (x y : R) :
  (let '(p1, p2, is_reachable) := PrecisionTester.inverse_kinematics x y in
   let '(g1, g2, is_valid) := GridTest.inverse_kinematics x y in
   is_reachable = is_valid /\
   Rabs (p1 - g1) <= 1 / 1000000 /\ Rabs (p2 - g2) <= 1 / 1000000) /\
  (snd (GridTest.inverse_kinematics x y) = true ->
   GridCsv.inverse_kinematics x y = fst (GridTest.inverse_kinematics x y)) /\
  (GridTest.max_reach + 1 / 1000000 <= sqrt (x ^ 2 + y ^ 2) \/
   sqrt (x ^ 2 + y ^ 2) <= GridTest.min_reach - 1 / 1000000 ->
   GridCsv.inverse_kinematics x y = (0, 0) /\
   GridTest.inverse_kinematics x y = (0, 0, false) /\
   PrecisionTester.inverse_kinematics x y = (0, 0, false)).
Proof.
  assert (Hsame : PrecisionTester.inverse_kinematics x y
                  = GridTest.inverse_kinematics x y /\
                  GridCsv.inverse_kinematics x y
                  = fst (GridTest.inverse_kinematics x y)).
  { unfold PrecisionTester.inverse_kinematics, GridTest.inverse_kinematics,
      GridCsv.inverse_kinematics.
    unfold PrecisionTester.max_reach, PrecisionTester.min_reach,
      PrecisionTester.L1, PrecisionTester.L2, GridCsv.L1, GridCsv.L2,
      GridTest.max_reach, GridTest.min_reach, GridTest.L1, GridTest.L2,
      Py.gtb, Py.ltb.
    set (c := (x ^ 2 + y ^ 2 - 160 ^ 2 - (1495 / 10) ^ 2)
              / (2 * 160 * (1495 / 10))).
    set (r := sqrt (x ^ 2 + y ^ 2)).
    assert (Hout : 160 + 1495 / 10 < r \/ r < Rabs (160 - 1495 / 10) ->
                   1 < Rabs c).
    { intros H. apply raw_c2_outside; [lra | lra | exact H]. }
    destruct (Rgt_dec r (160 + 1495 / 10)) as [Hfar | Hfar].
    { cbn [orb fst]. split; [reflexivity |].
      destruct (Rgt_dec (Rabs c) 1) as [_ | N]; [reflexivity |].
      exfalso. apply N. apply Hout. left. exact Hfar. }
    destruct (Rlt_dec r (Rabs (160 - 1495 / 10))) as [Hnear | Hnear].
    { cbn [orb fst]. split; [reflexivity |].
      destruct (Rgt_dec (Rabs c) 1) as [_ | N]; [reflexivity |].
      exfalso. apply N. apply Hout. right. exact Hnear. }
    cbn [orb].
    destruct (Rgt_dec (Rabs c) 1) as [Hbig | Hok];
      [split; reflexivity |].
    assert (Hc : -1 <= c <= 1).
    { unfold Rabs in Hok. destruct (Rcase_abs c); lra. }
    assert (Hs : sqrt (1 - c ^ 2) * sqrt (1 - c ^ 2) = 1 - c ^ 2)
      by (apply sqrt_sqrt; nra).
    destruct (atan2_unit c (sqrt (1 - c ^ 2))) as [Hcos Hsin]; [nra |].
    cbn [fst]. rewrite Hcos, Hsin. split; reflexivity. }
  destruct Hsame as [Hp Hc].
  split; [| split].
  - rewrite Hp.
    destruct (GridTest.inverse_kinematics x y) as [[g1 g2] is_valid].
    rewrite !Rminus_diag, Rabs_R0. repeat split; lra.
  - intros _. exact Hc.
  - intros Hout.
    assert (Hg : GridTest.inverse_kinematics x y = (0, 0, false)).
    { apply (grid_rejects_out_of_reach x y (1 / 2000000)); [lra |].
      destruct Hout; [left | right]; lra. }
    rewrite Hc, Hp, Hg. repeat split; reflexivity.
Qed.

(** The point [(200, 0)] of the workspace and the point [(400, 0)] beyond
    it. *)
Lemma elbow_up_implementations_agree_witness :
  GridCsv.inverse_kinematics 200 0 = fst (GridTest.inverse_kinematics 200 0) /\
  GridCsv.inverse_kinematics 400 0 = (0, 0).
Proof.
  assert (H1 : snd (GridTest.inverse_kinematics 200 0) = true).
  { apply grid_roundtrip. rewrite sqrt_sq_of_pos by lra.
    unfold GridTest.min_reach, GridTest.max_reach, GridTest.L1, GridTest.L2.
    rewrite Rabs_pos_eq; lra. }
  assert (H2 : GridTest.max_reach + 1 / 1000000 <= sqrt (400 ^ 2 + 0 ^ 2) \/
               sqrt (400 ^ 2 + 0 ^ 2) <= GridTest.min_reach - 1 / 1000000).
  { left. rewrite sqrt_sq_of_pos by lra.
    unfold GridTest.max_reach, GridTest.L1, GridTest.L2. lra. }
  split.
  - exact (proj1 (proj2 (elbow_up_implementations_agree 200 0)) H1).
  - exact (proj1 (proj2 (proj2 (elbow_up_implementations_agree 400 0)) H2)).
Defined.

(** X11.  The [ScaraRobot] of [test_connrct_PLC.py] answers [(None, None)]
    exactly in the two degenerate cases (a link of length [0], or the
    origin), where the [ScaraRobot] of [IK3.py] answers [(0, 0)]; in every
    other case, the points beyond the reach included, both return the same
    pose. *)
Theorem test_suite_ik_differs_only_when_degenerate (rb : IK3.ScaraRobot)
    (x y : R) :
  (TestSuite.inverse_kinematics rb x y = None <->
   IK3.l1 rb = 0 \/ IK3.l2 rb = 0 \/ (x, y) = (0, 0)) /\
  (TestSuite.inverse_kinematics rb x y = None ->
   IK3.inverse_kinematics rb x y = (0, 0)) /\
  (forall pose, TestSuite.inverse_kinematics rb x y = Some pose ->
                IK3.inverse_kinematics rb x y = pose).
Proof.
  unfold TestSuite.inverse_kinematics, IK3.inverse_kinematics, IK3.clamp.
  destruct (Req_dec_T (2 * IK3.l1 rb * IK3.l2 rb) 0) as [E | N].
  { split; [| split]; try reflexivity; try discriminate.
    split; [intros _ | reflexivity].
    assert (H : IK3.l1 rb * IK3.l2 rb = 0) by lra.
    destruct (Rmult_integral _ _ H); [left | right; left]; assumption. }
  destruct (Req_dec_T (x ^ 2 + y ^ 2) 0) as [E | N'].
  { split; [| split]; try reflexivity; try discriminate.
    split; [intros _ | reflexivity].
    right. right. assert (x = 0) by nra. assert (y = 0) by nra.
    subst. reflexivity. }
  split; [| split]; try discriminate.
  - split; [discriminate |].
    intros [H | [H | H]].
    + exfalso. apply N. rewrite H. ring.
    + exfalso. apply N. rewrite H. ring.
    + exfalso. apply N'. injection H as -> ->. ring.
  - intros pose H. injection H as <-. reflexivity.
Qed.

(** X12.  The determinant computed by [check_singularity] is
    [L1 * L2 * sin(theta2)]: it does not depend on [theta1], the pose is
    flagged singular exactly when that product is below [0.001] in
    magnitude, and at every pose returned by the tester's inverse
    kinematics the determinant is not negative. *)
Theorem jacobian_determinant_is_elbow_sine (theta1_deg theta2_deg x y : R) :
  snd (PrecisionTester.check_singularity theta1_deg theta2_deg)
  = PrecisionTester.L1 * PrecisionTester.L2 * sin (Py.radians theta2_deg) /\
  (fst (PrecisionTester.check_singularity theta1_deg theta2_deg) = true <->
   Rabs (PrecisionTester.L1 * PrecisionTester.L2
         * sin (Py.radians theta2_deg)) < 1 / 1000) /\
  (let '(t1, t2, _) := PrecisionTester.inverse_kinematics x y in
   0 <= snd (PrecisionTester.check_singularity t1 t2)).
Proof.
  assert (Hdet : forall a b,
            snd (PrecisionTester.check_singularity a b)
            = PrecisionTester.L1 * PrecisionTester.L2 * sin (Py.radians b)).
  { intros a b.
    unfold PrecisionTester.check_singularity, PrecisionTester.calculate_jacobian.
    cbn [fst snd]. rewrite cos_plus, sin_plus.
    pose proof (sin2_cos2 (Py.radians a)) as H1. unfold Rsqr in H1.
    set (S1 := sin (Py.radians a)) in *. set (C1 := cos (Py.radians a)) in *.
    set (S2 := sin (Py.radians b)). set (C2 := cos (Py.radians b)).
    transitivity (PrecisionTester.L1 * PrecisionTester.L2 * S2
                  * (S1 * S1 + C1 * C1)); [ring |].
    rewrite H1. ring. }
  split; [apply Hdet |]. split.
  - pose proof (Hdet theta1_deg theta2_deg) as Hd.
    unfold PrecisionTester.check_singularity in Hd |- *.
    cbn [fst snd] in Hd |- *. rewrite Hd. unfold Py.ltb.
    destruct (Rlt_dec _ _) as [Y | N]; split; intros H;
      (reflexivity || discriminate || assumption || contradiction).
  - assert (Hrange : 0 <= snd (fst (PrecisionTester.inverse_kinematics x y))
                     <= 180).
    { pose proof PI_RGT_0 as Hpi.
      unfold PrecisionTester.inverse_kinematics.
      destruct (_ || _); [cbn [fst snd]; lra |].
      destruct (Rgt_dec _ _); [cbn [fst snd]; lra |].
      cbn [fst snd].
      match goal with
      | |- 0 <= Py.degrees (Py.atan2 ?s ?c) <= 180 =>
          pose proof (atan2_upper s c (sqrt_pos _)) as [Hlo Hhi];
          set (a := Py.atan2 s c) in *
      end.
      unfold Py.degrees. split.
      - apply Rmult_le_pos; [lra | left; apply Rinv_0_lt_compat; exact Hpi].
      - apply Rmult_le_reg_r with PI; [exact Hpi |].
        unfold Rdiv. rewrite Rmult_assoc, Rinv_l by lra. lra. }
    destruct (PrecisionTester.inverse_kinematics x y) as [[t1 t2] ok].
    cbn [fst snd] in Hrange. rewrite Hdet.
    assert (Hsin : 0 <= sin (Py.radians t2)).
    { pose proof PI_RGT_0 as Hpi.
      apply sin_ge_0; unfold Py.radians.
      - apply Rmult_le_pos; [apply Rmult_le_pos; lra | lra].
      - apply Rmult_le_reg_r with (180 / PI).
        + apply Rmult_lt_0_compat; [lra | apply Rinv_0_lt_compat; lra].
        + replace (t2 * PI / 180 * (180 / PI)) with t2 by (field; lra).
          replace (PI * (180 / PI)) with 180 by (field; lra). lra. }
    unfold PrecisionTester.L1, PrecisionTester.L2.
    apply Rmult_le_pos; [lra | exact Hsin].
Qed.

(** ** Angles and motor steps *)

Lemma round_half_even_close (r : R) :
  Rabs (IZR (Py.round_half_even r) - r) <= 1 / 2.
Proof.
  unfold Py.round_half_even.
  destruct (base_Int_part r) as [H1 H2].
  destruct (Rlt_dec (r - IZR (Int_part r)) (1 / 2)) as [Hlo | Hlo].
  { rewrite Rabs_left1; lra. }
  destruct (Rlt_dec (1 / 2) (r - IZR (Int_part r))) as [Hhi | Hhi].
  { rewrite plus_IZR, Rabs_pos_eq; lra. }
  destruct (Z.even (Int_part r)).
  - rewrite Rabs_left1; lra.
  - rewrite plus_IZR, Rabs_pos_eq; lra.
Qed.

(** [int(.)] on a number strictly between two consecutive non-negative
    integers, and on its opposite. *)
Lemma int_between (r : R) (k : Z) :
  (0 <= k)%Z -> IZR k < r < IZR k + 1 ->
  Py.int r = k /\ Py.int (- r) = (- k)%Z.
Proof.
  intros Hk [Hlo Hhi].
  assert (H0 : 0 <= IZR k) by (apply IZR_le; exact Hk).
  assert (E : Int_part r = k).
  { symmetry. apply Int_part_spec. lra. }
  unfold Py.int. split.
  - destruct (Rle_dec 0 r); [exact E | lra].
  - destruct (Rle_dec 0 (- r)); [lra |].
    rewrite Ropp_involutive, E. reflexivity.
Qed.

Lemma step_angle_pos : 0 < GridTest.step_to_angle.
Proof. unfold GridTest.step_to_angle, GridTest.steps_per_rev. lra. Qed.

(** The angle of a step count differs from [theta] by [step] times the
    difference between the count and [theta / step]. *)
Lemma step_error (step theta : R) (z : Z) :
  0 < step ->
  Rabs (IZR z * step - theta) = step * Rabs (IZR z - theta / step).
Proof.
  intros H.
  replace (IZR z * step - theta) with (step * (IZR z - theta / step))
    by (field; lra).
  rewrite Rabs_mult, (Rabs_pos_eq step) by lra. reflexivity.
Qed.

Lemma within_step_quotient (k : Z) (theta : R) :
  strictly_within_step k theta ->
  (0 <= k)%Z /\ IZR k < theta / GridTest.step_to_angle < IZR k + 1.
Proof.
  intros [[Hk _] [Hlo Hhi]]. split; [exact Hk |].
  pose proof step_angle_pos as Hs.
  split.
  - apply Rmult_lt_reg_r with GridTest.step_to_angle; [exact Hs |].
    replace (theta / GridTest.step_to_angle * GridTest.step_to_angle)
      with theta by (field; lra).
    nra.
  - apply Rmult_lt_reg_r with GridTest.step_to_angle; [exact Hs |].
    replace (theta / GridTest.step_to_angle * GridTest.step_to_angle)
      with theta by (field; lra).
    nra.
Qed.

(** X13.  [angles_to_motor_values] truncates toward zero, joint by
    joint: an angle of less than one turn that lies between [k] and
    [k + 1] steps (of 0.05625 degree), at least one millionth of a step
    away from both, is converted to [k], and its opposite to [-k], not to
    [-(k + 1)].  Nothing is said of an angle within a millionth of a step
    of a whole number of steps, where the quotient of the running program
    is decided by rounding. *)
Theorem motor_values_truncate_toward_zero (theta1 theta2 : R) (k1 k2 : Z) :
  strictly_within_step k1 theta1 -> strictly_within_step k2 theta2 ->
  GridTest.angles_to_motor_values theta1 theta2 = (k1, k2) /\
  GridTest.angles_to_motor_values (- theta1) (- theta2)
  = ((- k1)%Z, (- k2)%Z) /\
  GridTest.angles_to_motor_values theta1 (- theta2) = (k1, (- k2)%Z) /\
  GridTest.angles_to_motor_values (- theta1) theta2 = ((- k1)%Z, k2).
Proof.
  intros H1 H2.
  destruct (within_step_quotient k1 theta1 H1) as [Hk1 Hq1].
  destruct (within_step_quotient k2 theta2 H2) as [Hk2 Hq2].
  destruct (int_between _ k1 Hk1 Hq1) as [P1 N1].
  destruct (int_between _ k2 Hk2 Hq2) as [P2 N2].
  pose proof step_angle_pos as Hs.
  assert (Hopp : forall t, - t / GridTest.step_to_angle
                           = - (t / GridTest.step_to_angle)).
  { intros t. field. lra. }
  unfold GridTest.angles_to_motor_values.
  rewrite !Hopp, P1, P2, N1, N2. repeat split; reflexivity.
Qed.

(** One degree lies between 17 and 18 steps, 45.03 degrees between 800
    and 801. *)
Lemma motor_values_truncate_toward_zero_witness :
  GridTest.angles_to_motor_values 1 (4503 / 100) = (17%Z, 800%Z) /\
  GridTest.angles_to_motor_values (- 1) (- (4503 / 100))
  = ((- 17)%Z, (- 800)%Z).
Proof.
  assert (H1 : strictly_within_step 17 1).
  { unfold strictly_within_step, GridTest.step_to_angle,
      GridTest.steps_per_rev. split; [lia | lra]. }
  assert (H2 : strictly_within_step 800 (4503 / 100)).
  { unfold strictly_within_step, GridTest.step_to_angle,
      GridTest.steps_per_rev. split; [lia | lra]. }
  destruct (motor_values_truncate_toward_zero 1 (4503 / 100) 17 800 H1 H2)
    as [Hp [Hn _]].
  split; [exact Hp | exact Hn].
Defined.

(** X14.  [angles_to_steps] of the precision tester rounds to the nearest
    step: the angle of the step count it returns is within half a step
    angle of the requested angle, and an angle that is a whole number of
    steps is converted exactly. *)
Theorem steps_round_to_nearest (theta1_deg theta2_deg : R) (k1 k2 : Z) :
  let step := PrecisionTester.step_to_angle in
  let '(steps1, steps2) :=
    PrecisionTester.angles_to_steps theta1_deg theta2_deg in
  Rabs (IZR steps1 * step - theta1_deg) <= step / 2 /\
  Rabs (IZR steps2 * step - theta2_deg) <= step / 2 /\
  PrecisionTester.angles_to_steps (IZR k1 * step) (IZR k2 * step) = (k1, k2).
Proof.
  cbv zeta. unfold PrecisionTester.angles_to_steps.
  assert (Hstep : 0 < PrecisionTester.step_to_angle).
  { unfold PrecisionTester.step_to_angle, PrecisionTester.steps_per_rev. lra. }
  set (step := PrecisionTester.step_to_angle) in *.
  assert (Hone : forall theta,
            Rabs (IZR (Py.round_half_even (theta / step)) * step - theta)
            <= step / 2).
  { intros theta. pose proof (round_half_even_close (theta / step)) as H.
    rewrite step_error by exact Hstep.
    replace (step / 2) with (step * (1 / 2)) by field.
    apply Rmult_le_compat_l; lra. }
  split; [apply Hone |]. split; [apply Hone |].
  f_equal.
  - replace (IZR k1 * step / step) with (IZR k1) by (field; lra).
    apply round_half_even_IZR.
  - replace (IZR k2 * step / step) with (IZR k2) by (field; lra).
    apply round_half_even_IZR.
Qed.

(** ** The grid test *)

(** What the loops of [generate_grid_coordinates] have collected after
    the cells [l], started with [coordinates] and [point_num] as in
    [st]. *)
Lemma grid_fold_spec (cx cy : R) (l : list (nat * nat)) :
  forall (st : list (R * R * Z) * Z) (e : R * R * Z),
    In e (fst (fold_left (GridTest.grid_step cx cy) l st)) ->
    In e (fst st) \/
    exists (k i j : nat),
      nth_error l k = Some (i, j) /\
      e = (cx + (INR j - 1) * GridTest.grid_spacing,
           cy + (INR i - 1) * GridTest.grid_spacing,
           (snd st + Z.of_nat k)%Z) /\
      GridTest.min_reach <= sqrt (fst (fst e) ^ 2 + snd (fst e) ^ 2)
      <= GridTest.max_reach.
Proof.
  induction l as [| [i j] l IH]; intros [coords num] e Hin; cbn [fold_left] in Hin.
  - left. exact Hin.
  - apply IH in Hin. destruct Hin as [Hin | [k [i' [j' [Hk [He Hb]]]]]].
    + unfold GridTest.grid_step in Hin. cbn [fst snd] in Hin |- *.
      destruct (Rle_dec GridTest.min_reach _) as [Hlo | Hlo];
        [| left; exact Hin].
      destruct (Rle_dec _ GridTest.max_reach) as [Hhi | Hhi];
        [| left; exact Hin].
      apply in_app_or in Hin. destruct Hin as [Hin | [<- | []]];
        [left; exact Hin |].
      right. exists 0%nat, i, j. cbn [nth_error fst snd].
      rewrite Z.add_0_r. repeat split; assumption.
    + right. exists (S k), i', j'. cbn [nth_error].
      split; [exact Hk |]. split; [| exact Hb].
      rewrite He. unfold GridTest.grid_step. cbn [snd].
      f_equal. lia.
Qed.

Lemma grid_fold_length (cx cy : R) (l : list (nat * nat)) :
  forall st : list (R * R * Z) * Z,
    (List.length (fst (fold_left (GridTest.grid_step cx cy) l st))
     <= List.length (fst st) + List.length l)%nat.
Proof.
  induction l as [| [i j] l IH]; intros [coords num]; cbn [fold_left].
  - cbn. lia.
  - etransitivity; [apply IH |].
    unfold GridTest.grid_step. cbn [fst snd List.length].
    destruct (Rle_dec _ _); [destruct (Rle_dec _ _) |];
      rewrite ?length_app; cbn [List.length]; lia.
Qed.

(** A point the grid-test controller reports valid is in its workspace. *)
Lemma grid_valid_in_band (x y : R) :
  snd (GridTest.inverse_kinematics x y) = true ->
  GridTest.min_reach <= sqrt (x ^ 2 + y ^ 2) <= GridTest.max_reach.
Proof.
  unfold GridTest.inverse_kinematics, Py.gtb, Py.ltb.
  destruct (Rgt_dec _ _) as [H1 | H1]; [discriminate |].
  destruct (Rlt_dec _ _) as [H2 | H2]; [discriminate |].
  intros _. lra.
Qed.

Lemma grid_step_keeps (cx cy : R) (st : list (R * R * Z) * Z)
    (ij : nat * nat) (e : R * R * Z) :
  In e (fst st) -> In e (fst (GridTest.grid_step cx cy st ij)).
Proof.
  destruct st as [coords num], ij as [i j]. unfold GridTest.grid_step.
  cbn [fst]. intros H.
  destruct (Rle_dec _ _); [destruct (Rle_dec _ _) |]; try exact H.
  apply in_or_app. left. exact H.
Qed.

Lemma grid_fold_keeps (cx cy : R) (l : list (nat * nat)) :
  forall (st : list (R * R * Z) * Z) (e : R * R * Z),
    In e (fst st) -> In e (fst (fold_left (GridTest.grid_step cx cy) l st)).
Proof.
  induction l as [| ij l IH]; intros st e H; cbn [fold_left].
  - exact H.
  - apply IH, grid_step_keeps, H.
Qed.

(** A cell of the grid that lies in the workspace is collected, under
    its number. *)
Lemma grid_fold_complete (cx cy : R) (l : list (nat * nat)) :
  forall (st : list (R * R * Z) * Z) (k i j : nat),
    nth_error l k = Some (i, j) ->
    GridTest.min_reach
    <= sqrt ((cx + (INR j - 1) * GridTest.grid_spacing) ^ 2
             + (cy + (INR i - 1) * GridTest.grid_spacing) ^ 2)
    <= GridTest.max_reach ->
    In (cx + (INR j - 1) * GridTest.grid_spacing,
        cy + (INR i - 1) * GridTest.grid_spacing,
        (snd st + Z.of_nat k)%Z)
       (fst (fold_left (GridTest.grid_step cx cy) l st)).
Proof.
  induction l as [| [i0 j0] l IH]; intros [coords num] k i j Hk Hb.
  - destruct k; discriminate.
  - cbn [fold_left]. destruct k as [| k]; cbn [nth_error] in Hk.
    + injection Hk as -> ->. apply grid_fold_keeps.
      unfold GridTest.grid_step. cbn [fst snd].
      destruct (Rle_dec GridTest.min_reach _) as [_ | N]; [| lra].
      destruct (Rle_dec _ GridTest.max_reach) as [_ | N]; [| lra].
      apply in_or_app. right. left. rewrite Z.add_0_r. reflexivity.
    + specialize (IH (GridTest.grid_step cx cy (coords, num) (i0, j0))
                     k i j Hk Hb).
      replace (snd (coords, num) + Z.of_nat (S k))%Z
        with (snd (GridTest.grid_step cx cy (coords, num) (i0, j0))
              + Z.of_nat k)%Z; [exact IH |].
      unfold GridTest.grid_step. cbn [snd]. lia.
Qed.

(** X15.  [generate_grid_coordinates] returns at most nine points.  Every
    triple [(x, y, number)] it returns is a cell [(i, j)] of the 3 x 3
    grid with spacing 60 around the centre, numbered [1 + 3 i + j]
    whether or not the cells before it were kept, and lies in the
    workspace (to within 1e-6 mm); and every cell of the grid that lies
    in the workspace, at least 1e-6 mm inside its boundary, is returned.
    Nothing is said of a cell within 1e-6 mm of the boundary, where the
    test of the running program is decided by rounding. *)
Theorem grid_coordinates_are_reachable_cells (center_x center_y x y : R)
    (point_num : Z) :
  let is_cell :=
    exists i j : nat,
      (i < 3)%nat /\ (j < 3)%nat /\
      point_num = (1 + 3 * Z.of_nat i + Z.of_nat j)%Z /\
      x = center_x + (INR j - 1) * 60 /\
      y = center_y + (INR i - 1) * 60 in
  (List.length (GridTest.generate_grid_coordinates center_x center_y) <= 9)%nat
  /\
  (In (x, y, point_num)
      (GridTest.generate_grid_coordinates center_x center_y) ->
   is_cell /\
   GridTest.min_reach - 1 / 1000000 <= sqrt (x ^ 2 + y ^ 2)
   <= GridTest.max_reach + 1 / 1000000)
  /\
  (is_cell ->
   GridTest.min_reach + 1 / 1000000 <= sqrt (x ^ 2 + y ^ 2)
   <= GridTest.max_reach - 1 / 1000000 ->
   In (x, y, point_num)
      (GridTest.generate_grid_coordinates center_x center_y)).
Proof.
  cbv zeta. unfold GridTest.generate_grid_coordinates.
  split; [| split].
  - etransitivity; [apply grid_fold_length |]. cbn. lia.
  - intros Hin. apply grid_fold_spec in Hin.
    destruct Hin as [[] | [k [i [j [Hk [He Hb]]]]]].
    injection He as -> -> ->. cbn [fst snd] in Hb.
    unfold GridTest.grid_spacing in *.
    split; [| lra].
    exists i, j. cbn in Hk.
    do 9 (destruct k as [| k];
          [injection Hk as <- <-; repeat split; (lia || reflexivity) |]).
    destruct k; discriminate.
  - intros [i [j [Hi [Hj [-> [-> ->]]]]]] Hb.
    replace (1 + 3 * Z.of_nat i + Z.of_nat j)%Z
      with (snd (@nil (R * R * Z), 1%Z) + Z.of_nat (3 * i + j))%Z
      by (cbn [snd]; lia).
    apply (grid_fold_complete center_x center_y _ ([], 1%Z) (3 * i + j) i j).
    + destruct i as [| [| [| i]]]; [| | | lia];
        (destruct j as [| [| [| j]]]; [| | | lia]); reflexivity.
    + unfold GridTest.grid_spacing. lra.
Qed.

(** The centre of the default grid, cell [(1, 1)], is returned as point
    number 5. *)
Lemma grid_coordinates_are_reachable_cells_witness :
  In (200, 0, 5%Z) (GridTest.generate_grid_coordinates 200 0).
Proof.
  apply (proj2 (proj2 (grid_coordinates_are_reachable_cells 200 0 200 0 5))).
  - exists 1%nat, 1%nat. cbn [INR Z.of_nat].
    repeat split; try lia; ring.
  - rewrite sqrt_sq_of_pos by lra.
    unfold GridTest.min_reach, GridTest.max_reach, GridTest.L1, GridTest.L2.
    rewrite Rabs_pos_eq; lra.
Defined.

(** In a trace made of one register batch and one trigger write, the
    trigger write has the returned batch before it. *)
Lemma trigger_follows_batch (batch : list Z) (m : Sender.call) (r : bool)
    (pre : list (Sender.call * bool)) (data : list Z) (returned : bool)
    (post : list (Sender.call * bool)) :
  [(Sender.write_sign_Dword "D100" batch, true); (m, r)]
  = pre ++ (Sender.write_bit "M3" data, returned) :: post ->
  exists b : list Z, In (Sender.write_sign_Dword "D100" b, true) pre.
Proof.
  intros H. destruct pre as [| a [| b pre]]; cbn in H.
  - discriminate H.
  - injection H as Ha _. exists batch. left. symmetry. exact Ha.
  - injection H as _ _ H. destruct pre; discriminate H.
Qed.

(** X16.  [test_grid_point] passes exactly when the point is in the
    workspace and both writes of [send_motor_commands] return: the position
    check that follows compares the target with the forward kinematics of
    its own pose and cannot fail.  For a point outside the workspace
    nothing is sent, and a write of the trigger [M3] always comes after a
    register write that has returned. *)
Theorem test_grid_point_outcome (dword_raises bit_raises : bool) (x y : R)
    (point_num velocity : Z) :
  let run := GridRun.test_grid_point dword_raises bit_raises x y
               point_num velocity in
  snd run = snd (GridTest.inverse_kinematics x y)
            && negb dword_raises && negb bit_raises /\
  (snd (GridTest.inverse_kinematics x y) = false -> fst run = []) /\
  (forall pre data returned post,
     fst run = pre ++ (Sender.write_bit "M3" data, returned) :: post ->
     exists batch, In (Sender.write_sign_Dword "D100" batch, true) pre).
Proof.
  cbv zeta. unfold GridRun.test_grid_point.
  pose proof (grid_valid_in_band x y) as Hband.
  destruct (GridTest.inverse_kinematics x y) as [[theta1 theta2] is_valid] eqn:E.
  cbn [snd] in *.
  destruct is_valid; cbn [negb andb fst snd].
  2:{ split; [reflexivity |]. split; [reflexivity |].
      intros [| a pre] data returned post H; discriminate H. }
  destruct (grid_roundtrip x y (Hband eq_refl)) as [_ Hfk].
  rewrite E in Hfk. cbn [fst snd] in Hfk.
  unfold GridTest.angles_to_motor_values, GridRun.send_motor_commands.
  destruct dword_raises; [| destruct bit_raises]; cbn [negb andb fst snd].
  - split; [reflexivity |]. split; [discriminate |].
    intros [| a [| b pre]] data returned post H; discriminate H.
  - split; [reflexivity |]. split; [discriminate |].
    intros pre data returned post H.
    exact (trigger_follows_batch _ _ _ _ _ _ _ H).
  - rewrite Hfk.
    replace (sqrt (Rabs (x - x) ^ 2 + Rabs (y - y) ^ 2)) with 0.
    + destruct (Rle_dec 0 5) as [_ | N]; [| lra]. cbn [fst snd].
      split; [reflexivity |]. split; [discriminate |].
      intros pre data returned post H.
      exact (trigger_follows_batch _ _ _ _ _ _ _ H).
    + rewrite !Rminus_diag, Rabs_R0.
      replace (0 ^ 2 + 0 ^ 2) with 0 by ring. symmetry. apply sqrt_0.
Qed.

(** ** The trajectory analysis *)

Lemma steps_turn (s : Z) :
  Py.radians (IZR (s + 6400) * AnalyzeCsv.STEP_TO_ANGLE)
  = Py.radians (IZR s * AnalyzeCsv.STEP_TO_ANGLE) + 2 * PI.
Proof.
  unfold Py.radians, AnalyzeCsv.STEP_TO_ANGLE, AnalyzeCsv.STEPS_PER_REV.
  rewrite plus_IZR. field.
Qed.

Lemma cos_turn (a : R) : cos (a + 2 * PI) = cos a.
Proof. rewrite cos_plus, cos_2PI, sin_2PI. ring. Qed.

Lemma sin_turn (a : R) : sin (a + 2 * PI) = sin a.
Proof. rewrite sin_plus, cos_2PI, sin_2PI. ring. Qed.

(** X17.  [forward_kinematics] of the analysis script, which takes motor
    step counts: a full turn of 6400 steps on either joint leads to the
    same point, and every point it computes is between 10.5 mm and
    309.5 mm from the base. *)
Theorem step_kinematics_periodic_and_bounded (steps1 steps2 : Z) :
  AnalyzeCsv.forward_kinematics (steps1 + 6400) steps2
  = AnalyzeCsv.forward_kinematics steps1 steps2 /\
  AnalyzeCsv.forward_kinematics steps1 (steps2 + 6400)
  = AnalyzeCsv.forward_kinematics steps1 steps2 /\
  (let p := AnalyzeCsv.forward_kinematics steps1 steps2 in
   105 / 10 <= sqrt (fst p ^ 2 + snd p ^ 2) <= 3095 / 10).
Proof.
  unfold AnalyzeCsv.forward_kinematics. split; [| split].
  - rewrite steps_turn.
    replace (Py.radians (IZR steps1 * AnalyzeCsv.STEP_TO_ANGLE) + 2 * PI
             + Py.radians (IZR steps2 * AnalyzeCsv.STEP_TO_ANGLE))
      with (Py.radians (IZR steps1 * AnalyzeCsv.STEP_TO_ANGLE)
            + Py.radians (IZR steps2 * AnalyzeCsv.STEP_TO_ANGLE) + 2 * PI)
      by ring.
    rewrite !cos_turn, !sin_turn. reflexivity.
  - rewrite steps_turn, <- Rplus_assoc, !cos_turn, !sin_turn. reflexivity.
  - cbv zeta. cbn [fst snd].
    pose proof (two_link_in_annulus AnalyzeCsv.L1 AnalyzeCsv.L2
                  (Py.radians (IZR steps1 * AnalyzeCsv.STEP_TO_ANGLE))
                  (Py.radians (IZR steps2 * AnalyzeCsv.STEP_TO_ANGLE))) as H.
    unfold AnalyzeCsv.L1, AnalyzeCsv.L2 in *.
    rewrite Rabs_pos_eq in H by lra.
    destruct H as [Hlo Hhi]; [lra | lra |]. lra.
Qed.

(** Rows whose index is no multiple of 50 are passed over. *)
Lemma analyse_skip (m : nat) :
  forall (rows : list (Z * Z)) (i : nat),
    (forall t : nat, (t < m)%nat -> Nat.modulo (i + t) 50 <> 0%nat) ->
    AnalyzeCsv.analyse i rows = AnalyzeCsv.analyse (i + m) (skipn m rows).
Proof.
  induction m as [| m IH]; intros rows i H.
  - rewrite Nat.add_0_r. reflexivity.
  - destruct rows as [| [j1 j2] rest].
    + reflexivity.
    + cbn [AnalyzeCsv.analyse skipn].
      assert (H0 : Nat.modulo i 50 <> 0%nat).
      { specialize (H 0%nat). rewrite Nat.add_0_r in H. apply H. lia. }
      apply Nat.eqb_neq in H0. rewrite H0.
      rewrite (IH rest (S i)).
      * f_equal. lia.
      * intros t Ht. replace (S i + t)%nat with (i + S t)%nat by lia.
        apply H. lia.
Qed.

Lemma analyse_nth (k : nat) :
  forall (rows : list (Z * Z)) (i : nat),
    Nat.modulo i 50 = 0%nat ->
    nth_error (AnalyzeCsv.analyse i rows) k
    = option_map (fun r : Z * Z => AnalyzeCsv.forward_kinematics (fst r) (snd r))
        (nth_error rows (50 * k)).
Proof.
  induction k as [| k IH]; intros rows i Hi.
  - destruct rows as [| [j1 j2] rest]; [reflexivity |].
    cbn [AnalyzeCsv.analyse]. apply Nat.eqb_eq in Hi. rewrite Hi. reflexivity.
  - destruct rows as [| [j1 j2] rest].
    + cbn [AnalyzeCsv.analyse nth_error]. rewrite nth_error_nil. reflexivity.
    + cbn [AnalyzeCsv.analyse]. pose proof Hi as Hi'.
      apply Nat.eqb_eq in Hi'. rewrite Hi'. cbn [nth_error].
      rewrite (analyse_skip 49 rest (S i)).
      * rewrite IH.
        -- rewrite nth_error_skipn.
           replace (50 * S k)%nat with (S (49 + 50 * k)) by lia.
           reflexivity.
        -- replace (S i + 49)%nat with (i + 1 * 50)%nat by lia.
           rewrite Nat.Div0.mod_add. exact Hi.
      * intros t Ht.
        replace (S i + t)%nat with (S t + i)%nat by lia.
        rewrite Nat.Div0.add_mod, Hi, Nat.add_0_r, Nat.Div0.mod_mod.
        rewrite Nat.mod_small by lia. lia.
Qed.

(** X18.  The analysis script looks at every fiftieth row, starting with
    the first: its [k]-th point is the forward kinematics of row [50 k]
    of the table, and there is no [k]-th point when the table has no row
    [50 k]. *)
Theorem analysis_samples_every_fiftieth_row (rows : list (Z * Z)) (k : nat) :
  nth_error (AnalyzeCsv.points rows) k
  = option_map (fun r : Z * Z => AnalyzeCsv.forward_kinematics (fst r) (snd r))
      (nth_error rows (50 * k)).
Proof.
  unfold AnalyzeCsv.points. apply analyse_nth. reflexivity.
Qed.

(** ** The grid table generator *)

(** Appending a row stamped with the clock, and advancing the clock by
    one tick, keeps the state on the tick grid. *)
Lemma tick_grid_append (st st' : GridCsv.state) (r : GridCsv.row) :
  on_tick_grid st ->
  GridCsv.csv_data st' = GridCsv.csv_data st ++ [r] ->
  GridCsv.Time r = Py.round (GridCsv.time_counter st) 3 ->
  GridCsv.time_counter st' = GridCsv.time_counter st + GridCsv.DT ->
  on_tick_grid st' /\
  List.length (GridCsv.csv_data st') = S (List.length (GridCsv.csv_data st)).
Proof.
  intros [Hclock Hrows] Hdata Htime Hnext.
  assert (Hlen : List.length (GridCsv.csv_data st')
                 = S (List.length (GridCsv.csv_data st))).
  { rewrite Hdata, length_app. cbn [List.length]. lia. }
  split; [| exact Hlen]. split.
  - rewrite Hnext, Hclock, Hlen, S_INR. ring.
  - intros i r' Hi. rewrite Hdata in Hi.
    destruct (Nat.lt_ge_cases i (List.length (GridCsv.csv_data st))) as [Hlt | Hge].
    + rewrite nth_error_app1 in Hi by exact Hlt. apply Hrows, Hi.
    + rewrite nth_error_app2 in Hi by exact Hge.
      destruct (i - List.length (GridCsv.csv_data st))%nat as [| d] eqn:Ed.
      * cbn [nth_error] in Hi. injection Hi as <-.
        rewrite Htime, Hclock.
        replace i with (List.length (GridCsv.csv_data st)) by lia.
        change GridCsv.DT with IK3.DT. apply round_time.
      * destruct d; discriminate.
Qed.

Lemma move_row_appends (start target : R * R) (steps : Z)
    (st : GridCsv.state) (s : nat) :
  exists r : GridCsv.row,
    GridCsv.csv_data (GridCsv.move_row start target steps st s)
    = GridCsv.csv_data st ++ [r] /\
    GridCsv.Time r = Py.round (GridCsv.time_counter st) 3 /\
    GridCsv.time_counter (GridCsv.move_row start target steps st s)
    = GridCsv.time_counter st + GridCsv.DT.
Proof.
  unfold GridCsv.move_row.
  destruct (GridCsv.inverse_kinematics _ _) as [theta1 theta2].
  destruct (GridCsv.csv_data st) as [| r0 l] eqn:E;
    cbn [GridCsv.csv_data GridCsv.time_counter];
    eexists; repeat split; reflexivity.
Qed.

Lemma fold_move_rows (start target : R * R) (steps : Z) (l : list nat) :
  forall st : GridCsv.state,
    on_tick_grid st ->
    on_tick_grid (fold_left (GridCsv.move_row start target steps) l st) /\
    List.length
      (GridCsv.csv_data (fold_left (GridCsv.move_row start target steps) l st))
    = (List.length (GridCsv.csv_data st) + List.length l)%nat.
Proof.
  induction l as [| s l IH]; intros st Hst; cbn [fold_left].
  - split; [exact Hst | cbn; lia].
  - destruct (move_row_appends start target steps st s) as [r [Hd [Ht Hn]]].
    destruct (tick_grid_append st _ r Hst Hd Ht Hn) as [Hgrid Hlen].
    destruct (IH _ Hgrid) as [Hgrid' Hlen'].
    split; [exact Hgrid' |]. rewrite Hlen', Hlen. cbn [List.length]. lia.
Qed.

Lemma one_second_steps : Py.int (1 / GridCsv.DT) = 50%Z.
Proof. apply int_eq. unfold GridCsv.DT. field. Qed.

Lemma add_move_one_second (target : R * R) (st : GridCsv.state) :
  on_tick_grid st ->
  on_tick_grid (GridCsv.add_move target 1 st) /\
  List.length (GridCsv.csv_data (GridCsv.add_move target 1 st))
  = (List.length (GridCsv.csv_data st) + 50)%nat /\
  GridCsv.current (GridCsv.add_move target 1 st) = target.
Proof.
  intros Hst. unfold GridCsv.add_move. rewrite one_second_steps.
  destruct (fold_move_rows (GridCsv.current st) target 50
              (seq 0 (Z.to_nat 50)) st Hst) as [Hgrid Hlen].
  rewrite length_seq in Hlen.
  set (st' := fold_left _ _ st) in *.
  replace (Z.to_nat 50) with 50%nat in Hlen by reflexivity.
  unfold on_tick_grid in *.
  cbn [GridCsv.csv_data GridCsv.time_counter GridCsv.current].
  split; [exact Hgrid |]. split; [exact Hlen | reflexivity].
Qed.

Lemma fold_pause_rows (l : list nat) :
  forall st : GridCsv.state,
    on_tick_grid st -> GridCsv.csv_data st <> [] ->
    exists st' : GridCsv.state,
      fold_left GridCsv.pause_row l (Some st) = Some st' /\
      on_tick_grid st' /\
      List.length (GridCsv.csv_data st')
      = (List.length (GridCsv.csv_data st) + List.length l)%nat.
Proof.
  induction l as [| n l IH]; intros st Hst Hne; cbn [fold_left].
  - exists st. split; [reflexivity |]. split; [exact Hst | cbn; lia].
  - unfold GridCsv.pause_row at 2.
    destruct (GridCsv.csv_data st) as [| r0 rest] eqn:E; [contradiction |].
    set (st1 := GridCsv.mkState _ _ _).
    destruct (tick_grid_append st st1
                (GridCsv.mkRow (Py.round (GridCsv.time_counter st) 3)
                   (GridCsv.J1_Pos (last (r0 :: rest) r0)) 0
                   (GridCsv.J2_Pos (last (r0 :: rest) r0)) 0) Hst)
      as [Hgrid Hlen].
    { unfold st1. cbn [GridCsv.csv_data]. rewrite E. reflexivity. }
    { reflexivity. }
    { reflexivity. }
    destruct (IH st1 Hgrid) as [st' [Hf [Hg Hl]]].
    { unfold st1. cbn [GridCsv.csv_data]. destruct rest; discriminate. }
    exists st'. split; [exact Hf |]. split; [exact Hg |].
    rewrite Hl, Hlen, E. cbn [List.length]. lia.
Qed.

Lemma fold_visit (ps : list (R * R)) :
  forall st : GridCsv.state,
    on_tick_grid st ->
    exists st' : GridCsv.state,
      fold_left GridCsv.visit ps (Some st) = Some st' /\
      on_tick_grid st' /\
      List.length (GridCsv.csv_data st')
      = (List.length (GridCsv.csv_data st) + 60 * List.length ps)%nat.
Proof.
  induction ps as [| p ps IH]; intros st Hst; cbn [fold_left].
  - exists st. split; [reflexivity |]. split; [exact Hst | cbn; lia].
  - unfold GridCsv.visit at 2.
    destruct (add_move_one_second p st Hst) as [Hgrid [Hlen _]].
    destruct (fold_pause_rows (seq 0 10) _ Hgrid) as [st1 [Hf [Hg Hl]]].
    { intros E. rewrite E in Hlen. cbn in Hlen. lia. }
    rewrite Hf. destruct (IH st1 Hg) as [st' [Hf' [Hg' Hl']]].
    exists st'. split; [exact Hf' |]. split; [exact Hg' |].
    rewrite Hl', Hl, Hlen, length_seq. cbn [List.length]. lia.
Qed.

(** X19.  [generate_trajectory] of [generate_grid_csv.py] always produces
    its table (the pause loop never finds the table empty); the table has
    540 rows, 50 for each of the nine one-second moves and 10 for each
    pause, and its Time column starts at [0] and steps by exactly [DT]:
    row [i] carries [i * DT]. *)
Theorem grid_table_rows_and_times :
  exists table : list GridCsv.row,
    GridCsv.generate_trajectory = Some table /\
    List.length table = 540%nat /\
    forall (i : nat) (r : GridCsv.row),
      nth_error table i = Some r -> GridCsv.Time r = INR i * GridCsv.DT.
Proof.
  unfold GridCsv.generate_trajectory.
  assert (H0 : on_tick_grid
                 (GridCsv.mkState (GridCsv.forward_kinematics 0 0) [] 0)).
  { split.
    - cbn [GridCsv.time_counter GridCsv.csv_data List.length INR]. ring.
    - intros i r H. destruct i; discriminate. }
  destruct (fold_visit GridCsv.points _ H0) as [st [Hf [[_ Ht] Hl]]].
  rewrite Hf. exists (GridCsv.csv_data st).
  split; [reflexivity |]. split; [| exact Ht].
  rewrite Hl. reflexivity.
Qed.

(** ** More on the senders *)

Lemma written_rows_sent (rows : list Sender.row) :
  forall i : nat,
    Sender.written_rows (sent_rows i rows)
    = flat_map (fun j : nat => [j; j]) (seq i (List.length rows)) /\
    Sender.reported_failures (sent_rows i rows) = [] /\
    filter Sender.is_safe_state_write (sent_rows i rows) = [].
Proof.
  induction rows as [| r rest IH]; intros i.
  - repeat split.
  - destruct (IH (S i)) as [Hw [Hr Hs]].
    cbn [sent_rows row_calls app List.length seq flat_map].
    unfold Sender.written_rows, Sender.reported_failures in *.
    cbn [Sender.collect Sender.written_row Sender.reported_failure filter
           Sender.is_safe_state_write].
    rewrite Hw, Hr, Hs. repeat split.
Qed.

Lemma sent_rows_data (rows : list Sender.row) :
  forall (i j : nat) (r : Sender.row),
    nth_error rows j = Some r ->
    incl (row_calls (i + j) r) (sent_rows i rows).
Proof.
  induction rows as [| r0 rest IH]; intros i j r Hj.
  - destruct j; discriminate.
  - cbn [sent_rows]. destruct j as [| j]; cbn [nth_error] in Hj.
    + injection Hj as ->. rewrite Nat.add_0_r. apply incl_appl, incl_refl.
    + apply incl_appr. replace (i + S j)%nat with (S i + j)%nat by lia.
      apply IH, Hj.
Qed.

(** As long as no write raises, the loop makes the two calls of each
    row, in order. *)
Lemma stream_until (dword_raises bit_raises : nat -> bool)
    (rows : list Sender.row) :
  forall (i m : nat),
    (forall j : nat, (j < m)%nat ->
       dword_raises (i + j)%nat = false /\ bit_raises (i + j)%nat = false) ->
    Sender.stream dword_raises bit_raises i rows
    = sent_rows i (firstn m rows)
      ++ Sender.stream dword_raises bit_raises (i + m) (skipn m rows).
Proof.
  induction rows as [| r rest IH]; intros i m H.
  - destruct m; reflexivity.
  - destruct m as [| m].
    + rewrite Nat.add_0_r. reflexivity.
    + cbn [firstn skipn sent_rows row_calls app Sender.stream].
      destruct (H 0%nat) as [Hd Hb]; [lia |].
      rewrite Nat.add_0_r in Hd, Hb. rewrite Hd, Hb.
      rewrite (IH (S i) m).
      * replace (S i + m)%nat with (i + S m)%nat by lia. reflexivity.
      * intros j Hj. replace (S i + j)%nat with (i + S j)%nat by lia.
        apply H. lia.
Qed.

(** X20.  [trajectory_sender_grid_3.py] when no write of the loop raises:
    every row is sent, in table order, with exactly one register batch
    [[J1_Pos, int(J1_Hz), J2_Pos, int(J2_Hz)]] on [D100] followed by one
    write of [int(Pen)] to [M4]; no failure is reported, and the run ends
    with the single write of [0] to [M4]. *)
Theorem all_rows_sent_in_order (dword_raises bit_raises : nat -> bool)
    (final_raises : bool) (rows : list Sender.row) :
  (forall i : nat, (i < List.length rows)%nat ->
     dword_raises i = false /\ bit_raises i = false) ->
  let t := fst (Sender.run dword_raises bit_raises final_raises rows) in
  Sender.written_rows t
  = flat_map (fun i : nat => [i; i]) (seq 0 (List.length rows)) /\
  Sender.reported_failures t = [] /\
  Sender.safe_state_writes t = 1%nat /\
  (forall (i : nat) (r : Sender.row),
     nth_error rows i = Some r -> incl (row_calls i r) t) /\
  (exists tail, t = sent_rows 0 rows ++ tail /\ List.length tail <= 2)%nat.
Proof.
  intros Hok. cbv zeta.
  assert (E : Sender.stream dword_raises bit_raises 0 rows = sent_rows 0 rows).
  { rewrite (stream_until dword_raises bit_raises rows 0 (List.length rows)).
    - rewrite firstn_all, skipn_all. cbn [Sender.stream]. apply app_nil_r.
    - intros j Hj. apply Hok. exact Hj. }
  destruct (written_rows_sent rows 0) as [Hw [Hr Hs]].
  unfold Sender.run. rewrite E.
  unfold Sender.written_rows, Sender.reported_failures,
    Sender.safe_state_writes in *.
  destruct final_raises; cbn [fst];
    rewrite !collect_app, filter_app, length_app, Hw, Hr, Hs;
    (split; [apply app_nil_r |]); (split; [reflexivity |]);
    (split; [reflexivity |]);
    (split; [intros i r Hi; apply incl_appl;
             apply (sent_rows_data rows 0 i r Hi) |]);
    eexists; (split; [reflexivity | cbn; lia]).
Qed.

(** A table of a thousand rows on a controller that never raises. *)
Lemma all_rows_sent_in_order_witness :
  Sender.reported_failures
    (fst (Sender.run never_raises never_raises false thousand_rows)) = [].
Proof.
  assert (H : forall i : nat, (i < List.length thousand_rows)%nat ->
                never_raises i = false /\ never_raises i = false).
  { intros i _. split; reflexivity. }
  exact (proj1 (proj2 (all_rows_sent_in_order never_raises never_raises false
                         thousand_rows H))).
Defined.

(** X21.  [trajectory_sender_grid_3.py] when the first write to raise
    belongs to row [k]: the rows before [k] have all been sent in full and
    in order, row [k] got its register batch only if it is the pen write
    that raised, and nothing else was written before the final write. *)
Theorem rows_before_failure_are_sent (dword_raises bit_raises : nat -> bool)
    (final_raises : bool) (rows : list Sender.row) (k : nat) :
  (k < List.length rows)%nat ->
  (forall j : nat, (j < k)%nat ->
     dword_raises j = false /\ bit_raises j = false) ->
  dword_raises k = true \/ bit_raises k = true ->
  let t := fst (Sender.run dword_raises bit_raises final_raises rows) in
  Sender.written_rows t
  = flat_map (fun i : nat => [i; i]) (seq 0 k)
    ++ (if dword_raises k then [k] else [k; k]) /\
  (forall (j : nat) (r : Sender.row),
     (j < k)%nat -> nth_error rows j = Some r -> incl (row_calls j r) t) /\
  write_failed_at t k.
Proof.
  intros Hk Hok Hfail. cbv zeta.
  pose proof (stream_until dword_raises bit_raises rows 0 k) as E.
  cbn [Nat.add] in E. specialize (E Hok).
  destruct (skipn k rows) as [| r rest] eqn:Es.
  { exfalso. assert (Hl : List.length (skipn k rows) = 0%nat)
      by (rewrite Es; reflexivity).
    rewrite length_skipn in Hl. lia. }
  destruct (written_rows_sent (firstn k rows) 0) as [Hw _].
  rewrite length_firstn, Nat.min_l in Hw by lia.
  assert (Hdata : forall (j : nat) (r' : Sender.row),
            (j < k)%nat -> nth_error rows j = Some r' ->
            incl (row_calls j r') (sent_rows 0 (firstn k rows))).
  { intros j r' Hj Hn. apply (sent_rows_data (firstn k rows) 0 j r').
    rewrite nth_error_firstn.
    destruct (Nat.ltb_spec j k); [exact Hn | lia]. }
  cbn [Sender.stream] in E.
  unfold Sender.run, Sender.written_rows, write_failed_at in *.
  destruct (dword_raises k) eqn:Hd.
  - rewrite E.
    destruct final_raises; cbn [fst]; rewrite <- !app_assoc, !collect_app, Hw;
      (split; [reflexivity |]);
      (split; [intros j r' Hj Hn; apply incl_appl, Hdata; assumption |]);
      eexists; (split; [| apply in_or_app; right; left; reflexivity]);
      reflexivity.
  - destruct Hfail as [Hfail | Hfail]; [discriminate |]. rewrite Hfail in E.
    rewrite E.
    destruct final_raises; cbn [fst]; rewrite <- !app_assoc, !collect_app, Hw;
      (split; [reflexivity |]);
      (split; [intros j r' Hj Hn; apply incl_appl, Hdata; assumption |]);
      eexists;
      (split; [| apply in_or_app; right; right; left; reflexivity]);
      reflexivity.
Qed.

(** The write of row 50 of a table of a thousand rows raises. *)
Lemma rows_before_failure_are_sent_witness :
  Sender.written_rows
    (fst (Sender.run raises_at_50 never_raises false thousand_rows))
  = flat_map (fun i : nat => [i; i]) (seq 0 50) ++ [50%nat].
Proof.
  assert (H1 : (50 < List.length thousand_rows)%nat).
  { unfold thousand_rows. rewrite repeat_length. lia. }
  assert (H2 : forall j : nat, (j < 50)%nat ->
                 raises_at_50 j = false /\ never_raises j = false).
  { intros j Hj. split; [| reflexivity].
    unfold raises_at_50. apply Nat.eqb_neq. lia. }
  assert (H3 : raises_at_50 50 = true \/ never_raises 50 = true)
    by (left; reflexivity).
  exact (proj1 (rows_before_failure_are_sent raises_at_50 never_raises false
                  thousand_rows 50 H1 H2 H3)).
Defined.

(** The message that the trigger was started is printed at most once
    from a state where it was not printed yet, and never again after. *)
Lemma stream_plain_started (m3_status : nat -> option (list Z))
    (m3_raises dword_raises : nat -> bool) (rows : list Sender.row) :
  forall (i : nat) (en : bool),
    (List.length
       (filter is_trigger_started
          (Sender.stream_plain m3_status m3_raises dword_raises i en rows))
     <= if en then 0 else 1)%nat.
Proof.
  induction rows as [| r rest IH]; intros i en; cbn [Sender.stream_plain].
  - destruct en; cbn; lia.
  - assert (Hw : forall enabled,
      (List.length
         (filter is_trigger_started
            (if dword_raises i
             then [Sender.Call (Some i)
                     (Sender.write_sign_Dword "D100"
                        [Sender.J2_Pos r; Sender.int (Sender.J2_Hz r);
                         Sender.J1_Pos r; Sender.int (Sender.J1_Hz r)]) false;
                   Sender.Print (Sender.Error_at_row i);
                   Sender.Print Sender.Stopping_execution]
             else Sender.Call (Some i)
                    (Sender.write_sign_Dword "D100"
                       [Sender.J2_Pos r; Sender.int (Sender.J2_Hz r);
                        Sender.J1_Pos r; Sender.int (Sender.J1_Hz r)]) true
                  :: Sender.stream_plain m3_status m3_raises dword_raises
                       (S i) enabled rest))
       <= if enabled then 0 else 1)%nat).
    { intros enabled. destruct (dword_raises i).
      - cbn. destruct enabled; lia.
      - cbn [filter is_trigger_started]. apply IH. }
    destruct (negb (Sender.J2_Pos r =? 0)%Z || negb (Sender.J1_Pos r =? 0)%Z);
      [| apply Hw].
    destruct (m3_status i) as [status |]; [| cbn; destruct en; lia].
    cbn [filter is_trigger_started].
    destruct (Sender.m3_is_off status); [| apply Hw].
    destruct (m3_raises i); [cbn; destruct en; lia |].
    cbn [filter is_trigger_started].
    destruct en; [apply Hw |].
    cbn [filter is_trigger_started List.length].
    exact (le_n_S _ 0 (Hw true)).
Qed.

(** X22.  [trajectory_sender.py] announces the start of the trigger at
    most once in a run, however often [M3] is read off and written on
    again. *)
Theorem trigger_start_announced_once (m3_status : nat -> option (list Z))
    (m3_raises dword_raises : nat -> bool) (final_raises : bool)
    (rows : list Sender.row) :
  (List.length
     (filter is_trigger_started
        (fst (Sender.run_plain m3_status m3_raises dword_raises final_raises
                rows)))
   <= 1)%nat.
Proof.
  assert (H : (List.length
                 (filter is_trigger_started
                    (Sender.stream_plain m3_status m3_raises dword_raises
                       0 false rows)) <= 1)%nat)
    by apply (stream_plain_started m3_status m3_raises dword_raises rows
                0 false).
  unfold Sender.run_plain.
  destruct final_raises; cbn [fst];
    rewrite !filter_app, !length_app; cbn [filter is_trigger_started List.length];
    lia.
Qed.

(** ** The wait for the enable bit *)

Lemma wait_skips (m3_reads : nat -> option (list Z)) (k : nat) :
  forall (fuel n : nat) (slept : Q),
    (forall j : nat, (j < k)%nat -> m3_seen_on m3_reads (n + j) = false) ->
    (k <= fuel)%nat ->
    exists slept' : Q,
      WaitEnable.wait_for_M3 m3_reads fuel n slept
      = WaitEnable.wait_for_M3 m3_reads (fuel - k) (n + k) slept' /\
      (slept + inject_Z (Z.of_nat k) * (1 # 10) <= slept')%Q /\
      (slept' <= slept + inject_Z (Z.of_nat k) * (5 # 10))%Q.
Proof.
  induction k as [| k IH]; intros fuel n slept Hoff Hfuel.
  - exists slept. rewrite Nat.sub_0_r, Nat.add_0_r.
    split; [reflexivity |].
    change (inject_Z (Z.of_nat 0)) with 0%Q. split; Lqa.lra.
  - destruct fuel as [| fuel]; [lia |].
    cbn [WaitEnable.wait_for_M3].
    pose proof (Hoff 0%nat) as H0. rewrite Nat.add_0_r in H0.
    unfold m3_seen_on in H0.
    assert (Hrest : forall j : nat, (j < k)%nat ->
                      m3_seen_on m3_reads (S n + j) = false).
    { intros j Hj. replace (S n + j)%nat with (n + S j)%nat by lia.
      apply Hoff. lia. }
    assert (HS : inject_Z (Z.of_nat (S k)) == inject_Z (Z.of_nat k) + 1).
    { rewrite Nat2Z.inj_succ. unfold Z.succ. rewrite inject_Z_plus.
      reflexivity. }
    replace (S fuel - S k)%nat with (fuel - k)%nat by lia.
    replace (n + S k)%nat with (S n + k)%nat by lia.
    destruct (m3_reads n) as [status |].
    + rewrite H0 by lia.
      destruct (IH fuel (S n) (slept + (1 # 10))%Q Hrest) as [s' [E [Hlo Hhi]]];
        [lia |].
      exists s'. split; [exact E |]. rewrite HS. split; Lqa.lra.
    + destruct (IH fuel (S n) (slept + (5 # 10))%Q Hrest) as [s' [E [Hlo Hhi]]];
        [lia |].
      exists s'. split; [exact E |]. rewrite HS. split; Lqa.lra.
Qed.

(** X23.  The wait for [M3] at the start of [trajectory_sender_grid_3.py]:
    reads that raise and reads that find the bit off are both passed over;
    if the [k]-th read is the first to find it on, the wait ends at that
    read whenever at least [k + 1] polls are allowed, after sleeping
    between [0.1 k] and [0.5 k] seconds; and if no read ever finds it on,
    the wait does not end, however many polls are allowed. *)
Theorem wait_ends_at_first_enabled_read (m3_reads : nat -> option (list Z))
    (k fuel : nat) :
  ((forall j : nat, (j < k)%nat -> m3_seen_on m3_reads j = false) ->
   m3_seen_on m3_reads k = true ->
   (k < fuel)%nat ->
   exists slept : Q,
     WaitEnable.wait_for_M3 m3_reads fuel 0 0 = Some (k, slept) /\
     (inject_Z (Z.of_nat k) * (1 # 10) <= slept)%Q /\
     (slept <= inject_Z (Z.of_nat k) * (5 # 10))%Q) /\
  ((forall j : nat, m3_seen_on m3_reads j = false) ->
   WaitEnable.wait_for_M3 m3_reads fuel 0 0 = None).
Proof.
  split.
  - intros Hoff Hon Hfuel.
    destruct (wait_skips m3_reads k fuel 0 0) as [s [E [Hlo Hhi]]];
      [exact Hoff | lia |].
    cbn [Nat.add] in E. rewrite E.
    destruct (fuel - k)%nat as [| f] eqn:Ef; [lia |].
    cbn [WaitEnable.wait_for_M3]. unfold m3_seen_on in Hon.
    destruct (m3_reads k) as [status |]; [| discriminate].
    rewrite Hon. exists s. split; [reflexivity |]. split; Lqa.lra.
  - intros Hoff.
    destruct (wait_skips m3_reads fuel fuel 0 0) as [s [E _]];
      [intros j _; apply Hoff | lia |].
    rewrite E, Nat.sub_diag. reflexivity.
Qed.

(** Two reads find [M3] off, the third raises, the fourth finds it on. *)
Lemma wait_ends_at_first_enabled_read_witness :
  exists slept : Q,
    WaitEnable.wait_for_M3 m3_on_at_third 10 0 0 = Some (3%nat, slept).
Proof.
  assert (H1 : forall j : nat, (j < 3)%nat -> m3_seen_on m3_on_at_third j = false).
  { intros j Hj. destruct j as [| [| [| j]]]; try reflexivity. lia. }
  assert (H2 : m3_seen_on m3_on_at_third 3 = true) by reflexivity.
  assert (H3 : (3 < 10)%nat) by lia.
  destruct (proj1 (wait_ends_at_first_enabled_read m3_on_at_third 3 10)
              H1 H2 H3) as [slept [E _]].
  exists slept. exact E.
Defined.

(** ** The register layout of [PLC_trajectory_trysend.py] *)

Lemma send_points_addresses (trajectory : list TrySend.point) :
  forall i : nat,
    Forall (fun a : Z => (200 + Z.of_nat i * 10 <= a)%Z)
      (map fst (TrySend.send_points i trajectory)) /\
    NoDup (map fst (TrySend.send_points i trajectory)).
Proof.
  induction trajectory as [| [[p0 p1] p2] rest IH]; intros i.
  - split; constructor.
  - destruct (IH (S i)) as [Hge Hnd].
    cbn [TrySend.send_points map fst].
    assert (Hfar : forall d : Z, (0 <= d <= 2)%Z ->
              ~ In (200 + Z.of_nat i * 10 + d)%Z
                  (map fst (TrySend.send_points (S i) rest))).
    { intros d Hd Hin. rewrite Forall_forall in Hge.
      apply Hge in Hin. lia. }
    split.
    + repeat (constructor; [lia |]).
      eapply Forall_impl; [| exact Hge]. intros a Ha. cbn beta in Ha. lia.
    + constructor.
      { intros [H | [H | H]]; [lia | lia |].
        apply (Hfar 0%Z); [lia |]. rewrite Z.add_0_r. exact H. }
      constructor.
      { intros [H | H]; [lia |]. apply (Hfar 1%Z); [lia | exact H]. }
      constructor; [apply (Hfar 2%Z); lia | exact Hnd].
Qed.

Lemma send_points_writes (trajectory : list TrySend.point) :
  forall (i k : nat) (p0 p1 p2 : Z),
    nth_error trajectory k = Some (p0, p1, p2) ->
    let base := (200 + Z.of_nat (i + k) * 10)%Z in
    In (base, p0) (TrySend.send_points i trajectory) /\
    In ((base + 1)%Z, p1) (TrySend.send_points i trajectory) /\
    In ((base + 2)%Z, p2) (TrySend.send_points i trajectory).
Proof.
  induction trajectory as [| [[q0 q1] q2] rest IH]; intros i k p0 p1 p2 Hk.
  - destruct k; discriminate.
  - cbn [TrySend.send_points]. destruct k as [| k]; cbn [nth_error] in Hk.
    + injection Hk as -> -> ->. rewrite Nat.add_0_r. cbv zeta.
      repeat split; cbn [In]; tauto.
    + destruct (IH (S i) k p0 p1 p2 Hk) as [H0 [H1 H2]].
      replace (i + S k)%nat with (S i + k)%nat by lia. cbv zeta in *.
      repeat split; cbn [In]; tauto.
Qed.

(** X24.  The register writes of [PLC_trajectory_trysend.py]: point [k]
    goes to the three registers [200 + 10 k], [201 + 10 k] and
    [202 + 10 k], the count to register [10], and no register is written
    twice, so that no point overwrites another or the count, however long
    the trajectory. *)
Theorem register_blocks_do_not_overlap (trajectory : list TrySend.point)
    (k : nat) (p0 p1 p2 : Z) :
  NoDup (map fst (TrySend.register_writes trajectory)) /\
  In (10%Z, Z.of_nat (List.length trajectory))
     (TrySend.register_writes trajectory) /\
  (nth_error trajectory k = Some (p0, p1, p2) ->
   let base := (200 + Z.of_nat k * 10)%Z in
   In (base, p0) (TrySend.register_writes trajectory) /\
   In ((base + 1)%Z, p1) (TrySend.register_writes trajectory) /\
   In ((base + 2)%Z, p2) (TrySend.register_writes trajectory)).
Proof.
  unfold TrySend.register_writes.
  destruct (send_points_addresses trajectory 0) as [Hge Hnd].
  split; [| split].
  - rewrite map_app. cbn [map fst].
    apply NoDup_app.
    + exact Hnd.
    + repeat constructor. intros [].
    + intros a Ha [E | []]. subst a.
      rewrite Forall_forall in Hge. apply Hge in Ha. lia.
  - apply in_or_app. right. left. reflexivity.
  - intros Hk. destruct (send_points_writes trajectory 0 k p0 p1 p2 Hk)
      as [H0 [H1 H2]].
    cbn [Nat.add] in *. cbv zeta in *.
    repeat split; apply in_or_app; left; assumption.
Qed.

(** The trajectory of the script. *)
Lemma register_blocks_do_not_overlap_witness :
  In (211%Z, 1000%Z)
     (TrySend.register_writes
        [(0, 5000, 300); (1000, 1000, 200); (2000, 8000, 250)]%Z).
Proof.
  exact (proj1 (proj2
           (proj2 (proj2
              (register_blocks_do_not_overlap
                 [(0, 5000, 300); (1000, 1000, 200); (2000, 8000, 250)]%Z
                 1 1000 1000 200)) eq_refl))).
Defined.

(** ** The inner bound of the workspace, and waypoints that are skipped *)

(** X25.  A point other than the origin that is closer to the base than
    [min_reach] is answered by [ScaraRobot.inverse_kinematics] with the
    fully folded arm ([theta2 = pi]) on the line to it: the forward
    kinematics of the returned pose is the point of the inner workspace
    boundary on the ray to [(x, y)]. *)
Theorem inside_min_reach_folds_toward_target (rb : IK3.ScaraRobot) (x y : R) :
  0 < IK3.l1 rb -> 0 < IK3.l2 rb ->
  (x, y) <> (0, 0) ->
  sqrt (x ^ 2 + y ^ 2) < IK3.min_reach rb ->
  snd (IK3.inverse_kinematics rb x y) = PI /\
  IK3.end_effector rb (IK3.inverse_kinematics rb x y)
  = (IK3.min_reach rb * x / sqrt (x ^ 2 + y ^ 2),
     IK3.min_reach rb * y / sqrt (x ^ 2 + y ^ 2)).
Proof.
  unfold IK3.min_reach. intros Ha Hb Hxy Hnear.
  pose proof (pair_neq_origin x y Hxy) as Hd.
  pose proof (sqrt_sq_sum x y) as Hs.
  pose proof (sqrt_sq_sum_pos x y Hd) as Hr0.
  unfold IK3.inverse_kinematics, IK3.end_effector, IK3.forward_kinematics.
  destruct rb as [a b]; cbn [IK3.l1 IK3.l2] in *.
  destruct (Req_dec_T (2 * a * b) 0) as [E | _]; [nra |].
  destruct (Req_dec_T (x ^ 2 + y ^ 2) 0) as [E | _]; [contradiction |].
  set (r := sqrt (x ^ 2 + y ^ 2)) in *.
  set (m := Rabs (a - b)) in *.
  assert (Hm : m * m = (a - b) * (a - b)).
  { unfold m, Rabs. destruct (Rcase_abs (a - b)); ring. }
  assert (Hm0 : 0 < m) by lra.
  assert (Hsmall : x ^ 2 + y ^ 2 < (a - b) * (a - b)).
  { rewrite <- Hs, <- Hm. nra. }
  assert (Hc : IK3.clamp ((x ^ 2 + y ^ 2 - a ^ 2 - b ^ 2) / (2 * a * b)) = -1).
  { assert (Hlt : (x ^ 2 + y ^ 2 - a ^ 2 - b ^ 2) / (2 * a * b) < -1).
    { apply Rmult_lt_reg_r with (2 * a * b); [nra |].
      replace ((x ^ 2 + y ^ 2 - a ^ 2 - b ^ 2) / (2 * a * b) * (2 * a * b))
        with (x ^ 2 + y ^ 2 - a ^ 2 - b ^ 2) by (field; nra).
      nra. }
    unfold IK3.clamp.
    destruct (Rgt_dec _ 1) as [Y | _]; [lra |].
    destruct (Rlt_dec _ (-1)) as [_ | N]; [reflexivity | contradiction]. }
  rewrite Hc.
  replace (1 - (-1) ^ 2) with 0 by ring. rewrite sqrt_0.
  assert (H2 : Py.atan2 0 (-1) = PI).
  { unfold Py.atan2. destruct (Rlt_dec 0 (-1)) as [Y | _]; [lra |].
    destruct (Rlt_dec (-1) 0) as [_ | N]; [| lra].
    destruct (Rle_dec 0 0) as [_ | N]; [| lra].
    replace (0 / -1) with 0 by field. rewrite atan_0. ring. }
  rewrite H2. cbn [fst snd]. split; [reflexivity |].
  set (s1 := (- x * b * 0 + y * (a + b * -1)) / (x ^ 2 + y ^ 2)).
  set (c1 := (y * b * 0 + x * (a + b * -1)) / (x ^ 2 + y ^ 2)).
  assert (Hs1 : s1 = (a - b) / r * (y / r)).
  { unfold s1. rewrite <- Hs. field. lra. }
  assert (Hc1 : c1 = (a - b) / r * (x / r)).
  { unfold c1. rewrite <- Hs. field. lra. }
  assert (Hnorm : c1 ^ 2 + s1 ^ 2 = (m / r) ^ 2).
  { rewrite Hs1, Hc1.
    transitivity (((a - b) * (a - b)) * (x ^ 2 + y ^ 2) / (r * r * r * r));
      [field; lra |].
    rewrite <- Hs, <- Hm. field. lra. }
  assert (Hk : 0 < m / r).
  { apply Rmult_lt_0_compat; [lra | apply Rinv_0_lt_compat; lra]. }
  destruct (atan2_polar c1 s1) as [Hcos Hsin].
  { rewrite Hnorm. apply pow_nonzero. lra. }
  rewrite Hnorm, sqrt_pow2 in Hcos, Hsin by lra.
  rewrite cos_plus, sin_plus, cos_PI, sin_PI, Hcos, Hsin, Hc1, Hs1.
  f_equal.
  - transitivity ((a - b) * (a - b) * x / (m * r)); [field; lra |].
    rewrite <- Hm. field. lra.
  - transitivity ((a - b) * (a - b) * y / (m * r)); [field; lra |].
    rewrite <- Hm. field. lra.
Qed.

(** The point [(3, 4)], at distance 5 from the base of the arm of the
    end-to-end scenarios, whose inner bound is 10.5. *)
Lemma inside_min_reach_folds_toward_target_witness :
  snd (IK3.inverse_kinematics scenario_robot 3 4) = PI.
Proof.
  assert (H1 : 0 < IK3.l1 scenario_robot) by (cbn; lra).
  assert (H2 : 0 < IK3.l2 scenario_robot) by (cbn; lra).
  assert (H3 : (3, 4) <> (0, 0)).
  { intros E. injection E as E _. lra. }
  assert (H4 : sqrt (3 ^ 2 + 4 ^ 2) < IK3.min_reach scenario_robot).
  { replace (3 ^ 2 + 4 ^ 2) with (5 ^ 2) by ring.
    rewrite sqrt_pow2 by lra.
    unfold IK3.min_reach, scenario_robot. cbn [IK3.l1 IK3.l2].
    rewrite Rabs_pos_eq; lra. }
  exact (proj1 (inside_min_reach_folds_toward_target scenario_robot 3 4
                  H1 H2 H3 H4)).
Defined.

Lemma pen_land_wait_steps : Py.int (IK3.PEN_DOWN_DELAY / IK3.DT) = 100%Z.
Proof. apply int_eq. unfold IK3.PEN_DOWN_DELAY, IK3.DT. field. Qed.

(** X26.  How a waypoint changes the builder.  A pen-up waypoint is never
    skipped: it moves the current position to the waypoint and appends at
    least 11 samples (the ten samples of the pen-lift dwell and at least
    one more), also when the arm is already there.  A pen-down waypoint
    ([pen = 1]) closer than [0.001] mm to the current position changes
    nothing, the current position included.  A pen-down waypoint reached
    from a pen-up sample is preceded by a dwell of exactly 100 samples
    with the pen down at the position the stroke starts from. *)
Theorem waypoint_effects (b : IK3.builder) (tg : IK3.target) :
  (IK3.tpen tg = 0%Z ->
   IK3.current (IK3.process_target b tg) = (IK3.tx tg, IK3.ty tg) /\
   (List.length (IK3.full_trajectory b) + 11
    <= List.length (IK3.full_trajectory (IK3.process_target b tg)))%nat) /\
  (IK3.tpen tg = 1%Z ->
   Py.dist (IK3.current b) (IK3.tx tg, IK3.ty tg) < 1 / 1000 ->
   IK3.process_target b tg = b) /\
  (IK3.tpen tg = 1%Z ->
   ~ Py.dist (IK3.current b) (IK3.tx tg, IK3.ty tg) < 1 / 1000 ->
   IK3.last_state (IK3.full_trajectory b) = 0%Z ->
   IK3.full_trajectory (IK3.process_target b tg)
   = IK3.full_trajectory b
     ++ repeat (fst (IK3.current b), snd (IK3.current b), 1%Z) 100
     ++ IK3.interpolate_linear (IK3.current b) (IK3.tx tg, IK3.ty tg)
          IK3.DRAW_SPEED IK3.DT 1).
Proof.
  split; [| split].
  - intros Hpen. unfold IK3.process_target. rewrite Hpen.
    cbn [Z.eqb]. rewrite andb_false_r, pen_lift_wait_steps.
    destruct (IK3.interpolate_travel _ _ _ _ _) as [| m ms];
      cbn [IK3.current IK3.full_trajectory]; (split; [reflexivity |]);
      rewrite !length_app, repeat_length; cbn [List.length Z.to_nat Pos.to_nat
                                                 Pos.iter_op Nat.add]; lia.
  - intros Hpen Hd. unfold IK3.process_target, Py.ltb. rewrite Hpen.
    destruct (Rlt_dec _ _) as [_ | N]; [reflexivity | contradiction].
  - intros Hpen Hd Hlast. unfold IK3.process_target, Py.ltb. rewrite Hpen.
    destruct (Rlt_dec _ _) as [Y | _]; [contradiction |].
    cbn [andb Z.eqb]. rewrite Hlast. cbn [Z.eqb].
    rewrite pen_land_wait_steps. cbn [IK3.full_trajectory].
    rewrite <- app_assoc. reflexivity.
Qed.

(** A pen-up waypoint at the home of the script's robot. *)
Lemma waypoint_effects_witness :
  IK3.current
    (IK3.process_target (IK3.initial_builder IK3.robot)
       (IK3.mkTarget 0 315 0)) = (0, 315).
Proof.
  exact (proj1 (proj1 (waypoint_effects (IK3.initial_builder IK3.robot)
                         (IK3.mkTarget 0 315 0)) eq_refl)).
Defined.
